(** * vritti-api-nexus: the authentication core, embedded and verified

    A shallow embedding of
      - [src/modules/auth/services/token.service.ts]          (TokenService)
      - [src/modules/auth/services/signup-attempt.service.ts] (SignupAttemptService)
      - the auth service ([refreshApplication], [signup])     (AuthService)
      - the initial migration (tables, unique indexes, foreign key)
    and the properties of the token lifecycle and of the signup-attempt
    state machine that are stated about them.

    Conventions of the embedding.
      - A [Date] is a [Z]: milliseconds since the epoch, in UTC.
      - A JS [number] that holds an integer is a [Z]; [NaN] is [None].
      - A JS string is a [string]; [toLowerCase] acts on the ASCII letters.
      - [async] methods are computations in the monad [M]: they read and write
        the [World] (the three tables, the clock, the configuration, the
        source of fresh identifiers, the availability of the database) and
        either return a value or throw an exception ([Outcome]).
      - Logger calls have no effect on any value or table and are left out. *)

From Stdlib Require Import ZArith QArith Lia Ascii String.
From stdpp Require Import base strings list gmap pretty.

Open Scope string_scope.
Open Scope list_scope.
Open Scope Z_scope.

(** ** JavaScript primitives used by the services *)

Module JS.

(** The code of an ASCII character. *)
Definition code (c : ascii) : Z := Z.of_nat (nat_of_ascii c).

Definition lowerChar (c : ascii) : ascii :=
  if bool_decide (65 <= code c <= 90)
  then ascii_of_nat (nat_of_ascii c + 32)
  else c.

(** [String.prototype.toLowerCase]. *)
Fixpoint toLowerCase (s : string) : string :=
  match s with
  | EmptyString => EmptyString
  | String c rest => String (lowerChar c) (toLowerCase rest)
  end.

(** White space skipped by [parseInt]: TAB, LF, VT, FF, CR, SP. *)
Definition isWhiteSpace (c : ascii) : bool :=
  bool_decide (9 <= code c <= 13) || bool_decide (code c = 32).

Fixpoint trimStart (s : string) : string :=
  match s with
  | String c rest => if isWhiteSpace c then trimStart rest else s
  | EmptyString => EmptyString
  end.

Definition digitOf (c : ascii) : option Z :=
  if bool_decide (48 <= code c <= 57) then Some (code c - 48) else None.

(** The value of the longest prefix of decimal digits; [acc] is the value
    read so far ([None] when no digit was read yet). *)
Fixpoint digits (s : string) (acc : option Z) : option Z :=
  match s with
  | String c rest =>
      match digitOf c with
      | Some d => digits rest (Some (10 * default 0 acc + d))
      | None => acc
      end
  | EmptyString => acc
  end.

(** [parseInt(s, 10)]; [None] is [NaN]. *)
Definition parseInt (s : string) : option Z :=
  match trimStart s with
  | String "-" rest => Z.opp <$> digits rest None
  | String "+" rest => digits rest None
  | rest => digits rest None
  end.

(** [s.replace(c, '')] for a one-character pattern: the first occurrence
    of [c] is removed. *)
Fixpoint removeFirst (c : ascii) (s : string) : string :=
  match s with
  | EmptyString => EmptyString
  | String c' rest => if bool_decide (c' = c) then rest else String c' (removeFirst c rest)
  end.

(** [s.slice(0, -1)] and [s.slice(-1)]. *)
Fixpoint sliceInit (s : string) : string :=
  match s with
  | EmptyString => EmptyString
  | String c EmptyString => EmptyString
  | String c rest => String c (sliceInit rest)
  end.

Fixpoint sliceLast (s : string) : string :=
  match s with
  | EmptyString => EmptyString
  | String c EmptyString => s
  | String c rest => sliceLast rest
  end.

(** Truthiness of a string: only the empty string is falsy. *)
Definition truthy (s : string) : bool := negb (bool_decide (s = "")).

(** [a || b] on an optional string ([None] is [undefined]). *)
Definition orElse (a : option string) (b : string) : string :=
  match a with
  | Some v => if truthy v then v else b
  | None => b
  end.

(** Property lookup in an object with string values. *)
Fixpoint prop (k : string) (o : list (string * string)) : option string :=
  match o with
  | [] => None
  | (k', v) :: rest => if bool_decide (k' = k) then Some v else prop k rest
  end.

Definition msPerDay : Z := 1000 * 60 * 60 * 24.
Definition msPerHour : Z := 1000 * 60 * 60.

(** *** Numbers

    The numbers that the arithmetic of this code produces are the doubles
    that are integers and the two infinities; [NaN] is the [None] of an
    optional double, and [-0] is not told from [0]. A finite double is given
    by the integer it is. *)
Inductive double :=
| Finite (z : Z)
| Infinite (negative : bool).

(** The double nearest to an integer, ties to the even significand: every
    integer up to 2^53 in magnitude is a double; above, the 53 leading bits
    are kept and the rest is rounded; from 2^1024 on the result is infinite. *)
Definition roundToDouble (z : Z) : double :=
  let a := Z.abs z in
  if bool_decide (a <= 2 ^ 53) then Finite z
  else
    let shift := Z.log2 a - 52 in
    let q := a / 2 ^ shift in
    let r := a mod 2 ^ shift in
    let half := 2 ^ (shift - 1) in
    let q' := if bool_decide (half < r) || (bool_decide (r = half) && Z.odd q)
              then q + 1 else q in
    let v := q' * 2 ^ shift in
    if bool_decide (2 ^ 1024 <= v) then Infinite (bool_decide (z < 0))
    else Finite (Z.sgn z * v).

(** [x * k] for a number [x] and an integer constant [k]. *)
Definition times (x : option double) (k : Z) : option double :=
  match x with
  | None => None
  | Some (Finite z) => Some (roundToDouble (z * k))
  | Some (Infinite negative) =>
      if bool_decide (k = 0) then None
      else Some (Infinite (xorb negative (bool_decide (k < 0))))
  end.

(** The number that [parseInt] returns for the integer it read. *)
Definition toNumber (z : option Z) : option double := roundToDouble <$> z.

(** *** Dates

    A time value is a count of milliseconds since the epoch, at most
    8.64e15 in magnitude; [TimeClip] turns anything beyond into the invalid
    date ([None]). The host's time zone is its [LocalTZA(t, isUTC)]: the
    offset of local time from UTC at the UTC instant [t], or at the local
    time [t] when [isUTC] is false. *)
Definition maxTime : Z := 8640000000000000.

Definition timeClip (t : Z) : option Z :=
  if bool_decide (Z.abs t <= maxTime) then Some t else None.

Definition localTime (localTZA : Z → bool → Z) (t : Z) : Z := t + localTZA t true.
Definition utc (localTZA : Z → bool → Z) (t : Z) : Z := t - localTZA t false.

(** [d.setHours(d.getHours() + n)] and [d.setDate(d.getDate() + n)] on a
    valid date [d] of time value [t]: [n] hours, or days, later on the local
    clock. *)
Definition plusLocal (localTZA : Z → bool → Z) (t span : Z) : option Z :=
  timeClip (utc localTZA (localTime localTZA t + span)).

End JS.

(** ** The data model (tables of the initial migration) *)

Inductive UserStatus := ACTIVE | INACTIVE | SUSPENDED | DELETED.
Inductive AttemptStatus := IN_PROGRESS | COMPLETED | EXPIRED | ABANDONED.

#[global] Instance UserStatus_eq_dec : EqDecision UserStatus.
Proof. solve_decision. Defined.
#[global] Instance AttemptStatus_eq_dec : EqDecision AttemptStatus.
Proof. solve_decision. Defined.

(** A signed token, symbolically: the payload object, the issue and expiry
    instants (seconds) that [jwt.sign] adds, and the secret whose HMAC seals
    it. A [Malformed] token is any string that is not a JWT. *)
Record Jwt := mkJwt {
  claims : list (string * string);
  iat : Z;
  exp : option Z;
  sealedWith : string;
}.

Inductive Token :=
| Malformed (raw : string)
| Signed (j : Jwt).

#[global] Instance Jwt_eq_dec : EqDecision Jwt.
Proof. solve_decision. Defined.
#[global] Instance Token_eq_dec : EqDecision Token.
Proof. solve_decision. Defined.

Module User.
Record t := mk {
  id : string;
  email : string;
  firstName : string;
  lastName : string;
  passwordHash : string;
  emailVerified : bool;
  status : UserStatus;
  createdAt : Z;
  updatedAt : Z;
}.
End User.

Module RefreshToken.
Record t := mk {
  id : string;
  token : Token;
  userId : string;
  revoked : bool;
  expiresAt : Z;
  createdAt : Z;
}.

Definition setRevoked (b : bool) (r : t) : t :=
  mk (id r) (token r) (userId r) b (expiresAt r) (createdAt r).
End RefreshToken.

Module SignupAttempt.
Record t := mk {
  id : string;
  email : string;
  firstName : option string;
  lastName : option string;
  passwordHash : option string;
  emailVerified : bool;
  phoneVerified : bool;
  mfaEnabled : bool;
  currentStep : string;
  completedSteps : list string;
  status : AttemptStatus;
  attemptCount : Z;
  createdAt : Z;
  updatedAt : Z;
  expiresAt : Z;
  completedAt : option Z;
}.

(** The fields an [update] of the services may write; [None] leaves the
    column as it is. *)
Record patch := mkPatch {
  newCurrentStep : option string;
  newCompletedSteps : option (list string);
  newStatus : option AttemptStatus;
  newAttemptCount : option Z;
  newUpdatedAt : option Z;
  newCompletedAt : option Z;
}.

(** The row after [UPDATE ... SET]. [updated_at] has no default in the
    migration and [create] never supplies it: the column is maintained by
    the client, which writes the time of the statement on every update
    unless the data names the column. *)
Definition apply (stamp : Z) (p : patch) (a : t) : t :=
  mk (id a) (email a) (firstName a) (lastName a) (passwordHash a)
     (emailVerified a) (phoneVerified a) (mfaEnabled a)
     (default (currentStep a) (newCurrentStep p))
     (default (completedSteps a) (newCompletedSteps p))
     (default (status a) (newStatus p))
     (default (attemptCount a) (newAttemptCount p))
     (createdAt a)
     (default stamp (newUpdatedAt p))
     (expiresAt a)
     (match newCompletedAt p with Some d => Some d | None => completedAt a end).

(** The columns of the unique index [signup_attempts_email_status_key]. *)
Definition key (a : t) : string * AttemptStatus := (email a, status a).
End SignupAttempt.

#[global] Instance User_eq_dec : EqDecision User.t.
Proof. solve_decision. Defined.
#[global] Instance RefreshToken_eq_dec : EqDecision RefreshToken.t.
Proof. solve_decision. Defined.
#[global] Instance SignupAttempt_eq_dec : EqDecision SignupAttempt.t.
Proof. solve_decision. Defined.

(** ** The world the services run in *)

Record Db := mkDb {
  users : list User.t;
  refreshTokens : list RefreshToken.t;
  signupAttempts : list SignupAttempt.t;
}.

(** Besides the tables: the clock (read by [new Date()], [Date.now()] and
    [CURRENT_TIMESTAMP]), the configuration (environment variables), the
    identifiers [crypto.randomUUID] and the client's id default hand out (the
    [drawn]-th one next), and for each coming round trip to the database
    whether it fails ([true]); past the end of the list every round trip
    goes through; and the host's time zone, which [getHours], [setHours],
    [getDate] and [setDate] read. *)
Record World := mkWorld {
  db : Db;
  now : Z;
  config : gmap string string;
  randomUUID : nat -> string;
  drawn : nat;
  outages : list bool;
  localTZA : Z -> bool -> Z;
}.

Definition setDb (d : Db) (w : World) : World :=
  mkWorld d (now w) (config w) (randomUUID w) (drawn w) (outages w) (localTZA w).
Definition setDrawn (n : nat) (w : World) : World :=
  mkWorld (db w) (now w) (config w) (randomUUID w) n (outages w) (localTZA w).
Definition setOutages (o : list bool) (w : World) : World :=
  mkWorld (db w) (now w) (config w) (randomUUID w) (drawn w) o (localTZA w).

Definition setRefreshTokens (rows : list RefreshToken.t) (d : Db) : Db :=
  mkDb (users d) rows (signupAttempts d).
Definition setSignupAttempts (rows : list SignupAttempt.t) (d : Db) : Db :=
  mkDb (users d) (refreshTokens d) rows.

(** ** Exceptions, outcomes and the monad of service calls *)

Inductive Exn :=
| UnauthorizedException (message : string)
| ConflictException (message : string)
| InternalServerErrorException (message : string)
| PrismaClientError (code : string)
| JsonWebTokenError (message : string)
| TypeError (message : string).

Inductive Outcome (A : Type) :=
| Return (a : A)
| Throw (e : Exn).
Arguments Return {A} a.
Arguments Throw {A} e.

Definition M (A : Type) : Type := World -> Outcome A * World.

#[global] Instance M_ret : MRet M := λ A a w, (Return a, w).
#[global] Instance M_bind : MBind M := λ A B k m w,
  match m w with
  | (Return a, w') => k a w'
  | (Throw e, w') => (Throw e, w')
  end.

Definition throw {A} (e : Exn) : M A := λ w, (Throw e, w).

(** [try { body } catch (error) { handler }]. *)
Definition tryCatch {A} (body : M A) (handler : Exn -> M A) : M A := λ w,
  match body w with
  | (Throw e, w') => handler e w'
  | r => r
  end.

Definition gets {A} (f : World -> A) : M A := λ w, (Return (f w), w).
Definition modifyDb (f : Db -> Db) : M unit := λ w, (Return (), setDb (f (db w)) w).

(** [crypto.randomUUID()], and the identifier the client gives a new row. *)
Definition freshId : M string := λ w,
  (Return (randomUUID w (drawn w)), setDrawn (S (drawn w)) w).

(** ** ConfigService *)

Module ConfigService.
Definition get (k : string) : M (option string) := gets (λ w, config w !! k).
Definition getOr (k d : string) : M string := gets (λ w, default d (config w !! k)).
Definition getOrThrow (k : string) : M string :=
  v ← get k;
  match v with
  | Some s => mret s
  | None => throw (TypeError "Configuration key does not exist")
  end.
End ConfigService.

(** ** The store: the client calls the services make, over the migration's
    constraints *)

Module Prisma.

Definition P1001 : Exn := PrismaClientError "P1001". (* database unreachable *)
Definition P2002 : Exn := PrismaClientError "P2002". (* unique constraint *)
Definition P2003 : Exn := PrismaClientError "P2003". (* foreign key constraint *)
Definition P2025 : Exn := PrismaClientError "P2025". (* record not found *)
Definition P2020 : Exn := PrismaClientError "P2020". (* value out of range *)

(** The values of an [INTEGER] column: 32 bits, signed. *)
Definition int4 (z : Z) : bool := bool_decide (-2147483648 <= z <= 2147483647).

(** One round trip to the database. *)
Definition roundTrip : M unit := λ w,
  match outages w with
  | true :: rest => (Throw P1001, setOutages rest w)
  | false :: rest => (Return (), setOutages rest w)
  | [] => (Return (), w)
  end.

Module user.
(** [findUnique({ where: { email } })]. *)
Definition findUnique (email : string) : M (option User.t) :=
  roundTrip;;
  rows ← gets (users ∘ db);
  mret (List.find (λ u, bool_decide (User.email u = email)) rows).
End user.

Module refreshToken.
Definition byId (id : string) (r : RefreshToken.t) : bool :=
  bool_decide (RefreshToken.id r = id).

Definition findUnique (id : string) : M (option RefreshToken.t) :=
  roundTrip;;
  rows ← gets (refreshTokens ∘ db);
  mret (List.find (byId id) rows).

(** [findUnique({ where: { id }, include: { user: true } })]. *)
Definition findUniqueWithUser (id : string)
  : M (option (RefreshToken.t * option User.t)) :=
  roundTrip;;
  rows ← gets (refreshTokens ∘ db);
  us ← gets (users ∘ db);
  mret ((λ r, (r, List.find (λ u, bool_decide (User.id u = RefreshToken.userId r)) us))
          <$> List.find (byId id) rows).

(** [create({ data: { id, token, userId, expiresAt } })]: primary key,
    [refresh_tokens_token_key], [refresh_tokens_user_id_fkey]; [revoked]
    and [created_at] take their defaults. *)
Definition create (id : string) (token : Token) (userId : string) (expiresAt : Z)
  : M RefreshToken.t :=
  roundTrip;;
  rows ← gets (refreshTokens ∘ db);
  us ← gets (users ∘ db);
  stamp ← gets now;
  if bool_decide (id ∈ RefreshToken.id <$> rows) then throw P2002
  else if bool_decide (token ∈ RefreshToken.token <$> rows) then throw P2002
  else if bool_decide (userId ∉ User.id <$> us) then throw P2003
  else
    let row := RefreshToken.mk id token userId false expiresAt stamp in
    modifyDb (setRefreshTokens (rows ++ [row]));;
    mret row.

(** [update({ where: { id }, data: { revoked } })]. *)
Definition update (id : string) (revoked : bool) : M RefreshToken.t :=
  roundTrip;;
  rows ← gets (refreshTokens ∘ db);
  match List.find (byId id) rows with
  | None => throw P2025
  | Some r =>
      modifyDb (setRefreshTokens
        ((λ r, if byId id r then RefreshToken.setRevoked revoked r else r) <$> rows));;
      mret (RefreshToken.setRevoked revoked r)
  end.

(** [updateMany({ where, data: { revoked } })]; returns the count. *)
Definition updateMany (where_ : RefreshToken.t -> bool) (revoked : bool) : M Z :=
  roundTrip;;
  rows ← gets (refreshTokens ∘ db);
  modifyDb (setRefreshTokens
    ((λ r, if where_ r then RefreshToken.setRevoked revoked r else r) <$> rows));;
  mret (Z.of_nat (length (List.filter where_ rows))).
End refreshToken.

Module signupAttempt.
Definition byId (id : string) (a : SignupAttempt.t) : bool :=
  bool_decide (SignupAttempt.id a = id).

(** Whether row [a] would share its (email, status) with another row of
    [rows]: what [signup_attempts_email_status_key] refuses. *)
Definition clashes (a : SignupAttempt.t) (rows : list SignupAttempt.t) : bool :=
  existsb (λ b, bool_decide (SignupAttempt.id b ≠ SignupAttempt.id a
                             ∧ SignupAttempt.key b = SignupAttempt.key a)) rows.

Definition findUnique (id : string) : M (option SignupAttempt.t) :=
  roundTrip;;
  rows ← gets (signupAttempts ∘ db);
  mret (List.find (byId id) rows).

(** The first row in descending [createdAt]. *)
Definition newest (rows : list SignupAttempt.t) : option SignupAttempt.t :=
  foldl (λ best a,
           match best with
           | Some b => if bool_decide (SignupAttempt.createdAt b < SignupAttempt.createdAt a)
                       then Some a else best
           | None => Some a
           end) None rows.

(** [findFirst({ where, orderBy: { createdAt: 'desc' } })]. *)
Definition findFirst (where_ : SignupAttempt.t -> bool) : M (option SignupAttempt.t) :=
  roundTrip;;
  rows ← gets (signupAttempts ∘ db);
  mret (newest (List.filter where_ rows)).

(** [create({ data })]: the id is the client's default, every column the
    data leaves out takes the migration's default, [updated_at] the time
    of the statement. *)
Definition create (email firstName lastName passwordHash currentStep : string)
    (status : AttemptStatus) (expiresAt : Z) : M SignupAttempt.t :=
  id ← freshId;
  roundTrip;;
  rows ← gets (signupAttempts ∘ db);
  stamp ← gets now;
  let row := SignupAttempt.mk id email (Some firstName) (Some lastName)
               (Some passwordHash) false false false currentStep [] status 1
               stamp stamp expiresAt None in
  if bool_decide (id ∈ SignupAttempt.id <$> rows) then throw P2002
  else if clashes row rows then throw P2002
  else modifyDb (setSignupAttempts (rows ++ [row]));; mret row.

(** Whether the data of an update fits the columns it writes:
    [attempt_count] is an [INTEGER]. *)
Definition fits (data : SignupAttempt.patch) : bool :=
  match SignupAttempt.newAttemptCount data with
  | Some n => int4 n
  | None => true
  end.

(** [update({ where: { id }, data })]. *)
Definition update (id : string) (data : SignupAttempt.patch) : M SignupAttempt.t :=
  roundTrip;;
  rows ← gets (signupAttempts ∘ db);
  stamp ← gets now;
  if negb (fits data) then throw P2020
  else
    match List.find (byId id) rows with
    | None => throw P2025
    | Some a =>
        let a' := SignupAttempt.apply stamp data a in
        if clashes a' rows then throw P2002
        else
          modifyDb (setSignupAttempts
            ((λ b, if byId id b then SignupAttempt.apply stamp data b else b) <$> rows));;
          mret a'
    end.

(** [updateMany({ where, data })]: one statement; it is refused as a
    whole, and changes nothing, when a row it writes would share its
    (email, status) with another row of the table it leaves. Returns the
    count of rows written. *)
Definition updateMany (where_ : SignupAttempt.t -> bool) (data : SignupAttempt.patch)
  : M Z :=
  roundTrip;;
  rows ← gets (signupAttempts ∘ db);
  stamp ← gets now;
  let rows' := (λ a, if where_ a then SignupAttempt.apply stamp data a else a) <$> rows in
  if negb (fits data) then throw P2020
  else if existsb (λ a, where_ a && clashes (SignupAttempt.apply stamp data a) rows') rows
  then throw P2002
  else
    modifyDb (setSignupAttempts rows');;
    mret (Z.of_nat (length (List.filter where_ rows))).
End signupAttempt.

End Prisma.

(** ** Values the services return *)

Module Issued.
(** [{ token, expiresAt, tokenId }] of [generateRefreshToken]. *)
Record t := mk {
  token : Token;
  expiresAt : Z;
  tokenId : string;
}.
End Issued.

Module UserDataDto.
Record t := mk {
  id : string;
  email : string;
  firstName : string;
  lastName : string;
  emailVerified : bool;
  status : UserStatus;
}.
End UserDataDto.

(** [RefreshSuccessResponseDto | RefreshFailureResponseDto]; [expiresIn] is
    [None] when the computed number is [NaN], [newRefreshToken] is present
    when the token was rotated. *)
Inductive RefreshResponseDto :=
| RefreshSuccess (accessToken : Token) (user : UserDataDto.t)
                 (expiresIn : option JS.double)
                 (newRefreshToken : option Token)
| RefreshFailure (message : string) (redirectTo : string).

(** [SignupSuccessResponseDto | SignupFailureResponseDto]. *)
Inductive SignupResponseDto :=
| SignupSuccess (signupToken : Token) (nextStep : string) (attemptId : string)
                (resumedSession : option bool) (completedSteps : option (list string))
| SignupFailure (message : string) (statusCode : Z).

(** ** The services *)

Section Services.

(** The two library functions the services are parametric in: the parser
    of time spans that [jwt.sign] applies to [expiresIn] (milliseconds;
    [None] when the string is no time span), and [bcrypt.hash] ([None] when
    it rejects its arguments). *)
Variable ms : string -> option Z.
Variable bcrypt_hash : string -> option Z -> option string.

(** *** JwtService *)

(** [jwtService.sign(payload, { secret, expiresIn })]. *)
Definition jwtSign (payload : list (string * string)) (secret expiresIn : string)
  : M Token :=
  t ← gets now;
  if bool_decide (secret = "")
  then throw (JsonWebTokenError "secretOrPrivateKey must have a value")
  else
    match ms expiresIn with
    | None => throw (JsonWebTokenError "expiresIn should be a number of seconds or string representing a timespan")
    | Some span =>
        let issued := t / 1000 in
        mret (Signed (mkJwt payload issued (Some (issued + span / 1000)) secret))
    end.

(** [jwtService.verify(token, { secret })]: well-formedness, signature,
    expiry; returns the payload. *)
Definition jwtVerify (token : Token) (secret : string) : M (list (string * string)) :=
  t ← gets now;
  match token with
  | Malformed _ => throw (JsonWebTokenError "jwt malformed")
  | Signed j =>
      if bool_decide (secret = "")
      then throw (JsonWebTokenError "secret or public key must be provided")
      else if bool_decide (sealedWith j ≠ secret)
      then throw (JsonWebTokenError "invalid signature")
      else
        match exp j with
        | Some e =>
            if bool_decide (e <= t / 1000)
            then throw (JsonWebTokenError "jwt expired")
            else mret (claims j)
        | None => mret (claims j)
        end
  end.

(** *** TokenService *)

Definition generateAccessToken (user : User.t) : M Token :=
  let payload := [("sub", User.id user); ("email", User.email user); ("type", "access")] in
  secret ← ConfigService.getOrThrow "JWT_ACCESS_SECRET";
  expiry ← ConfigService.get "JWT_ACCESS_EXPIRY";
  jwtSign payload secret (JS.orElse expiry "15m").

Definition generateRefreshToken (userId : string) : M Issued.t :=
  tryCatch
    (tokenId ← freshId;
     raw ← ConfigService.getOr "JWT_REFRESH_EXPIRY" "30d";
     let expiryDays := JS.parseInt (JS.removeFirst "d" raw) in
     t ← gets now;
     tz ← gets localTZA;
     let expiresAt := d ← expiryDays; JS.plusLocal tz t (d * JS.msPerDay) in
     let payload := [("sub", userId); ("tokenId", tokenId); ("type", "refresh")] in
     secret ← ConfigService.getOrThrow "JWT_REFRESH_SECRET";
     expiry ← ConfigService.get "JWT_REFRESH_EXPIRY";
     token ← jwtSign payload secret (JS.orElse expiry "30d");
     match expiresAt with
     | None => throw (PrismaClientError "Invalid Date")
     | Some expiresAt =>
         Prisma.refreshToken.create tokenId token userId expiresAt;;
         mret (Issued.mk token expiresAt tokenId)
     end)
    (λ error, throw (InternalServerErrorException "Failed to generate refresh token")).

Definition generateSignupToken (attemptId email currentStep : string) : M Token :=
  let payload := [("attemptId", attemptId); ("email", email); ("type", "signup");
                  ("currentStep", currentStep)] in
  secret ← ConfigService.getOrThrow "JWT_SIGNUP_SECRET";
  expiry ← ConfigService.get "JWT_SIGNUP_EXPIRY";
  jwtSign payload secret (JS.orElse expiry "2h").

Definition verifyAccessToken (token : Token) : M (list (string * string)) :=
  tryCatch
    (secret ← ConfigService.getOrThrow "JWT_ACCESS_SECRET";
     payload ← jwtVerify token secret;
     if bool_decide (JS.prop "type" payload ≠ Some "access")
     then throw (UnauthorizedException "Invalid token type")
     else mret payload)
    (λ error, throw (UnauthorizedException "Invalid or expired access token")).

Definition verifyRefreshToken (token : Token) : M (list (string * string)) :=
  tryCatch
    (secret ← ConfigService.getOrThrow "JWT_REFRESH_SECRET";
     payload ← jwtVerify token secret;
     if bool_decide (JS.prop "type" payload ≠ Some "refresh")
     then throw (UnauthorizedException "Invalid token type")
     else mret payload)
    (λ error, throw (UnauthorizedException "Invalid or expired refresh token")).

Definition verifySignupToken (token : Token) : M (list (string * string)) :=
  tryCatch
    (secret ← ConfigService.getOrThrow "JWT_SIGNUP_SECRET";
     payload ← jwtVerify token secret;
     if bool_decide (JS.prop "type" payload ≠ Some "signup")
     then throw (UnauthorizedException "Invalid token type")
     else mret payload)
    (λ error, throw (UnauthorizedException "Invalid or expired signup token")).

(** [daysSinceCreation >= rotationDays], with the quotient as an exact
    rational: the division of doubles is monotone and exact at the multiples
    of a day, so the two comparisons agree for ages below 2^53 ms and
    thresholds below 2^27 days. A comparison with [NaN] is false. *)
Definition shouldRotateRefreshToken (tokenId : string) : M bool :=
  refreshToken ← Prisma.refreshToken.findUnique tokenId;
  match refreshToken with
  | None => mret false
  | Some refreshToken =>
      raw ← ConfigService.getOr "REFRESH_TOKEN_ROTATION_DAYS" "7";
      let rotationDays := JS.parseInt raw in
      t ← gets now;
      let daysSinceCreation : Q :=
        Qmake (t - RefreshToken.createdAt refreshToken) (Z.to_pos JS.msPerDay) in
      mret (match rotationDays with
            | Some d => Qle_bool (inject_Z d) daysSinceCreation
            | None => false
            end)
  end.

Definition rotateRefreshToken (oldTokenId userId : string) : M (Token * Z) :=
  tryCatch
    (Prisma.refreshToken.update oldTokenId true;;
     issued ← generateRefreshToken userId;
     mret (Issued.token issued, Issued.expiresAt issued))
    (λ error, throw (InternalServerErrorException "Failed to rotate refresh token")).

Definition revokeRefreshToken (tokenId : string) : M unit :=
  tryCatch
    (Prisma.refreshToken.update tokenId true;; mret ())
    (λ error, mret ()).

(** [where: { userId, revoked: false }]. *)
Definition notRevokedOf (userId : string) (r : RefreshToken.t) : bool :=
  bool_decide (RefreshToken.userId r = userId)
  && bool_decide (RefreshToken.revoked r = false).

Definition revokeAllUserRefreshTokens (userId : string) : M unit :=
  tryCatch
    (Prisma.refreshToken.updateMany (notRevokedOf userId) true;;
     mret ())
    (λ error, mret ()).

(** [None] is [NaN]: the product of a [NaN] count with the unit. The
    products are taken one factor at a time, from the left, each rounded to a
    double. *)
Definition getAccessTokenExpiryInSeconds : M (option JS.double) :=
  expiry ← ConfigService.getOr "JWT_ACCESS_EXPIRY" "15m";
  let value := JS.toNumber (JS.parseInt (JS.sliceInit expiry)) in
  let unit := JS.sliceLast expiry in
  mret (if bool_decide (unit = "s") then value
        else if bool_decide (unit = "m") then JS.times value 60
        else if bool_decide (unit = "h") then JS.times (JS.times value 60) 60
        else if bool_decide (unit = "d")
        then JS.times (JS.times (JS.times value 24) 60) 60
        else Some (JS.Finite 900)).

(** *** SignupAttemptService *)

Definition checkUserExists (email : string) : M bool :=
  user ← Prisma.user.findUnique (JS.toLowerCase email);
  mret (bool_decide (is_Some user)).

Definition findInProgressAttempt (email : string) : M (option SignupAttempt.t) :=
  tryCatch
    (t ← gets now;
     Prisma.signupAttempt.findFirst
       (λ a, bool_decide (SignupAttempt.email a = JS.toLowerCase email)
             && bool_decide (SignupAttempt.status a = IN_PROGRESS)
             && bool_decide (t < SignupAttempt.expiresAt a)))
    (λ error, mret None).

Definition bcryptHash (password : string) (saltRounds : option Z) : M string :=
  match bcrypt_hash password saltRounds with
  | Some h => mret h
  | None => throw (TypeError "bcrypt: invalid arguments")
  end.

Definition createSignupAttempt (email firstName lastName password : string)
  : M SignupAttempt.t :=
  tryCatch
    (userExists ← checkUserExists email;
     if (userExists : bool)
     then throw (ConflictException "An account with this email already exists")
     else
       raw ← ConfigService.getOr "BCRYPT_SALT_ROUNDS" "10";
       let saltRounds := JS.parseInt raw in
       passwordHash ← bcryptHash password saltRounds;
       t ← gets now;
       tz ← gets localTZA;
       match JS.plusLocal tz t (2 * JS.msPerHour) with
       | None => throw (PrismaClientError "Invalid Date")
       | Some expiresAt =>
           Prisma.signupAttempt.create (JS.toLowerCase email) firstName lastName
             passwordHash "email_verification" IN_PROGRESS expiresAt
       end)
    (λ error,
       match error with
       | ConflictException _ => throw error
       | _ => throw (InternalServerErrorException "Failed to create signup attempt")
       end).

Definition resumeSignupAttempt (existingAttempt : SignupAttempt.t) : M SignupAttempt.t :=
  tryCatch
    (t ← gets now;
     Prisma.signupAttempt.update (SignupAttempt.id existingAttempt)
       (SignupAttempt.mkPatch None None None
          (Some (SignupAttempt.attemptCount existingAttempt + 1)) (Some t) None))
    (λ error, throw (InternalServerErrorException "Failed to resume signup attempt")).

Definition updateSignupStep (attemptId newStep : string) (completedStep : option string)
  : M SignupAttempt.t :=
  tryCatch
    (t ← gets now;
     let updateData := SignupAttempt.mkPatch (Some newStep) None None None (Some t) None in
     updateData ←
       match completedStep with
       | Some completedStep =>
           if JS.truthy completedStep
           then
             attempt ← Prisma.signupAttempt.findUnique attemptId;
             match attempt with
             | Some attempt =>
                 if bool_decide (completedStep ∉ SignupAttempt.completedSteps attempt)
                 then mret (SignupAttempt.mkPatch (Some newStep)
                              (Some (SignupAttempt.completedSteps attempt ++ [completedStep]))
                              None None (Some t) None)
                 else mret updateData
             | None => mret updateData
             end
           else mret updateData
       | None => mret updateData
       end;
     Prisma.signupAttempt.update attemptId updateData)
    (λ error, throw (InternalServerErrorException "Failed to update signup step")).

Definition completeSignupAttempt (attemptId : string) : M unit :=
  tryCatch
    (t ← gets now;
     Prisma.signupAttempt.update attemptId
       (SignupAttempt.mkPatch None None (Some COMPLETED) None None (Some t));;
     mret ())
    (λ error, throw (InternalServerErrorException "Failed to complete signup attempt")).

(** The [where] of the sweep: still IN_PROGRESS and past its expiry. *)
Definition expiredInProgress (t : Z) (a : SignupAttempt.t) : bool :=
  bool_decide (SignupAttempt.status a = IN_PROGRESS)
  && bool_decide (SignupAttempt.expiresAt a < t).

Definition markExpiredAttempts : M Z :=
  tryCatch
    (t ← gets now;
     Prisma.signupAttempt.updateMany (expiredInProgress t)
       (SignupAttempt.mkPatch None None (Some EXPIRED) None None None))
    (λ error, mret 0).

Definition getSignupAttempt (attemptId : string) : M (option SignupAttempt.t) :=
  tryCatch (Prisma.signupAttempt.findUnique attemptId) (λ error, mret None).

(** *** AuthService *)

Definition refreshApplication (refreshToken : option Token) : M RefreshResponseDto :=
  match refreshToken with
  | None | Some (Malformed "") => mret (RefreshFailure "No session found" "/login")
  | Some refreshToken =>
      tryCatch
        (payload ← verifyRefreshToken refreshToken;
         match JS.prop "tokenId" payload with
         | None => throw (PrismaClientError "Argument id is missing")
         | Some tokenId =>
             tokenRecord ← Prisma.refreshToken.findUniqueWithUser tokenId;
             match tokenRecord with
             | None => mret (RefreshFailure "Invalid session" "/login")
             | Some (tokenRecord, user) =>
                 if RefreshToken.revoked tokenRecord
                 then mret (RefreshFailure "Session has been revoked" "/login")
                 else
                   t ← gets now;
                   if bool_decide (RefreshToken.expiresAt tokenRecord < t)
                   then mret (RefreshFailure "Session has expired" "/login")
                   else
                     match user with
                     | None => throw (TypeError "Cannot read properties of null")
                     | Some user =>
                         if bool_decide (User.status user ≠ ACTIVE)
                         then mret (RefreshFailure "User account is not active" "/login")
                         else
                           accessToken ← generateAccessToken user;
                           expiresIn ← getAccessTokenExpiryInSeconds;
                           shouldRotate ← shouldRotateRefreshToken tokenId;
                           newRefreshToken ←
                             (if shouldRotate : bool
                              then rotated ← rotateRefreshToken tokenId (User.id user);
                                   mret (Some (fst rotated))
                              else mret None);
                           let userData :=
                             UserDataDto.mk (User.id user) (User.email user)
                               (User.firstName user) (User.lastName user)
                               (User.emailVerified user) (User.status user) in
                           mret (RefreshSuccess accessToken userData expiresIn newRefreshToken)
                     end
             end
         end)
        (λ error,
           match error with
           | UnauthorizedException message => mret (RefreshFailure message "/login")
           | _ => mret (RefreshFailure "An error occurred" "/login")
           end)
  end.

Definition signup (email firstName lastName password : string) : M SignupResponseDto :=
  tryCatch
    (userExists ← checkUserExists email;
     if (userExists : bool)
     then mret (SignupFailure "An account with this email already exists" 409)
     else
       existingAttempt ← findInProgressAttempt email;
       match existingAttempt with
       | Some existingAttempt =>
           resumedAttempt ← resumeSignupAttempt existingAttempt;
           signupToken ← generateSignupToken (SignupAttempt.id resumedAttempt)
                           (SignupAttempt.email resumedAttempt)
                           (SignupAttempt.currentStep resumedAttempt);
           mret (SignupSuccess signupToken (SignupAttempt.currentStep resumedAttempt)
                   (SignupAttempt.id resumedAttempt) (Some true)
                   (Some (SignupAttempt.completedSteps resumedAttempt)))
       | None =>
           attempt ← createSignupAttempt email firstName lastName password;
           signupToken ← generateSignupToken (SignupAttempt.id attempt)
                           (SignupAttempt.email attempt)
                           (SignupAttempt.currentStep attempt);
           mret (SignupSuccess signupToken (SignupAttempt.currentStep attempt)
                   (SignupAttempt.id attempt) None None)
       end)
    (λ error,
       match error with
       | ConflictException message => mret (SignupFailure message 409)
       | _ => mret (SignupFailure "An error occurred during signup" 500)
       end).

(** *** The signup-attempt state machine

    One step is a call of one of the five operations on attempts, or a
    move of the environment that leaves the table of attempts alone (time
    passing, an outage starting or ending, any flow on users and tokens). *)
Inductive step : World → World → Prop :=
| step_create email firstName lastName password w :
    step w (snd (createSignupAttempt email firstName lastName password w))
| step_resume existingAttempt w :
    step w (snd (resumeSignupAttempt existingAttempt w))
| step_advanceStep attemptId newStep completedStep w :
    step w (snd (updateSignupStep attemptId newStep completedStep w))
| step_complete attemptId w :
    step w (snd (completeSignupAttempt attemptId w))
| step_sweepExpired w :
    step w (snd (markExpiredAttempts w))
| step_environment w w' :
    signupAttempts (db w') = signupAttempts (db w) → step w w'.

(** The states observed from a table of attempts that starts empty. *)
Inductive reachable : World → Prop :=
| reachable_initial w : signupAttempts (db w) = [] → reachable w
| reachable_step w w' : reachable w → step w w' → reachable w'.

End Services.

(** ** The boundary: guards and controller *)

Module JSString.

(** [s.startsWith(p)]. *)
Definition startsWith (p s : string) : bool := String.prefix p s.

(** [s.substring(n)]: [s] without its first [n] characters. *)
Fixpoint substringFrom (n : nat) (s : string) : string :=
  match n, s with
  | O, _ => s
  | S n', String _ rest => substringFrom n' rest
  | S _, EmptyString => EmptyString
  end.

End JSString.

(** What the guards and the controller read of a request, and what the
    guards attach to it: the [Authorization] header, the token of the
    [session] cookie, and the entities resolved for the handlers. *)
Module Request.
Record t := mk {
  authorization : option string;
  session : option Token;
  user : option User.t;
  signupAttempt : option SignupAttempt.t;
  signupToken : option (list (string * string));
}.

Definition setUser (u : User.t) (r : t) : t :=
  mk (authorization r) (session r) (Some u) (signupAttempt r) (signupToken r).

Definition setSignup (a : SignupAttempt.t) (payload : list (string * string)) (r : t) : t :=
  mk (authorization r) (session r) (user r) (Some a) (Some payload).
End Request.

(** The cookie that [reply.setCookie(name, value, options)] sets. [maxAge]
    is the option as the handler passes it; the cookie plugin writes it as
    the [Max-Age] attribute of the header, which counts seconds. *)
Module Cookie.
Record t := mk {
  name : string;
  value : Token;
  httpOnly : bool;
  secure : bool;
  sameSite : string;
  maxAge : Z;
  path : string;
}.

(** How long the header asks the browser to keep the cookie, in
    milliseconds. *)
Definition lifetime (c : t) : Z := maxAge c * 1000.
End Cookie.

(** [res.status(..).send(..)], with the cookie set on the way. *)
Module Reply.
Record t (Body : Type) := mk {
  status : Z;
  body : Body;
  setCookie : option Cookie.t;
}.
Arguments mk {Body} status body setCookie.
Arguments status {Body} _.
Arguments body {Body} _.
Arguments setCookie {Body} _.
End Reply.

Module JwtAuthGuard.
Section WithCodec.

(** The token that the text after [Bearer ] denotes. *)
Variable tokenOfString : string → Token.

(** [prisma.user.findUnique({ where: { id } })]; an [undefined] id is refused
    by the client. *)
Definition findUser (id : option string) : M (option User.t) :=
  match id with
  | None => throw (PrismaClientError "Argument id is missing")
  | Some id =>
      Prisma.roundTrip;;
      rows ← gets (users ∘ db);
      mret (List.find (λ u, bool_decide (User.id u = id)) rows)
  end.

Definition canActivate (request : Request.t) : M (bool * Request.t) :=
  match Request.authorization request with
  | None => throw (UnauthorizedException "Access token required")
  | Some authHeader =>
      if negb (JS.truthy authHeader) || negb (JSString.startsWith "Bearer " authHeader)
      then throw (UnauthorizedException "Access token required")
      else
        let token := tokenOfString (JSString.substringFrom 7 authHeader) in
        tryCatch
          (payload ← verifyAccessToken token;
           user ← findUser (JS.prop "sub" payload);
           match user with
           | None => throw (UnauthorizedException "User not found")
           | Some user =>
               if bool_decide (User.status user ≠ ACTIVE)
               then throw (UnauthorizedException "User account is not active")
               else mret (true, Request.setUser user request)
           end)
          (λ error,
             match error with
             | UnauthorizedException _ => throw error
             | _ => throw (UnauthorizedException "Invalid access token")
             end)
  end.

End WithCodec.
End JwtAuthGuard.

Module SignupJwtGuard.
Section WithCodec.

Variable tokenOfString : string → Token.

(** [getSignupAttempt(payload.attemptId)]; an [undefined] id is refused by
    the client inside the service's own [try], which answers [null]. *)
Definition fetchAttempt (attemptId : option string) : M (option SignupAttempt.t) :=
  match attemptId with
  | None => mret None
  | Some attemptId => getSignupAttempt attemptId
  end.

Definition canActivate (request : Request.t) : M (bool * Request.t) :=
  match Request.authorization request with
  | None => throw (UnauthorizedException "Signup token required")
  | Some authHeader =>
      if negb (JS.truthy authHeader) || negb (JSString.startsWith "Bearer " authHeader)
      then throw (UnauthorizedException "Signup token required")
      else
        let token := tokenOfString (JSString.substringFrom 7 authHeader) in
        tryCatch
          (payload ← verifySignupToken token;
           attempt ← fetchAttempt (JS.prop "attemptId" payload);
           match attempt with
           | None => throw (UnauthorizedException "Signup attempt not found")
           | Some attempt =>
               if bool_decide (SignupAttempt.status attempt ≠ IN_PROGRESS)
               then throw (UnauthorizedException "Signup attempt is not in progress")
               else
                 t ← gets now;
                 if bool_decide (SignupAttempt.expiresAt attempt < t)
                 then throw (UnauthorizedException "Signup attempt has expired")
                 else mret (true, Request.setSignup attempt payload request)
           end)
          (λ error,
             match error with
             | UnauthorizedException _ => throw error
             | _ => throw (UnauthorizedException "Invalid signup token")
             end)
  end.

End WithCodec.
End SignupJwtGuard.

Module AuthController.
Section WithLibraries.

Variable ms : string → option Z.
Variable bcrypt_hash : string → option Z → option string.

(** The [session] cookie of a rotated token; [secure] in production only. *)
Definition sessionCookie (newRefreshToken : Token) (production : bool) : Cookie.t :=
  Cookie.mk "session" newRefreshToken true production "lax"
    (30 * 24 * 60 * 60 * 1000) "/".

(** [GET /auth/refresh-application]. *)
Definition refreshApplication (req : Request.t) : M (Reply.t RefreshResponseDto) :=
  let refreshToken := Request.session req in
  result ← refreshApplication ms refreshToken;
  match result with
  | RefreshFailure _ _ => mret (Reply.mk 401 result None)
  | RefreshSuccess accessToken user expiresIn newRefreshToken =>
      match newRefreshToken with
      | None | Some (Malformed "") => mret (Reply.mk 200 result None)
      | Some newRefreshToken =>
          nodeEnv ← gets (λ w, config w !! "NODE_ENV");
          mret (Reply.mk 200 (RefreshSuccess accessToken user expiresIn None)
                  (Some (sessionCookie newRefreshToken
                           (bool_decide (nodeEnv = Some "production")))))
      end
  end.

(** [POST /auth/signup], on a body that passed the validation pipe. *)
Definition signup (email firstName lastName password : string)
  : M (Reply.t SignupResponseDto) :=
  result ← signup ms bcrypt_hash email firstName lastName password;
  match result with
  | SignupFailure _ statusCode =>
      mret (Reply.mk (if bool_decide (statusCode = 0) then 400 else statusCode) result None)
  | SignupSuccess _ _ _ _ _ => mret (Reply.mk 200 result None)
  end.

End WithLibraries.
End AuthController.

(** ** Vocabulary of the properties *)

(** The rows of [signup_attempts] that hold a given (email, status). *)
Definition attemptsWith (email : string) (status : AttemptStatus) (d : Db)
  : list SignupAttempt.t :=
  List.filter (λ a, bool_decide (SignupAttempt.key a = (email, status))) (signupAttempts d).

(** What the primary key and [signup_attempts_email_status_key] maintain. *)
Definition rowsIndexed (rows : list SignupAttempt.t) : Prop :=
  NoDup (SignupAttempt.id <$> rows) ∧ NoDup (SignupAttempt.key <$> rows).

Definition indexed (d : Db) : Prop := rowsIndexed (signupAttempts d).

(** A computation keeps a property of the tables: in every run, returning
    or throwing, the tables it leaves have the property when the tables it
    found had it. *)
Definition preserves {A} (I : Db → Prop) (m : M A) : Prop :=
  ∀ w o w', m w = (o, w') → I (db w) → I (db w').

(** The user that [checkUserExists] finds for an email. *)
Definition userOf (email : string) (d : Db) : option User.t :=
  List.find (λ u, bool_decide (User.email u = JS.toLowerCase email)) (users d).

(** Every coming round trip to the database goes through. *)
Definition databaseUp (w : World) : Prop := outages w = [].

(** The cost factor [createSignupAttempt] hands to [bcrypt.hash]. *)
Definition saltRounds (w : World) : option Z :=
  JS.parseInt (default "10" (config w !! "BCRYPT_SALT_ROUNDS")).

(** The configured rotation threshold, in days. *)
Definition rotationDays (w : World) : option Z :=
  JS.parseInt (default "7" (config w !! "REFRESH_TOKEN_ROTATION_DAYS")).

(** The [type] a token carries, and the instant (seconds) it expires. *)
Definition tokenType (token : Token) : option string :=
  match token with
  | Signed j => JS.prop "type" (claims j)
  | Malformed _ => None
  end.

Definition expiryOf (token : Token) : option Z :=
  match token with
  | Signed j => exp j
  | Malformed _ => None
  end.

(** A token is live at [t] (milliseconds) when it carries no expiry or [t]
    lies before it. *)
Definition liveAt (t : Z) (token : Token) : Prop :=
  ∀ e, expiryOf token = Some e → t / 1000 < e.

Definition returns {A} (o : Outcome A) : Prop := ∃ a, o = Return a.

(** Of two calls, exactly one returned. *)
Definition exactlyOneReturns {A B} (first : Outcome A) (second : Outcome B) : Prop :=
  (returns first ∧ ¬ returns second) ∨ (¬ returns first ∧ returns second).

(** The class of an exception, as the transport layer maps it. *)
Definition conflictClass (e : Exn) : Prop := ∃ m, e = ConflictException m.
Definition serviceUnavailableClass (e : Exn) : Prop := ∃ m, e = InternalServerErrorException m.

(** The rows of [after] whose id no row of [before] has. *)
Definition newRows (before after : list RefreshToken.t) : list RefreshToken.t :=
  List.filter (λ r, bool_decide (RefreshToken.id r ∉ RefreshToken.id <$> before)) after.

(** The table of refresh tokens once [id] is revoked. *)
Definition revokedIn (id : string) (rows : list RefreshToken.t) : list RefreshToken.t :=
  (λ r, if Prisma.refreshToken.byId id r then RefreshToken.setRevoked true r else r) <$> rows.

(** What a verifier accepts: a well-formed token sealed with the non-empty
    secret configured under [secretKey], carrying the type [kind] and live at
    the current instant; [payload] is what it carries. *)
Definition accepts (secretKey kind : string) (token : Token) (w : World)
    (payload : list (string * string)) : Prop :=
  ∃ j secret,
    token = Signed j ∧ payload = claims j
    ∧ config w !! secretKey = Some secret ∧ secret ≠ ""
    ∧ sealedWith j = secret
    ∧ tokenType token = Some kind
    ∧ liveAt (now w) token.

(** The row of a refresh token with a given id. *)
Definition sessionOf (id : string) (d : Db) : option RefreshToken.t :=
  List.find (Prisma.refreshToken.byId id) (refreshTokens d).

(** The stored attempt with a given id. *)
Definition attemptOf (id : string) (d : Db) : option SignupAttempt.t :=
  List.find (Prisma.signupAttempt.byId id) (signupAttempts d).

(** The user with a given id. *)
Definition userById (id : string) (d : Db) : option User.t :=
  List.find (λ u, bool_decide (User.id u = id)) (users d).

(** The [where] of [findInProgressAttempt]: in progress for the lower-cased
    email and not yet expired at [t]. *)
Definition resumableFor (email : string) (t : Z) (a : SignupAttempt.t) : bool :=
  bool_decide (SignupAttempt.email a = JS.toLowerCase email)
  && bool_decide (SignupAttempt.status a = IN_PROGRESS)
  && bool_decide (t < SignupAttempt.expiresAt a).

(** The summary of a user that a refresh returns. *)
Definition userDataOf (u : User.t) : UserDataDto.t :=
  UserDataDto.mk (User.id u) (User.email u) (User.firstName u) (User.lastName u)
    (User.emailVerified u) (User.status u).

(** The seconds in one unit of a configured time span. *)
Definition secondsPer (unit : ascii) : option Z :=
  if bool_decide (unit = "s"%char) then Some 1
  else if bool_decide (unit = "m"%char) then Some 60
  else if bool_decide (unit = "h"%char) then Some (60 * 60)
  else if bool_decide (unit = "d"%char) then Some (24 * 60 * 60)
  else None.

(** The factors [getAccessTokenExpiryInSeconds] multiplies the count by, in
    the order it does. *)
Definition factorsOf (unit : ascii) : list Z :=
  if bool_decide (unit = "m"%char) then [60]
  else if bool_decide (unit = "h"%char) then [60; 60]
  else if bool_decide (unit = "d"%char) then [24; 60; 60]
  else [].

(** A refresh token whose session can be refreshed in [w]: the token is
    accepted by the refresh verifier, its payload names the record
    [tokenId], the record is stored, not revoked and not expired, and its
    owner is stored and ACTIVE. *)
Definition liveSession (token : Token) (w : World) (tokenId : string)
    (record : RefreshToken.t) (owner : User.t) : Prop :=
  ∃ payload,
    accepts "JWT_REFRESH_SECRET" "refresh" token w payload
    ∧ JS.prop "tokenId" payload = Some tokenId
    ∧ sessionOf tokenId (db w) = Some record
    ∧ RefreshToken.revoked record = false
    ∧ now w <= RefreshToken.expiresAt record
    ∧ userById (RefreshToken.userId record) (db w) = Some owner
    ∧ User.status owner = ACTIVE.

(** The age of a record has reached the configured rotation threshold. *)
Definition rotationDue (w : World) (record : RefreshToken.t) : Prop :=
  ∃ d, rotationDays w = Some d
       ∧ d * JS.msPerDay <= now w - RefreshToken.createdAt record.

(** The session that a token names in its payload. *)
Definition namedSession (token : Token) : option string :=
  match token with
  | Signed j => JS.prop "tokenId" (claims j)
  | Malformed _ => None
  end.

(** A refresh that was refused: the failure response, redirecting to the
    login page. *)
Definition refused (o : Outcome RefreshResponseDto) : Prop :=
  ∃ message, o = Return (RefreshFailure message "/login").

(** The completed steps of an attempt once [completedStep] is recorded:
    appended when given, not empty and not yet listed. *)
Definition stepsAfter (completedStep : option string) (steps : list string) : list string :=
  match completedStep with
  | Some step =>
      if JS.truthy step && bool_decide (step ∉ steps) then steps ++ [step] else steps
  | None => steps
  end.

(** The session [id] is closed: its record is stored and revoked. *)
Definition closed (id : string) (d : Db) : Prop :=
  ∃ r, sessionOf id d = Some r ∧ RefreshToken.revoked r = true.

(** A computation leaves the clock and the configuration alone. *)
Definition keepsEnv {A} (m : M A) : Prop :=
  ∀ w o w', m w = (o, w') → now w' = now w ∧ config w' = config w.

(** One move of the deployment: a call of any operation of the services,
    or a move of the environment that leaves the tables alone. *)
Inductive moves (ms : string → option Z) (bcrypt_hash : string → option Z → option string)
  : World → World → Prop :=
| moves_issue userId w :
    moves ms bcrypt_hash w (snd (generateRefreshToken ms userId w))
| moves_rotate oldTokenId userId w :
    moves ms bcrypt_hash w (snd (rotateRefreshToken ms oldTokenId userId w))
| moves_revoke tokenId w :
    moves ms bcrypt_hash w (snd (revokeRefreshToken tokenId w))
| moves_revokeAll userId w :
    moves ms bcrypt_hash w (snd (revokeAllUserRefreshTokens userId w))
| moves_refresh refreshToken w :
    moves ms bcrypt_hash w (snd (refreshApplication ms refreshToken w))
| moves_signup email firstName lastName password w :
    moves ms bcrypt_hash w
      (snd (signup ms bcrypt_hash email firstName lastName password w))
| moves_create email firstName lastName password w :
    moves ms bcrypt_hash w
      (snd (createSignupAttempt bcrypt_hash email firstName lastName password w))
| moves_resume existingAttempt w :
    moves ms bcrypt_hash w (snd (resumeSignupAttempt existingAttempt w))
| moves_step attemptId newStep completedStep w :
    moves ms bcrypt_hash w (snd (updateSignupStep attemptId newStep completedStep w))
| moves_complete attemptId w :
    moves ms bcrypt_hash w (snd (completeSignupAttempt attemptId w))
| moves_sweep w :
    moves ms bcrypt_hash w (snd (markExpiredAttempts w))
| moves_env w w' :
    db w' = db w → moves ms bcrypt_hash w w'.

(** ** Sample data: one deployment and a few of its states *)

Module Sample.

(** A parser of time spans for the spans the deployment configures: a
    count followed by [s], [m], [h] or [d]. *)
Definition ms (span : string) : option Z :=
  match JS.parseInt (JS.sliceInit span) with
  | Some v =>
      let unit := JS.sliceLast span in
      if bool_decide (unit = "s") then Some (v * 1000)
      else if bool_decide (unit = "m") then Some (v * 60 * 1000)
      else if bool_decide (unit = "h") then Some (v * 60 * 60 * 1000)
      else if bool_decide (unit = "d") then Some (v * 24 * 60 * 60 * 1000)
      else None
  | None => None
  end.

(** A stand-in for [bcrypt.hash] that accepts any cost factor. *)
Definition bcrypt_hash (password : string) (saltRounds : option Z) : option string :=
  match saltRounds with
  | Some _ => Some ("$2b$" +:+ password)
  | None => None
  end.

Definition env : gmap string string :=
  <["JWT_ACCESS_SECRET" := "access-secret"]>
    (<["JWT_REFRESH_SECRET" := "refresh-secret"]>
       (<["JWT_SIGNUP_SECRET" := "signup-secret"]> ∅)).

Definition uuid (n : nat) : string := "uuid-" +:+ pretty n.

Definition hour : Z := 3600000.
Definition day : Z := 86400000.

Definition ada : User.t :=
  User.mk "u-ada" "ada@example.com" "Ada" "Lovelace" "$2b$ada" true ACTIVE 0 0.
Definition bob : User.t :=
  User.mk "u-bob" "bob@example.com" "Bob" "Hope" "$2b$bob" true SUSPENDED 0 0.

(** A refresh token of [user], issued at instant 0 for thirty days. *)
Definition tokenOf (id user : string) : Token :=
  Signed (mkJwt [("sub", user); ("tokenId", id); ("type", "refresh")] 0
            (Some 2592000) "refresh-secret").
Definition sessionOf (id user : string) : RefreshToken.t :=
  RefreshToken.mk id (tokenOf id user) user false (30 * day) 0.

(** An attempt of [email] with status [status], created at [born] and last
    written at [touched]. *)
Definition attemptOf (id email : string) (status : AttemptStatus) (born touched : Z)
  : SignupAttempt.t :=
  SignupAttempt.mk id email (Some "Cy") (Some "Young") (Some "$2b$cy") false false false
    "email_verification" [] status 1 born touched (born + 2 * hour)
    (match status with COMPLETED => Some touched | _ => None end).

(** The deployment with tables [d] at instant [t], [n] identifiers drawn
    so far, and the outages [o] ahead, on a host that keeps UTC. *)
Definition worldAfter (n : nat) (d : Db) (t : Z) (o : list bool) : World :=
  mkWorld d t env uuid n o (λ _ _, 0).

(** The same once uuid-0 and uuid-1 are taken. *)
Definition world : Db → Z → list bool → World := worldAfter 2.

(** A zone one hour ahead of UTC that moves its clocks forward by an hour
    at instant [transition], and back at [transition + 200 * day]. The
    local times the move forward skips, and the hour the move back
    repeats, are read at the offset before the change. *)
Definition transition : Z := 100 * day.

Definition clocksChange (t : Z) (isUTC : bool) : Z :=
  let forward := if isUTC then transition else transition + 2 * hour in
  let back := if isUTC then transition + 200 * day else transition + 200 * day + 2 * hour in
  if bool_decide (forward <= t < back) then 2 * hour else hour.

(** The deployment on a host in that zone. *)
Definition worldIn (tz : Z → bool → Z) (d : Db) (t : Z) : World :=
  mkWorld d t env uuid 2 [] tz.

(** Two users, one session each (issued at instant 0), no attempt. *)
Definition sessions : Db :=
  mkDb [ada; bob] [sessionOf "t-ada" "u-ada"; sessionOf "t-bob" "u-bob"] [].

(** One attempt in progress for cy@example.com. *)
Definition oneLive : Db :=
  mkDb [ada] [] [attemptOf "uuid-0" "cy@example.com" IN_PROGRESS 0 0].

(** An attempt that was swept after three hours, and a later one for the
    same email that is still IN_PROGRESS. *)
Definition sweptAndStale : Db :=
  mkDb [] [] [attemptOf "uuid-0" "cy@example.com" EXPIRED 0 (3 * hour);
              attemptOf "uuid-1" "cy@example.com" IN_PROGRESS (3 * hour) (3 * hour)].

(** A completed attempt, and a later one for the same email in progress. *)
Definition completedAndLive : Db :=
  mkDb [] [] [attemptOf "uuid-0" "cy@example.com" COMPLETED 0 hour;
              attemptOf "uuid-1" "cy@example.com" IN_PROGRESS (3 * hour) (3 * hour)].

End Sample.

(** ** Sample requests and tokens *)

Module Scenario.

(** Ada's refresh token, one day and eight days after its issue. *)
Definition token : Token := Sample.tokenOf "t-ada" "u-ada".
Definition record : RefreshToken.t := Sample.sessionOf "t-ada" "u-ada".
Definition young : World := Sample.world Sample.sessions Sample.day [].
Definition due : World := Sample.world Sample.sessions (8 * Sample.day) [].

(** The access token issued for Ada at instant [t] (milliseconds). *)
Definition accessAt (t : Z) : Token :=
  Signed (mkJwt [("sub", "u-ada"); ("email", "ada@example.com"); ("type", "access")]
            (t / 1000) (Some (t / 1000 + 900)) "access-secret").

(** The refresh token that succeeds Ada's on the eighth day. *)
Definition successor : Token :=
  Signed (mkJwt [("sub", "u-ada"); ("tokenId", "uuid-2"); ("type", "refresh")]
            691200 (Some 3283200) "refresh-secret").

(** Cy's attempt and the signup token issued for it at instant 0. *)
Definition attempt : SignupAttempt.t :=
  Sample.attemptOf "uuid-0" "cy@example.com" IN_PROGRESS 0 0.
Definition signupToken : Token :=
  Signed (mkJwt [("attemptId", "uuid-0"); ("email", "cy@example.com");
                 ("type", "signup"); ("currentStep", "email_verification")]
            0 (Some 7200) "signup-secret").

(** A decoder of bearer tokens that knows two of them. *)
Definition tokenOfString (s : string) : Token :=
  if bool_decide (s = "ada.access") then accessAt 0
  else if bool_decide (s = "cy.signup") then signupToken
  else Malformed s.

Definition bearer (s : string) : Request.t :=
  Request.mk (Some ("Bearer " +:+ s)) None None None None.

End Scenario.

(** ** Properties *)

Section Properties.

Variable ms : string → option Z.
Variable bcrypt_hash : string → option Z → option string.

Ltac unfoldM :=
  unfold mbind, M_bind, mret, M_ret, throw, tryCatch, gets, modifyDb in *.

(** Case analysis on every test and match of a run. *)
Ltac cases :=
  repeat first [case_bool_decide | case_match]; simplify_eq/=; try done.

(** *** The store *)

Lemma run_fst {A} (m : M A) w o : fst (m w) = o → m w = (o, snd (m w)).
Proof. intros <-. by destruct (m w). Qed.

Lemma roundTrip_up w : databaseUp w → Prisma.roundTrip w = (Return (), w).
Proof. unfold databaseUp, Prisma.roundTrip. by intros ->. Qed.

(** A round trip touches nothing but the schedule of outages. *)
Lemma roundTrip_inv w o w' :
  Prisma.roundTrip w = (o, w') →
  db w' = db w ∧ now w' = now w ∧ config w' = config w
  ∧ randomUUID w' = randomUUID w ∧ drawn w' = drawn w
  ∧ (o = Return () ∨ o = Throw Prisma.P1001).
Proof.
  unfold Prisma.roundTrip. intros H.
  destruct (outages w) as [|[] rest]; simplify_eq; simpl; auto 10.
Qed.

Lemma roundTrip_localTZA w : localTZA (snd (Prisma.roundTrip w)) = localTZA w.
Proof. unfold Prisma.roundTrip. by destruct (outages w) as [|[] rest]. Qed.

(** *** shouldRotateRefreshToken *)

Lemma daysSinceCreation_ge (d age : Z) :
  Qle_bool (inject_Z d) (Qmake age (Z.to_pos JS.msPerDay)) = true
  ↔ d * JS.msPerDay <= age.
Proof.
  change (Z.to_pos JS.msPerDay) with 86400000%positive.
  change JS.msPerDay with 86400000.
  unfold Qle_bool, inject_Z. cbn [Qnum Qden]. rewrite Z.leb_le. lia.
Qed.

(** The run of [shouldRotateRefreshToken] with the database up. *)
Lemma shouldRotateRefreshToken_run (tokenId : string) (w : World) :
  databaseUp w →
  ∃ b, shouldRotateRefreshToken tokenId w = (Return b, w)
    ∧ (b = true ↔
         ∃ r d, List.find (Prisma.refreshToken.byId tokenId) (refreshTokens (db w)) = Some r
                ∧ rotationDays w = Some d
                ∧ d * JS.msPerDay <= now w - RefreshToken.createdAt r).
Proof.
  intros Hup.
  unfold shouldRotateRefreshToken, Prisma.refreshToken.findUnique, ConfigService.getOr.
  unfoldM. rewrite (roundTrip_up w Hup). simpl.
  destruct (List.find _ _) as [r|] eqn:Hfind.
  - unfold rotationDays. destruct (JS.parseInt _) as [d|] eqn:Hdays.
    + eexists. split; [reflexivity|].
      rewrite daysSinceCreation_ge. split.
      * intros Hage. by exists r, d.
      * by intros (r' & d' & [= <-] & [= <-] & Hage).
    + exists false. split; [reflexivity|].
      split; [done|]. by intros (r' & d' & _ & ? & _).
  - exists false. split; [reflexivity|].
    split; [done|]. by intros (r' & d' & ? & _).
Qed.

(** C5. [shouldRotateRefreshToken tokenId] returns [true] exactly when the
    record exists and its age, now − createdAt, is at least the configured
    threshold in days (an age of exactly the threshold included); when no
    record has that id it returns [false] and does not throw. *)
Theorem shouldRotate_iff_age_reaches_threshold (tokenId : string) (w : World) :
  databaseUp w →
  ∃ b, shouldRotateRefreshToken tokenId w = (Return b, w)
    ∧ (b = true ↔
         ∃ r d, List.find (Prisma.refreshToken.byId tokenId) (refreshTokens (db w)) = Some r
                ∧ rotationDays w = Some d
                ∧ d * JS.msPerDay <= now w - RefreshToken.createdAt r)
    ∧ (List.find (Prisma.refreshToken.byId tokenId) (refreshTokens (db w)) = None
       → b = false).
Proof.
  intros Hup.
  destruct (shouldRotateRefreshToken_run tokenId w Hup) as (b & Hrun & Hiff).
  exists b. split_and!; [done..|].
  intros Hnone. destruct b; [|done].
  destruct (proj1 Hiff eq_refl) as (r & d & Hfound & _). congruence.
Qed.

(** When a rotation is due under a threshold of at least one day, the clock
    stands past the creation of the record: the record that
    [refreshApplication] rotates is older than the one that replaces it. *)
Lemma rotation_due_past_creation (tokenId : string) (w : World) r d :
  databaseUp w →
  List.find (Prisma.refreshToken.byId tokenId) (refreshTokens (db w)) = Some r →
  rotationDays w = Some d → 0 < d →
  fst (shouldRotateRefreshToken tokenId w) = Return true →
  RefreshToken.createdAt r < now w.
Proof.
  intros Hup Hfound Hdays Hpositive Hdue.
  destruct (shouldRotateRefreshToken_run tokenId w Hup) as (b & Hrun & Hiff).
  rewrite Hrun in Hdue. injection Hdue as ->.
  destruct (proj1 Hiff eq_refl) as (r' & d' & Hfound' & Hdays' & Hage).
  assert (r' = r) as -> by congruence. assert (d' = d) as -> by congruence.
  change JS.msPerDay with 86400000 in Hage. lia.
Qed.

(** *** The token codec *)

(** A token issued for a signup attempt: its shape. *)
Lemma generateSignupToken_inv attemptId email currentStep w token w' :
  generateSignupToken ms attemptId email currentStep w = (Return token, w') →
  w' = w
  ∧ ∃ secret e,
      config w !! "JWT_SIGNUP_SECRET" = Some secret ∧ secret ≠ ""
      ∧ token = Signed (mkJwt [("attemptId", attemptId); ("email", email);
                               ("type", "signup"); ("currentStep", currentStep)]
                          (now w / 1000) (Some e) secret).
Proof.
  unfold generateSignupToken, jwtSign, ConfigService.getOrThrow, ConfigService.get.
  unfoldM. simpl. intros H.
  destruct (config w !! "JWT_SIGNUP_SECRET") as [secret|] eqn:Hsecret; [|done].
  case_bool_decide as Hempty; [done|].
  destruct (ms _) as [span|]; [|done].
  simplify_eq. split; [done|]. by eexists _, _.
Qed.

Lemma generateRefreshToken_type userId w issued w' :
  generateRefreshToken ms userId w = (Return issued, w') →
  tokenType (Issued.token issued) = Some "refresh".
Proof.
  unfold generateRefreshToken, jwtSign, Prisma.refreshToken.create, freshId,
    ConfigService.getOrThrow, ConfigService.get, ConfigService.getOr.
  unfoldM. simpl. intros H.
  cases.
Qed.

(** Whatever the secret and the clock, a verifier refuses a token of
    another type. *)
Lemma verifySignupToken_other_type token w :
  tokenType token ≠ Some "signup" →
  verifySignupToken token w
  = (Throw (UnauthorizedException "Invalid or expired signup token"), w).
Proof.
  unfold verifySignupToken, jwtVerify, ConfigService.getOrThrow, ConfigService.get, tokenType.
  unfoldM. simpl. intros Htype.
  cases.
Qed.

Lemma verifyRefreshToken_other_type token w :
  tokenType token ≠ Some "refresh" →
  verifyRefreshToken token w
  = (Throw (UnauthorizedException "Invalid or expired refresh token"), w).
Proof.
  unfold verifyRefreshToken, jwtVerify, ConfigService.getOrThrow, ConfigService.get, tokenType.
  unfoldM. simpl. intros Htype.
  cases.
Qed.

(** C6. A token issued by [generateSignupToken] for (attemptId, email,
    currentStep), verified by [verifySignupToken] under the same
    configuration before it expires, yields a payload with the same
    attemptId, email and currentStep. And every refresh token is refused by
    the signup verifier, every signup token by the refresh verifier, with
    the unauthorized error, whatever the secrets and the clock are; the
    tokens the two issuers produce are of these types. *)
Theorem signup_token_round_trip_and_type_separation :
  (∀ attemptId email currentStep w token w1 w2,
     generateSignupToken ms attemptId email currentStep w = (Return token, w1) →
     config w2 = config w →
     liveAt (now w2) token →
     ∃ payload,
       verifySignupToken token w2 = (Return payload, w2)
       ∧ JS.prop "attemptId" payload = Some attemptId
       ∧ JS.prop "email" payload = Some email
       ∧ JS.prop "currentStep" payload = Some currentStep)
  ∧ (∀ token w,
       tokenType token = Some "refresh" →
       verifySignupToken token w
       = (Throw (UnauthorizedException "Invalid or expired signup token"), w))
  ∧ (∀ token w,
       tokenType token = Some "signup" →
       verifyRefreshToken token w
       = (Throw (UnauthorizedException "Invalid or expired refresh token"), w))
  ∧ (∀ userId w issued w1,
       generateRefreshToken ms userId w = (Return issued, w1) →
       tokenType (Issued.token issued) = Some "refresh")
  ∧ (∀ attemptId email currentStep w token w1,
       generateSignupToken ms attemptId email currentStep w = (Return token, w1) →
       tokenType token = Some "signup").
Proof.
  split_and!.
  - intros attemptId email currentStep w token w1 w2 Hgen Hcfg Hlive.
    apply generateSignupToken_inv in Hgen as (-> & secret & e & Hsecret & Hne & ->).
    specialize (Hlive e eq_refl).
    eexists. split.
    + unfold verifySignupToken, jwtVerify, ConfigService.getOrThrow, ConfigService.get.
      unfoldM. simpl. rewrite Hcfg, Hsecret.
      rewrite bool_decide_eq_false_2 by done.
      rewrite bool_decide_eq_false_2 by (by intros []).
      rewrite bool_decide_eq_false_2 by lia.
      by rewrite bool_decide_eq_false_2 by (by intros []).
    + done.
  - intros token w Htype. apply verifySignupToken_other_type. by rewrite Htype.
  - intros token w Htype. apply verifyRefreshToken_other_type. by rewrite Htype.
  - intros userId w issued w1. apply generateRefreshToken_type.
  - intros attemptId email currentStep w token w1 Hgen.
    by apply generateSignupToken_inv in Hgen as (_ & secret & e & _ & _ & ->).
Qed.

(** Verification reads the configuration and the clock and writes nothing. *)
Lemma verifyRefreshToken_pure token w : snd (verifyRefreshToken token w) = w.
Proof.
  unfold verifyRefreshToken, jwtVerify, ConfigService.getOrThrow, ConfigService.get.
  unfoldM. simpl. cases.
Qed.

(** *** refreshApplication *)

(** C4. When the refresh token passes verification, its record is found,
    not revoked and not expired, and the user who owns it has a status
    other than ACTIVE, [refreshApplication] returns the inactive-account
    failure (so never a success), and writes nothing. *)
Theorem refresh_of_inactive_user_is_refused
    (token : Token) (w : World) (payload : list (string * string))
    (tokenId : string) (record : RefreshToken.t) (user : User.t) :
  databaseUp w →
  fst (verifyRefreshToken token w) = Return payload →
  JS.prop "tokenId" payload = Some tokenId →
  List.find (Prisma.refreshToken.byId tokenId) (refreshTokens (db w)) = Some record →
  RefreshToken.revoked record = false →
  now w <= RefreshToken.expiresAt record →
  List.find (λ u, bool_decide (User.id u = RefreshToken.userId record)) (users (db w))
    = Some user →
  User.status user ≠ ACTIVE →
  refreshApplication ms (Some token) w
  = (Return (RefreshFailure "User account is not active" "/login"), w).
Proof.
  intros Hup Hverify HtokenId Hrecord Hlive Hfresh Howner Hstatus.
  pose proof (verifyRefreshToken_pure token w) as Hpure.
  destruct (verifyRefreshToken token w) as [o w1] eqn:Hrun.
  simpl in Hverify, Hpure. subst o w1.
  destruct token as [raw|j].
  - by rewrite verifyRefreshToken_other_type in Hrun.
  - unfold refreshApplication, Prisma.refreshToken.findUniqueWithUser. unfoldM.
    rewrite Hrun, HtokenId. rewrite (roundTrip_up w Hup). simpl.
    rewrite Hrecord. simpl. rewrite Howner, Hlive. simpl.
    rewrite bool_decide_eq_false_2 by lia.
    by rewrite bool_decide_eq_true_2 by done.
Qed.

(** *** Rotation *)

Lemma refreshToken_update_inv id revoked w o w' :
  Prisma.refreshToken.update id revoked w = (o, w') →
  now w' = now w ∧ config w' = config w
  ∧ match o with
    | Return r =>
        ∃ old, List.find (Prisma.refreshToken.byId id) (refreshTokens (db w)) = Some old
               ∧ r = RefreshToken.setRevoked revoked old
               ∧ db w' = setRefreshTokens
                           ((λ r, if Prisma.refreshToken.byId id r
                                  then RefreshToken.setRevoked revoked r else r)
                              <$> refreshTokens (db w)) (db w)
    | Throw e => db w' = db w
    end.
Proof.
  unfold Prisma.refreshToken.update. unfoldM.
  destruct (Prisma.roundTrip w) as [o1 w1] eqn:Hrt.
  apply roundTrip_inv in Hrt as (Hdb & Hnow & Hcfg & _ & _ & Ho).
  destruct Ho as [-> | ->]; simpl.
  - rewrite Hdb. destruct (List.find _ _) as [old|] eqn:Hfind; intros [= <- <-]; simpl.
    + split_and!; [done..|]. exists old. by rewrite Hdb.
    + done.
  - by intros [= <- <-].
Qed.

Lemma generateRefreshToken_inv userId w o w' :
  generateRefreshToken ms userId w = (o, w') →
  now w' = now w ∧ config w' = config w
  ∧ match o with
    | Return issued =>
        (Issued.tokenId issued ∉ RefreshToken.id <$> refreshTokens (db w))
        ∧ db w' = setRefreshTokens
                    (refreshTokens (db w)
                       ++ [RefreshToken.mk (Issued.tokenId issued) (Issued.token issued)
                             userId false (Issued.expiresAt issued) (now w)])
                    (db w)
    | Throw e => db w' = db w ∧ serviceUnavailableClass e
    end.
Proof.
  unfold generateRefreshToken, jwtSign, Prisma.refreshToken.create, freshId,
    ConfigService.getOrThrow, ConfigService.get, ConfigService.getOr, serviceUnavailableClass.
  unfoldM. simpl. intros H.
  repeat first [case_bool_decide | case_match]; simplify_eq/=;
    repeat match goal with
           | Hrt : Prisma.roundTrip _ = _ |- _ =>
               apply roundTrip_inv in Hrt as (Hdb & Hnow & Hcfg & _ & _ & _);
               simpl in Hdb, Hnow, Hcfg
           end;
    try rewrite Hdb in *; try rewrite Hnow in *; eauto.
Qed.

(** A run of [rotateRefreshToken] is the revocation, then the issue from
    the state the revocation left. *)
Lemma rotateRefreshToken_inv oldTokenId userId w o w' :
  rotateRefreshToken ms oldTokenId userId w = (o, w') →
  match o with
  | Return result =>
      ∃ r w1 issued,
        Prisma.refreshToken.update oldTokenId true w = (Return r, w1)
        ∧ generateRefreshToken ms userId w1 = (Return issued, w')
        ∧ result = (Issued.token issued, Issued.expiresAt issued)
  | Throw e =>
      (∃ e1, Prisma.refreshToken.update oldTokenId true w = (Throw e1, w'))
      ∨ (∃ r w1 e1,
           Prisma.refreshToken.update oldTokenId true w = (Return r, w1)
           ∧ generateRefreshToken ms userId w1 = (Throw e1, w'))
  end.
Proof.
  unfold rotateRefreshToken. unfoldM. intros H.
  destruct (Prisma.refreshToken.update oldTokenId true w) as [[r|e1] w1] eqn:Hrevoke.
  - destruct (generateRefreshToken ms userId w1) as [[issued|e2] w2] eqn:Hissue;
      simplify_eq/=; eauto 10.
  - simplify_eq/=. eauto.
Qed.

Lemma revokedIn_ids id rows :
  RefreshToken.id <$> revokedIn id rows = RefreshToken.id <$> rows.
Proof.
  unfold revokedIn. rewrite <- list_fmap_compose. apply list_fmap_ext.
  intros _ r _. simpl. by destruct (Prisma.refreshToken.byId id r).
Qed.

Lemma revokedIn_find id rows rest old :
  List.find (Prisma.refreshToken.byId id) rows = Some old →
  List.find (Prisma.refreshToken.byId id) (revokedIn id rows ++ rest)
  = Some (RefreshToken.setRevoked true old).
Proof.
  induction rows as [|r rows IH]; [done|]. simpl.
  destruct (Prisma.refreshToken.byId id r) eqn:Hr.
  - intros [= ->]. simpl.
    by replace (Prisma.refreshToken.byId id (RefreshToken.setRevoked true old)) with true.
  - intros Hfind. rewrite Hr. by apply IH.
Qed.

Lemma filter_elem_of {A} (f : A → bool) (l : list A) x :
  x ∈ List.filter f l ↔ x ∈ l ∧ f x = true.
Proof. rewrite !list_elem_of_In. apply List.filter_In. Qed.

Lemma filter_none {A} (f : A → bool) (l : list A) :
  (∀ x, x ∈ l → f x = false) → List.filter f l = [].
Proof.
  induction l as [|x l IH]; [done|]. intros Hall. simpl.
  rewrite (Hall x) by left. apply IH. intros y Hy. apply Hall. by right.
Qed.

Lemma newRows_after_issue before revokedRows new :
  RefreshToken.id <$> revokedRows = RefreshToken.id <$> before →
  RefreshToken.id new ∉ RefreshToken.id <$> before →
  newRows before (revokedRows ++ [new]) = [new].
Proof.
  intros Hids Hnew. unfold newRows. rewrite List.filter_app. simpl.
  rewrite bool_decide_eq_true_2 by done.
  rewrite filter_none; [done|]. intros r Hr.
  rewrite bool_decide_eq_false_2; [done|].
  intros Hnot. apply Hnot. rewrite <- Hids.
  apply list_elem_of_fmap. by exists r.
Qed.

(** C1, as the code has it. When [rotateRefreshToken oldTokenId userId]
    returns: the record of [oldTokenId] is revoked; the table holds exactly
    one row that it did not hold before, which belongs to [userId], is not
    revoked and carries the token that is returned; and the new token is
    issued from the state in which the revocation is already written. The
    new row's createdAt is the instant of the call, whatever the old
    record's is: it is later than the old record's exactly when the old
    record was created before that instant, and equal to it when the
    rotation falls in the millisecond of the old record's creation. In every
    run, returning or throwing, a new row is in the table only together
    with the revocation. *)
Theorem rotate_revokes_then_issues (oldTokenId userId : string) (w : World) :
  (∀ result w' old,
     rotateRefreshToken ms oldTokenId userId w = (Return result, w') →
     List.find (Prisma.refreshToken.byId oldTokenId) (refreshTokens (db w)) = Some old →
     ∃ w1 issued new,
       Prisma.refreshToken.update oldTokenId true w
       = (Return (RefreshToken.setRevoked true old), w1)
       ∧ refreshTokens (db w1) = revokedIn oldTokenId (refreshTokens (db w))
       ∧ generateRefreshToken ms userId w1 = (Return issued, w')
       ∧ result = (Issued.token issued, Issued.expiresAt issued)
       ∧ refreshTokens (db w') = revokedIn oldTokenId (refreshTokens (db w)) ++ [new]
       ∧ List.find (Prisma.refreshToken.byId oldTokenId) (refreshTokens (db w'))
         = Some (RefreshToken.setRevoked true old)
       ∧ RefreshToken.revoked (RefreshToken.setRevoked true old) = true
       ∧ newRows (refreshTokens (db w)) (refreshTokens (db w')) = [new]
       ∧ RefreshToken.userId new = userId
       ∧ RefreshToken.revoked new = false
       ∧ RefreshToken.token new = fst result
       ∧ RefreshToken.createdAt new = now w
       ∧ (RefreshToken.createdAt old < RefreshToken.createdAt new
          ↔ RefreshToken.createdAt old < now w)
       ∧ (RefreshToken.createdAt old = now w
          → RefreshToken.createdAt new = RefreshToken.createdAt old))
  ∧ (∀ o w',
       rotateRefreshToken ms oldTokenId userId w = (o, w') →
       (refreshTokens (db w') = refreshTokens (db w) ∧ ¬ returns o)
       ∨ (refreshTokens (db w') = revokedIn oldTokenId (refreshTokens (db w))
          ∧ ¬ returns o)
       ∨ (∃ new, refreshTokens (db w')
                 = revokedIn oldTokenId (refreshTokens (db w)) ++ [new])).
Proof.
  split.
  - intros result w' old Hrun Hold.
    apply rotateRefreshToken_inv in Hrun as (r & w1 & issued & Hrevoke & Hissue & ->).
    pose proof Hrevoke as Hrev.
    apply refreshToken_update_inv in Hrev as (Hnow1 & _ & old' & Hold' & -> & Hdb1).
    rewrite Hold in Hold'. injection Hold' as <-.
    pose proof Hissue as Hiss.
    apply generateRefreshToken_inv in Hiss as (_ & _ & Hfresh & Hdb').
    rewrite Hdb1 in Hfresh, Hdb'. simpl in Hfresh, Hdb'.
    fold (revokedIn oldTokenId (refreshTokens (db w))) in Hfresh, Hdb'.
    rewrite revokedIn_ids in Hfresh.
    eexists w1, issued, _. rewrite Hdb', Hdb1. simpl.
    split_and!; try done.
    + by apply revokedIn_find.
    + apply newRows_after_issue; [apply revokedIn_ids | done].
    + simpl. by rewrite Hnow1.
    + simpl. lia.
  - intros o w' Hrun. apply rotateRefreshToken_inv in Hrun.
    destruct o as [result|e].
    + destruct Hrun as (r & w1 & issued & Hrevoke & Hissue & ->).
      apply refreshToken_update_inv in Hrevoke as (_ & _ & old & _ & _ & Hdb1).
      apply generateRefreshToken_inv in Hissue as (_ & _ & _ & Hdb').
      right; right. eexists. rewrite Hdb', Hdb1. done.
    + destruct Hrun as [(e1 & Hrevoke) | (r & w1 & e1 & Hrevoke & Hissue)].
      * apply refreshToken_update_inv in Hrevoke as (_ & _ & Hdb).
        left. rewrite Hdb. split; [done|]. by intros [? ?].
      * apply refreshToken_update_inv in Hrevoke as (_ & _ & old & _ & _ & Hdb1).
        apply generateRefreshToken_inv in Hissue as (_ & _ & Hdb' & _).
        right; left. rewrite Hdb', Hdb1. split; [done|]. by intros [? ?].
Qed.

(** *** Revocation *)

Lemma refreshToken_updateMany_inv where_ revoked w o w' :
  Prisma.refreshToken.updateMany where_ revoked w = (o, w') →
  match o with
  | Return n =>
      db w' = setRefreshTokens
                ((λ r, if where_ r then RefreshToken.setRevoked revoked r else r)
                   <$> refreshTokens (db w)) (db w)
  | Throw e => db w' = db w
  end.
Proof.
  unfold Prisma.refreshToken.updateMany. unfoldM.
  destruct (Prisma.roundTrip w) as [o1 w1] eqn:Hrt.
  apply roundTrip_inv in Hrt as (Hdb & _ & _ & _ & _ & [-> | ->]); simpl.
  - intros [= <- <-]. simpl. by rewrite Hdb.
  - by intros [= <- <-].
Qed.

Lemma revokedIn_idempotent id rows :
  revokedIn id (revokedIn id rows) = revokedIn id rows.
Proof.
  unfold revokedIn. rewrite <- list_fmap_compose. apply list_fmap_ext.
  intros _ r _. simpl. destruct (Prisma.refreshToken.byId id r) eqn:Hr; [|by rewrite Hr].
  by replace (Prisma.refreshToken.byId id (RefreshToken.setRevoked true r)) with true.
Qed.

Lemma revokeAll_rows_idempotent userId (rows : list RefreshToken.t) :
  let sweep := λ r, if notRevokedOf userId r then RefreshToken.setRevoked true r else r in
  sweep <$> (sweep <$> rows) = sweep <$> rows.
Proof.
  intros sweep. rewrite <- list_fmap_compose. apply list_fmap_ext.
  intros _ r _. unfold sweep. simpl.
  destruct (notRevokedOf userId r) eqn:Hr; [|by rewrite Hr].
  replace (notRevokedOf userId (RefreshToken.setRevoked true r)) with false; [done|].
  unfold notRevokedOf. simpl. by rewrite andb_false_r.
Qed.

(** A revocation that meets no record leaves the table as it is. *)
Lemma revokedIn_absent id rows :
  List.find (Prisma.refreshToken.byId id) rows = None → revokedIn id rows = rows.
Proof.
  intros Hnone. unfold revokedIn. rewrite <- (list_fmap_id rows) at 2.
  apply list_fmap_ext. intros i r Hr. simpl.
  rewrite (List.find_none _ _ Hnone r); [done|].
  apply list_elem_of_In, list_elem_of_lookup. eauto.
Qed.

Lemma setRefreshTokens_same d : setRefreshTokens (refreshTokens d) d = d.
Proof. by destruct d. Qed.

(** What a call of [revokeRefreshToken] leaves: the table with the record
    revoked, or the tables as they were when the write failed. *)
Lemma revokeRefreshToken_effect tokenId w :
  fst (revokeRefreshToken tokenId w) = Return ()
  ∧ (db (snd (revokeRefreshToken tokenId w))
     = setRefreshTokens (revokedIn tokenId (refreshTokens (db w))) (db w)
     ∨ db (snd (revokeRefreshToken tokenId w)) = db w)
  ∧ (fst (Prisma.roundTrip w) = Return () →
     db (snd (revokeRefreshToken tokenId w))
     = setRefreshTokens (revokedIn tokenId (refreshTokens (db w))) (db w))
  ∧ (∀ e, fst (Prisma.refreshToken.update tokenId true w) = Throw e →
          db (snd (revokeRefreshToken tokenId w)) = db w).
Proof.
  unfold revokeRefreshToken. unfoldM.
  destruct (Prisma.refreshToken.update tokenId true w) as [[r|e] w1] eqn:Hrevoke; simpl.
  - apply refreshToken_update_inv in Hrevoke as (_ & _ & old & _ & _ & ->).
    split_and!; [done|by left|done|done].
  - pose proof Hrevoke as Hinv.
    apply refreshToken_update_inv in Hinv as (_ & _ & Hdb).
    split_and!; [done|by right| |done].
    intros Hup. rewrite Hdb.
    unfold Prisma.refreshToken.update in Hrevoke. unfoldM.
    destruct (Prisma.roundTrip w) as [o1 w2] eqn:Hrt. simpl in Hup. subst o1.
    apply roundTrip_inv in Hrt as (Hdb2 & _). simpl in Hrevoke.
    rewrite Hdb2 in Hrevoke.
    destruct (List.find _ _) eqn:Hfind; [done|].
    by rewrite revokedIn_absent, setRefreshTokens_same.
Qed.

Lemma revokeAll_effect userId w :
  let sweep := λ r, if notRevokedOf userId r then RefreshToken.setRevoked true r else r in
  fst (revokeAllUserRefreshTokens userId w) = Return ()
  ∧ (db (snd (revokeAllUserRefreshTokens userId w))
     = setRefreshTokens (sweep <$> refreshTokens (db w)) (db w)
     ∨ db (snd (revokeAllUserRefreshTokens userId w)) = db w)
  ∧ (fst (Prisma.roundTrip w) = Return () →
     db (snd (revokeAllUserRefreshTokens userId w))
     = setRefreshTokens (sweep <$> refreshTokens (db w)) (db w))
  ∧ (∀ e, fst (Prisma.refreshToken.updateMany (notRevokedOf userId) true w) = Throw e →
          db (snd (revokeAllUserRefreshTokens userId w)) = db w).
Proof.
  intros sweep. unfold revokeAllUserRefreshTokens. unfoldM.
  destruct (Prisma.refreshToken.updateMany _ true w) as [[n|e] w1] eqn:Hrevoke; simpl.
  - apply refreshToken_updateMany_inv in Hrevoke as ->.
    split_and!; [done|by left|done|done].
  - pose proof Hrevoke as Hinv. apply refreshToken_updateMany_inv in Hinv as Hdb.
    split_and!; [done|by right| |done].
    intros Hup. unfold Prisma.refreshToken.updateMany in Hrevoke. unfoldM.
    destruct (Prisma.roundTrip w) as [o1 w2] eqn:Hrt. simpl in Hup. by subst o1.
Qed.

(** C7, as the code has it. [revokeRefreshToken] and
    [revokeAllUserRefreshTokens] are idempotent: once a call has reached
    the database, a further call leaves the tables unchanged. A failure of
    the underlying write is absorbed: both always return normally to the
    caller, and when the write fails the tables are left as they were. *)
Theorem revocation_is_idempotent_and_absorbs_failures :
  (∀ tokenId w w2,
     fst (Prisma.roundTrip w) = Return () →
     db w2 = db (snd (revokeRefreshToken tokenId w)) →
     db (snd (revokeRefreshToken tokenId w2)) = db w2)
  ∧ (∀ userId w w2,
       fst (Prisma.roundTrip w) = Return () →
       db w2 = db (snd (revokeAllUserRefreshTokens userId w)) →
       db (snd (revokeAllUserRefreshTokens userId w2)) = db w2)
  ∧ (∀ tokenId w, fst (revokeRefreshToken tokenId w) = Return ())
  ∧ (∀ userId w, fst (revokeAllUserRefreshTokens userId w) = Return ())
  ∧ (∀ tokenId w e,
       fst (Prisma.refreshToken.update tokenId true w) = Throw e →
       db (snd (revokeRefreshToken tokenId w)) = db w)
  ∧ (∀ userId w e,
       fst (Prisma.refreshToken.updateMany (notRevokedOf userId) true w) = Throw e →
       db (snd (revokeAllUserRefreshTokens userId w)) = db w).
Proof.
  split_and!.
  - intros tokenId w w2 Hup Hdb2.
    destruct (revokeRefreshToken_effect tokenId w) as (_ & _ & Hfirst & _).
    specialize (Hfirst Hup).
    destruct (revokeRefreshToken_effect tokenId w2) as (_ & [-> | ->] & _); [|done].
    rewrite Hdb2, Hfirst. simpl. rewrite revokedIn_idempotent.
    rewrite <- Hfirst at 2. by destruct (db w).
  - intros userId w w2 Hup Hdb2.
    destruct (revokeAll_effect userId w) as (_ & _ & Hfirst & _).
    specialize (Hfirst Hup).
    destruct (revokeAll_effect userId w2) as (_ & [-> | ->] & _); [|done].
    rewrite Hdb2, Hfirst. simpl. rewrite revokeAll_rows_idempotent.
    by destruct (db w).
  - intros tokenId w. apply revokeRefreshToken_effect.
  - intros userId w. apply revokeAll_effect.
  - intros tokenId w e. apply revokeRefreshToken_effect.
  - intros userId w e. apply revokeAll_effect.
Qed.

(** *** The table of signup attempts under its two indexes *)

Lemma NoDup_fmap_lookup {A B} (f : A → B) (l : list A) :
  NoDup (f <$> l)
  ↔ ∀ i j x y, l !! i = Some x → l !! j = Some y → f x = f y → i = j.
Proof.
  rewrite NoDup_alt. split.
  - intros Hnd i j x y Hi Hj Hxy. apply (Hnd i j (f x)).
    + by rewrite list_lookup_fmap, Hi.
    + by rewrite list_lookup_fmap, Hj, Hxy.
  - intros Hnd i j z Hi Hj. rewrite list_lookup_fmap in Hi, Hj.
    destruct (l !! i) as [x|] eqn:Hx; [|done].
    destruct (l !! j) as [y|] eqn:Hy; [|done].
    simpl in Hi, Hj. apply (Hnd i j x y); congruence.
Qed.

Lemma clashes_false a rows :
  Prisma.signupAttempt.clashes a rows = false
  ↔ ∀ b, b ∈ rows → SignupAttempt.key b = SignupAttempt.key a
                   → SignupAttempt.id b = SignupAttempt.id a.
Proof.
  unfold Prisma.signupAttempt.clashes. split.
  - intros Hno b Hb Hkey.
    destruct (decide (SignupAttempt.id b = SignupAttempt.id a)) as [|Hid]; [done|].
    assert (existsb (λ b, bool_decide (SignupAttempt.id b ≠ SignupAttempt.id a
                                       ∧ SignupAttempt.key b = SignupAttempt.key a)) rows
            = true) as Hyes; [|congruence].
    apply List.existsb_exists. exists b. split; [by apply list_elem_of_In|].
    by apply bool_decide_eq_true_2.
  - intros Hall. apply not_true_is_false. intros Hyes.
    apply List.existsb_exists in Hyes as (b & Hb & Hclash).
    apply bool_decide_eq_true_1 in Hclash as [Hid Hkey].
    apply Hid, Hall; [by apply list_elem_of_In | done].
Qed.

(** Rewriting rows in place keeps both indexes when ids are kept and no
    rewritten row shares its (email, status) with another row of the
    result. *)
Lemma rowsIndexed_rewrite (g : SignupAttempt.t → SignupAttempt.t) rows :
  (∀ a, SignupAttempt.id (g a) = SignupAttempt.id a) →
  (∀ a, a ∈ rows → g a ≠ a → Prisma.signupAttempt.clashes (g a) (g <$> rows) = false) →
  rowsIndexed rows → rowsIndexed (g <$> rows).
Proof.
  intros Hid Hclash [Hids Hkeys]. split.
  - rewrite <- list_fmap_compose.
    replace (SignupAttempt.id ∘ g <$> rows) with (SignupAttempt.id <$> rows); [done|].
    apply list_fmap_ext. intros i a _. simpl. by rewrite Hid.
  - apply NoDup_fmap_lookup. intros i j x' y' Hi Hj Hkey.
    rewrite list_lookup_fmap in Hi, Hj.
    destruct (rows !! i) as [x|] eqn:Hx; [|done].
    destruct (rows !! j) as [y|] eqn:Hy; [|done].
    simpl in Hi, Hj. injection Hi as <-. injection Hj as <-.
    assert (x ∈ rows) as Hxin by (apply list_elem_of_lookup; eauto).
    assert (y ∈ rows) as Hyin by (apply list_elem_of_lookup; eauto).
    assert (SignupAttempt.id x = SignupAttempt.id y → i = j) as Hsame.
    { intros. by eapply (proj1 (NoDup_fmap_lookup SignupAttempt.id rows) Hids). }
    destruct (decide (g x = x)) as [Hgx|Hgx].
    + destruct (decide (g y = y)) as [Hgy|Hgy].
      * rewrite Hgx, Hgy in Hkey.
        by eapply (proj1 (NoDup_fmap_lookup SignupAttempt.key rows) Hkeys).
      * apply Hsame. rewrite <- (Hid x), <- (Hid y).
        eapply (proj1 (clashes_false (g y) (g <$> rows))); eauto.
        apply list_elem_of_fmap. eauto.
    + apply Hsame. rewrite <- (Hid x), <- (Hid y). symmetry.
      eapply (proj1 (clashes_false (g x) (g <$> rows))); eauto.
      apply list_elem_of_fmap. eauto.
Qed.

Lemma rowsIndexed_insert row rows :
  SignupAttempt.id row ∉ SignupAttempt.id <$> rows →
  Prisma.signupAttempt.clashes row rows = false →
  rowsIndexed rows → rowsIndexed (rows ++ [row]).
Proof.
  intros Hfresh Hclash [Hids Hkeys].
  unfold rowsIndexed. rewrite !fmap_app. simpl. split.
  - apply NoDup_app. split_and!; [done| |apply NoDup_singleton].
    intros id Hid ->%list_elem_of_singleton. done.
  - apply NoDup_app. split_and!; [done| |apply NoDup_singleton].
    intros k Hk ->%list_elem_of_singleton.
    apply list_elem_of_fmap in Hk as (b & Hkey & Hb).
    apply Hfresh. apply list_elem_of_fmap. exists b. split; [|done].
    symmetry. by eapply (proj1 (clashes_false row rows)).
Qed.

(** Under the index, an (email, status) is held by at most one row. *)
Lemma rowsIndexed_at_most_one rows k :
  NoDup (SignupAttempt.key <$> rows) →
  (length (List.filter (λ a, bool_decide (SignupAttempt.key a = k)) rows) <= 1)%nat.
Proof.
  induction rows as [|a rows IH]; simpl; [lia|].
  intros [Hnotin Hnd]%NoDup_cons. specialize (IH Hnd).
  case_bool_decide as Hk; [|done]. simpl.
  rewrite filter_none; [simpl; lia|].
  intros b Hb. apply bool_decide_eq_false_2. intros Hkb.
  apply Hnotin. apply list_elem_of_fmap. exists b. split; [congruence | done].
Qed.

Lemma find_byId_unique rows id a0 a :
  NoDup (SignupAttempt.id <$> rows) →
  List.find (Prisma.signupAttempt.byId id) rows = Some a0 →
  a ∈ rows → Prisma.signupAttempt.byId id a = true → a = a0.
Proof.
  intros Hids Hfind Ha Hid.
  apply List.find_some in Hfind as [Ha0 Hid0].
  apply list_elem_of_In, list_elem_of_lookup in Ha0 as [i Hi].
  apply list_elem_of_lookup in Ha as [j Hj].
  unfold Prisma.signupAttempt.byId in *.
  apply bool_decide_eq_true_1 in Hid, Hid0.
  assert (j = i) as ->; [|congruence].
  eapply (proj1 (NoDup_fmap_lookup SignupAttempt.id rows) Hids); eauto. congruence.
Qed.

(** *** Runs of the store's writes on attempts *)

Lemma signupAttempt_create_inv email firstName lastName passwordHash currentStep
    status expiresAt w o w' :
  Prisma.signupAttempt.create email firstName lastName passwordHash currentStep
    status expiresAt w = (o, w') →
  now w' = now w ∧ config w' = config w
  ∧ match o with
    | Return a =>
        a = SignupAttempt.mk (randomUUID w (drawn w)) email (Some firstName)
              (Some lastName) (Some passwordHash) false false false currentStep []
              status 1 (now w) (now w) expiresAt None
        ∧ (SignupAttempt.id a ∉ SignupAttempt.id <$> signupAttempts (db w))
        ∧ Prisma.signupAttempt.clashes a (signupAttempts (db w)) = false
        ∧ db w' = setSignupAttempts (signupAttempts (db w) ++ [a]) (db w)
    | Throw e => db w' = db w ∧ ∃ code, e = PrismaClientError code
    end.
Proof.
  unfold Prisma.signupAttempt.create, freshId. unfoldM. simpl.
  destruct (Prisma.roundTrip _) as [o1 w1] eqn:Hrt.
  apply roundTrip_inv in Hrt as (Hdb & Hnow & Hcfg & _ & _ & [-> | ->]); simpl in *.
  - rewrite Hdb, Hnow. case_bool_decide as Hid; simpl.
    + intros [= <- <-]. split_and!; [done..|]. by eexists.
    + destruct (Prisma.signupAttempt.clashes _ _) eqn:Hclash; intros [= <- <-]; simpl;
        rewrite ?Hdb; [|done]. split_and!; [done..|]. by eexists.
  - intros [= <- <-]. split_and!; [done..|]. by eexists.
Qed.

Lemma signupAttempt_update_inv id data w o w' :
  Prisma.signupAttempt.update id data w = (o, w') →
  now w' = now w ∧ config w' = config w
  ∧ match o with
    | Return a' =>
        ∃ a, List.find (Prisma.signupAttempt.byId id) (signupAttempts (db w)) = Some a
             ∧ a' = SignupAttempt.apply (now w) data a
             ∧ Prisma.signupAttempt.clashes a' (signupAttempts (db w)) = false
             ∧ db w' = setSignupAttempts
                         ((λ b, if Prisma.signupAttempt.byId id b
                                then SignupAttempt.apply (now w) data b else b)
                            <$> signupAttempts (db w)) (db w)
    | Throw e => db w' = db w
    end.
Proof.
  unfold Prisma.signupAttempt.update. unfoldM.
  destruct (Prisma.roundTrip w) as [o1 w1] eqn:Hrt.
  apply roundTrip_inv in Hrt as (Hdb & Hnow & Hcfg & _ & _ & [-> | ->]); simpl.
  - rewrite Hdb, Hnow.
    destruct (Prisma.signupAttempt.fits data); simpl; [|by intros [= <- <-]].
    destruct (List.find _ _) as [a|] eqn:Hfind.
    + destruct (Prisma.signupAttempt.clashes _ _) eqn:Hclash; intros [= <- <-]; simpl;
        rewrite ?Hdb; [done|]. split_and!; [done..|]. by exists a.
    + by intros [= <- <-].
  - by intros [= <- <-].
Qed.

Lemma signupAttempt_updateMany_inv where_ data w o w' :
  Prisma.signupAttempt.updateMany where_ data w = (o, w') →
  let rewrite := λ a, if where_ a then SignupAttempt.apply (now w) data a else a in
  match o with
  | Return n =>
      n = Z.of_nat (length (List.filter where_ (signupAttempts (db w))))
      ∧ (∀ a, a ∈ signupAttempts (db w) → where_ a = true →
              Prisma.signupAttempt.clashes (SignupAttempt.apply (now w) data a)
                (rewrite <$> signupAttempts (db w)) = false)
      ∧ db w' = setSignupAttempts (rewrite <$> signupAttempts (db w)) (db w)
  | Throw e => db w' = db w
  end.
Proof.
  unfold Prisma.signupAttempt.updateMany. unfoldM.
  destruct (Prisma.roundTrip w) as [o1 w1] eqn:Hrt.
  apply roundTrip_inv in Hrt as (Hdb & Hnow & Hcfg & _ & _ & [-> | ->]); simpl.
  - rewrite Hdb, Hnow.
    destruct (Prisma.signupAttempt.fits data); simpl; [|by intros [= <- <-]].
    destruct (existsb _ _) eqn:Hclash; intros [= <- <-]; simpl;
      rewrite ?Hdb; [done|]. split_and!; [done| |done].
    intros a Ha Hwhere. apply not_true_is_false. intros Hyes.
    assert (existsb (λ a, where_ a
              && Prisma.signupAttempt.clashes (SignupAttempt.apply (now w) data a)
                   ((λ a, if where_ a then SignupAttempt.apply (now w) data a else a)
                      <$> signupAttempts (db w))) (signupAttempts (db w)) = true)
      as Hex; [|congruence].
    apply List.existsb_exists. exists a. split; [by apply list_elem_of_In|].
    by rewrite Hwhere, Hyes.
  - by intros [= <- <-].
Qed.

(** *** The combinators keep what their parts keep *)

Lemma preserves_ret {A} I (a : A) : preserves I (mret a).
Proof. by intros w o w' [= <- <-]. Qed.

Lemma preserves_throw {A} I e : preserves I (throw e : M A).
Proof. by intros w o w' [= <- <-]. Qed.

Lemma preserves_gets {A} I (f : World → A) : preserves I (gets f).
Proof. by intros w o w' [= <- <-]. Qed.

Lemma preserves_bind {A B} I (m : M A) (k : A → M B) :
  preserves I m → (∀ a, preserves I (k a)) → preserves I (m ≫= k).
Proof.
  intros Hm Hk w o w' Hrun HI. unfoldM.
  destruct (m w) as [[a|e] w1] eqn:Hmw.
  - eapply Hk; eauto.
  - injection Hrun as <- <-. eauto.
Qed.

Lemma preserves_tryCatch {A} I (body : M A) (handler : Exn → M A) :
  preserves I body → (∀ e, preserves I (handler e)) → preserves I (tryCatch body handler).
Proof.
  intros Hbody Hhandler w o w' Hrun HI. unfoldM.
  destruct (body w) as [[a|e] w1] eqn:Hbw.
  - injection Hrun as <- <-. eauto.
  - eapply Hhandler; eauto.
Qed.

Lemma preserves_roundTrip I : preserves I Prisma.roundTrip.
Proof. intros w o w' Hrun HI. apply roundTrip_inv in Hrun as (-> & _). done. Qed.

Lemma preserves_freshId I : preserves I freshId.
Proof. by intros w o w' [= <- <-]. Qed.

Lemma preserves_create email firstName lastName passwordHash currentStep status expiresAt :
  preserves indexed
    (Prisma.signupAttempt.create email firstName lastName passwordHash currentStep
       status expiresAt).
Proof.
  intros w o w' Hrun HI. apply signupAttempt_create_inv in Hrun as (_ & _ & Hrun).
  destruct o as [a|e]; [|by destruct Hrun as [-> _]].
  destruct Hrun as (_ & Hfresh & Hclash & ->). by apply rowsIndexed_insert.
Qed.

Lemma preserves_update id data : preserves indexed (Prisma.signupAttempt.update id data).
Proof.
  intros w o w' Hrun HI. apply signupAttempt_update_inv in Hrun as (_ & _ & Hrun).
  destruct o as [a'|e]; [|by rewrite Hrun].
  destruct Hrun as (a0 & Hfind & -> & Hclash & ->).
  unfold indexed. simpl. apply rowsIndexed_rewrite; [| |done].
  - intros a. by destruct (Prisma.signupAttempt.byId id a).
  - intros a Ha Hchanged.
    destruct (Prisma.signupAttempt.byId id a) eqn:Hid; [|done].
    assert (a = a0) as -> by (eapply find_byId_unique; eauto; apply HI).
    apply clashes_false. intros b' (b & -> & Hb)%list_elem_of_fmap Hkey.
    destruct (Prisma.signupAttempt.byId id b) eqn:Hidb.
    + unfold Prisma.signupAttempt.byId in *.
      apply bool_decide_eq_true_1 in Hid, Hidb. simpl. congruence.
    + by eapply (proj1 (clashes_false _ _) Hclash).
Qed.

Lemma preserves_updateMany where_ data :
  preserves indexed (Prisma.signupAttempt.updateMany where_ data).
Proof.
  intros w o w' Hrun HI. apply signupAttempt_updateMany_inv in Hrun.
  destruct o as [n|e]; [|by rewrite Hrun].
  destruct Hrun as (_ & Hclash & ->).
  unfold indexed. simpl. apply rowsIndexed_rewrite; [| |done].
  - intros a. by destruct (where_ a).
  - intros a Ha Hchanged. destruct (where_ a) eqn:Hwhere; [|done]. by apply Hclash.
Qed.

(** Decomposes a service into the combinators and the store's calls. *)
Ltac preserving :=
  repeat lazymatch goal with
    | |- preserves _ (mret _) => apply preserves_ret
    | |- preserves _ (throw _) => apply preserves_throw
    | |- preserves _ (gets _) => apply preserves_gets
    | |- preserves _ Prisma.roundTrip => apply preserves_roundTrip
    | |- preserves _ freshId => apply preserves_freshId
    | |- preserves _ (Prisma.signupAttempt.create _ _ _ _ _ _ _) => apply preserves_create
    | |- preserves _ (Prisma.signupAttempt.update _ _) => apply preserves_update
    | |- preserves _ (Prisma.signupAttempt.updateMany _ _) => apply preserves_updateMany
    | |- preserves _ (mbind _ _) => apply preserves_bind; [|intros ?]
    | |- preserves _ (tryCatch _ _) => apply preserves_tryCatch; [|intros ?]
    | |- preserves _ (match ?x with _ => _ end) => destruct x
    end.

Lemma preserves_createSignupAttempt email firstName lastName password :
  preserves indexed (createSignupAttempt bcrypt_hash email firstName lastName password).
Proof.
  unfold createSignupAttempt, checkUserExists, Prisma.user.findUnique, bcryptHash,
    ConfigService.getOr.
  preserving.
Qed.

Lemma preserves_resumeSignupAttempt existingAttempt :
  preserves indexed (resumeSignupAttempt existingAttempt).
Proof. unfold resumeSignupAttempt. preserving. Qed.

Lemma preserves_updateSignupStep attemptId newStep completedStep :
  preserves indexed (updateSignupStep attemptId newStep completedStep).
Proof. unfold updateSignupStep, Prisma.signupAttempt.findUnique. preserving. Qed.

Lemma preserves_completeSignupAttempt attemptId :
  preserves indexed (completeSignupAttempt attemptId).
Proof. unfold completeSignupAttempt. preserving. Qed.

Lemma preserves_markExpiredAttempts : preserves indexed markExpiredAttempts.
Proof. unfold markExpiredAttempts. preserving. Qed.

Lemma preserves_snd {A} I (m : M A) w : preserves I m → I (db w) → I (db (snd (m w))).
Proof. intros Hm HI. destruct (m w) as [o w'] eqn:Hrun. eauto. Qed.

(** Every observed state has both indexes intact. *)
Lemma reachable_indexed w : reachable bcrypt_hash w → indexed (db w).
Proof.
  induction 1 as [w Hempty | w w' _ IH Hstep].
  - unfold indexed, rowsIndexed. rewrite Hempty. split; apply NoDup_nil_2.
  - destruct Hstep.
    + by apply preserves_snd; [apply preserves_createSignupAttempt|].
    + by apply preserves_snd; [apply preserves_resumeSignupAttempt|].
    + by apply preserves_snd; [apply preserves_updateSignupStep|].
    + by apply preserves_snd; [apply preserves_completeSignupAttempt|].
    + by apply preserves_snd; [apply preserves_markExpiredAttempts|].
    + unfold indexed in *. congruence.
Qed.

(** *** createSignupAttempt *)

(** The runs of [createSignupAttempt]: a new IN_PROGRESS row for the
    lower-cased email that the indexes accepted, or one of two errors and
    the tables as they were; the conflict error only for an existing user. *)
Lemma createSignupAttempt_inv email firstName lastName password w o w' :
  createSignupAttempt bcrypt_hash email firstName lastName password w = (o, w') →
  match o with
  | Return a =>
      userOf email (db w) = None
      ∧ SignupAttempt.email a = JS.toLowerCase email
      ∧ SignupAttempt.status a = IN_PROGRESS
      ∧ SignupAttempt.currentStep a = "email_verification"
      ∧ SignupAttempt.attemptCount a = 1
      ∧ JS.plusLocal (localTZA w) (now w) (2 * JS.msPerHour)
        = Some (SignupAttempt.expiresAt a)
      ∧ (SignupAttempt.id a ∉ SignupAttempt.id <$> signupAttempts (db w))
      ∧ Prisma.signupAttempt.clashes a (signupAttempts (db w)) = false
      ∧ db w' = setSignupAttempts (signupAttempts (db w) ++ [a]) (db w)
  | Throw e =>
      db w' = db w
      ∧ ((e = ConflictException "An account with this email already exists"
          ∧ is_Some (userOf email (db w))
          ∧ fst (Prisma.roundTrip w) = Return ())
         ∨ (e = InternalServerErrorException "Failed to create signup attempt"
            ∧ (userOf email (db w) = None ∨ fst (Prisma.roundTrip w) ≠ Return ())))
  end.
Proof.
  unfold createSignupAttempt, checkUserExists, Prisma.user.findUnique, bcryptHash,
    ConfigService.getOr, userOf.
  unfoldM.
  pose proof (roundTrip_localTZA w) as Htz.
  destruct (Prisma.roundTrip w) as [o1 w1] eqn:Hrt. simpl in Htz.
  apply roundTrip_inv in Hrt as (Hdb & Hnow & Hcfg & _ & _ & [-> | ->]); simpl;
    [|intros [= <- <-]; rewrite Hdb; split; [done|]; right; split; [done|by right]].
  rewrite Hdb.
  destruct (List.find _ _) as [u|] eqn:Huser; simpl.
  { intros [= <- <-]. split; [done|]. left. eauto. }
  destruct (bcrypt_hash _ _) as [hash|]; simpl;
    [|intros [= <- <-]; split; [done|]; right; split; [done|by left]].
  rewrite Hnow, Htz.
  destruct (JS.plusLocal _ _ _) as [deadline|] eqn:Hdeadline; simpl;
    [|intros [= <- <-]; split; [done|]; right; split; [done|by left]].
  destruct (Prisma.signupAttempt.create _ _ _ _ _ _ _ w1) as [[a|e] w2] eqn:Hcreate;
    apply signupAttempt_create_inv in Hcreate as (_ & _ & Hcreate);
    rewrite ?Hdb, ?Hnow in Hcreate;
    [|destruct Hcreate as (Hsame & code & ->)]; intros [= <- <-].
  - destruct Hcreate as (-> & Hfresh & Hclash & ->). simpl in *. done.
  - rewrite Hsame. split; [done|]. right. split; [done|by left].
Qed.

(** While a row holds (email, IN_PROGRESS), no [create] for that email
    returns. *)
Lemma createSignupAttempt_rejected email firstName lastName password w a :
  a ∈ signupAttempts (db w) →
  SignupAttempt.email a = JS.toLowerCase email →
  SignupAttempt.status a = IN_PROGRESS →
  ∃ e w', createSignupAttempt bcrypt_hash email firstName lastName password w
          = (Throw e, w')
          ∧ db w' = db w
          ∧ (userOf email (db w) = None →
             e = InternalServerErrorException "Failed to create signup attempt").
Proof.
  intros Ha Hemail Hstatus.
  destruct (createSignupAttempt _ _ _ _ _ w) as [[new|e] w'] eqn:Hrun;
    apply createSignupAttempt_inv in Hrun.
  - destruct Hrun as (_ & Hnew & Hst & _ & _ & _ & Hfresh & Hclash & _).
    exfalso. apply Hfresh. apply list_elem_of_fmap. exists a. split; [|done].
    symmetry. eapply (proj1 (clashes_false _ _) Hclash); [done|].
    unfold SignupAttempt.key. congruence.
  - destruct Hrun as (Hdb & Hcases). exists e, w'. split_and!; [done..|].
    intros Hnouser. destruct Hcases as [(_ & [u Hu] & _) | (-> & _)]; [congruence | done].
Qed.

(** With the database reachable, [createSignupAttempt] returns for an
    email that no user and no IN_PROGRESS attempt holds, once the password is
    hashed, the identifier drawn is new and the deadline is a date. *)
Lemma createSignupAttempt_free email firstName lastName password w hash deadline :
  databaseUp w →
  userOf email (db w) = None →
  attemptsWith (JS.toLowerCase email) IN_PROGRESS (db w) = [] →
  randomUUID w (drawn w) ∉ SignupAttempt.id <$> signupAttempts (db w) →
  bcrypt_hash password (saltRounds w) = Some hash →
  JS.plusLocal (localTZA w) (now w) (2 * JS.msPerHour) = Some deadline →
  ∃ a w',
    createSignupAttempt bcrypt_hash email firstName lastName password w = (Return a, w')
    ∧ a = SignupAttempt.mk (randomUUID w (drawn w)) (JS.toLowerCase email)
            (Some firstName) (Some lastName) (Some hash) false false false
            "email_verification" [] IN_PROGRESS 1 (now w) (now w) deadline None
    ∧ db w' = setSignupAttempts (signupAttempts (db w) ++ [a]) (db w).
Proof.
  intros Hup Huser Hfree Hfresh Hhash Hdeadline.
  unfold createSignupAttempt, checkUserExists, Prisma.user.findUnique, bcryptHash,
    ConfigService.getOr, Prisma.signupAttempt.create, freshId, userOf, saltRounds in *.
  unfoldM. rewrite (roundTrip_up w Hup). simpl. rewrite Huser. simpl.
  rewrite Hhash. simpl. rewrite Hdeadline. simpl.
  rewrite (roundTrip_up (setDrawn _ w)) by done. simpl.
  rewrite bool_decide_eq_false_2 by done.
  rewrite (proj2 (clashes_false _ _)).
  - simpl. by eexists _, _.
  - intros b Hb Hkey. exfalso.
    assert (b ∈ attemptsWith (JS.toLowerCase email) IN_PROGRESS (db w)) as Hin.
    { apply filter_elem_of. split; [done|]. by apply bool_decide_eq_true_2. }
    rewrite Hfree in Hin. by apply elem_of_nil in Hin.
Qed.

(** C2. In every state reachable by create, resume, advanceStep, complete
    and sweepExpired, at most one row holds status IN_PROGRESS for any one
    email. A create call for an email against a state that already holds an
    IN_PROGRESS attempt for it is rejected and changes nothing; so of two
    create calls for the same email, whatever happens to the environment in
    between, at most one returns. And exactly one does when the email is
    free and the service can work: with the database reachable, no user and
    no IN_PROGRESS attempt holding the email, the password hashed, the
    identifier drawn new and the deadline a date, the first call returns and
    leaves its attempt as the one IN_PROGRESS row of the email; the second
    call, for the email in any letter case and in any state that holds the
    table the first left, is rejected and changes nothing, with the error of
    the catch-all handler when no user holds the email. *)
Theorem at_most_one_attempt_in_progress_per_email :
  (∀ w email,
     reachable bcrypt_hash w →
     (length (attemptsWith email IN_PROGRESS (db w)) <= 1)%nat)
  ∧ (∀ email firstName lastName password w a,
       a ∈ signupAttempts (db w) →
       SignupAttempt.email a = JS.toLowerCase email →
       SignupAttempt.status a = IN_PROGRESS →
       ¬ returns (fst (createSignupAttempt bcrypt_hash email firstName lastName password w))
       ∧ db (snd (createSignupAttempt bcrypt_hash email firstName lastName password w))
         = db w)
  ∧ (∀ email firstName lastName password firstName2 lastName2 password2 w w2,
       returns (fst (createSignupAttempt bcrypt_hash email firstName lastName password w)) →
       signupAttempts (db w2)
       = signupAttempts
           (db (snd (createSignupAttempt bcrypt_hash email firstName lastName password w))) →
       ¬ returns (fst (createSignupAttempt bcrypt_hash email firstName2 lastName2
                         password2 w2)))
  ∧ (∀ email firstName lastName password email2 firstName2 lastName2 password2 w,
       databaseUp w →
       userOf email (db w) = None →
       attemptsWith (JS.toLowerCase email) IN_PROGRESS (db w) = [] →
       randomUUID w (drawn w) ∉ SignupAttempt.id <$> signupAttempts (db w) →
       is_Some (bcrypt_hash password (saltRounds w)) →
       is_Some (JS.plusLocal (localTZA w) (now w) (2 * JS.msPerHour)) →
       JS.toLowerCase email2 = JS.toLowerCase email →
       ∃ a w1,
         createSignupAttempt bcrypt_hash email firstName lastName password w
         = (Return a, w1)
         ∧ attemptsWith (JS.toLowerCase email) IN_PROGRESS (db w1) = [a]
         ∧ ∀ w2,
             signupAttempts (db w2) = signupAttempts (db w1) →
             exactlyOneReturns
               (fst (createSignupAttempt bcrypt_hash email firstName lastName password w))
               (fst (createSignupAttempt bcrypt_hash email2 firstName2 lastName2
                       password2 w2))
             ∧ ∃ e w3,
                 createSignupAttempt bcrypt_hash email2 firstName2 lastName2 password2 w2
                 = (Throw e, w3)
                 ∧ db w3 = db w2
                 ∧ (userOf email (db w2) = None →
                    e = InternalServerErrorException "Failed to create signup attempt")).
Proof.
  split_and!.
  - intros w email Hreach. apply rowsIndexed_at_most_one.
    by apply reachable_indexed in Hreach as [_ Hkeys].
  - intros email firstName lastName password w a Ha Hemail Hstatus.
    destruct (createSignupAttempt_rejected email firstName lastName password w a)
      as (e & w' & -> & Hdb & _); [done..|].
    split; [by intros [? ?] | done].
  - intros email firstName lastName password firstName2 lastName2 password2 w w2
      [a Hfirst] Htable.
    destruct (createSignupAttempt _ email firstName lastName password w)
      as [o w1] eqn:Hrun.
    simpl in Hfirst, Htable. subst o.
    apply createSignupAttempt_inv in Hrun as (_ & Hemail & Hstatus & _ & _ & _ & _ & _ & Hdb).
    destruct (createSignupAttempt_rejected email firstName2 lastName2 password2 w2 a)
      as (e & w' & -> & _); [|done..|by intros [? ?]].
    rewrite Htable, Hdb. simpl. apply elem_of_app. right. by left.
  - intros email firstName lastName password email2 firstName2 lastName2 password2 w
      Hup Huser Hfree Hfresh [hash Hhash] [deadline Hdeadline] Hcase.
    destruct (createSignupAttempt_free email firstName lastName password w hash deadline)
      as (a & w1 & Hrun & Ha & Hdb1); [done..|].
    exists a, w1. split; [done|]. split.
    + unfold attemptsWith in *. rewrite Hdb1. simpl. rewrite List.filter_app, Hfree.
      simpl. rewrite bool_decide_eq_true_2; [done|]. by rewrite Ha.
    + intros w2 Htable.
      destruct (createSignupAttempt_rejected email2 firstName2 lastName2 password2 w2 a)
        as (e & w3 & Hsecond & Hdb3 & He).
      * rewrite Htable, Hdb1. simpl. apply elem_of_app. right. by left.
      * rewrite Hcase. by rewrite Ha.
      * by rewrite Ha.
      * rewrite Hrun, Hsecond. simpl. split.
        -- left. split; [by exists a | by intros [? ?]].
        -- exists e, w3. split_and!; [done..|].
           intros Hnone. apply He. unfold userOf in *. by rewrite Hcase.
Qed.

(** C3, as the code has it. [createSignupAttempt] fails with the conflict
    error when a user with that email exists (the lookup reaching the
    database). When no such user exists and an IN_PROGRESS attempt for the
    email does, expired or not, the service makes no check of its own: the
    call fails with the internal-server-error of its catch-all handler,
    which is what it makes of the index's refusal, and changes nothing. *)
Theorem create_conflicts_on_user_and_fails_on_attempt :
  (∀ email firstName lastName password w,
     fst (Prisma.roundTrip w) = Return () →
     is_Some (userOf email (db w)) →
     ∃ w', createSignupAttempt bcrypt_hash email firstName lastName password w
           = (Throw (ConflictException "An account with this email already exists"), w')
           ∧ conflictClass (ConflictException "An account with this email already exists")
           ∧ db w' = db w)
  ∧ (∀ email firstName lastName password w a,
       userOf email (db w) = None →
       a ∈ signupAttempts (db w) →
       SignupAttempt.email a = JS.toLowerCase email →
       SignupAttempt.status a = IN_PROGRESS →
       ∃ w', createSignupAttempt bcrypt_hash email firstName lastName password w
             = (Throw (InternalServerErrorException "Failed to create signup attempt"), w')
             ∧ ¬ conflictClass (InternalServerErrorException "Failed to create signup attempt")
             ∧ db w' = db w).
Proof.
  split.
  - intros email firstName lastName password w Hup Huser.
    destruct (createSignupAttempt _ _ _ _ _ w) as [[a|e] w'] eqn:Hrun;
      apply createSignupAttempt_inv in Hrun.
    + destruct Hrun as (Hnone & _). rewrite Hnone in Huser. by destruct Huser.
    + destruct Hrun as (Hdb & [(-> & _) | (_ & [Hnone | Hdown])]).
      * exists w'. split_and!; [done| |done]. by eexists.
      * rewrite Hnone in Huser. by destruct Huser.
      * done.
  - intros email firstName lastName password w a Hnouser Ha Hemail Hstatus.
    destruct (createSignupAttempt_rejected email firstName lastName password w a)
      as (e & w' & Hrun & Hdb & He); [done..|].
    rewrite (He Hnouser) in Hrun. exists w'. split_and!; [done| |done].
    by intros [? ?].
Qed.

(** *** resumeSignupAttempt *)

Lemma setSignupAttempts_same d : setSignupAttempts (signupAttempts d) d = d.
Proof. by destruct d. Qed.

(** C8, as the code has it. For an attempt that is the stored row of its
    id (IN_PROGRESS or not), in a table with its indexes intact and the
    database up, the count being the INTEGER the column holds:
    while the count is below 2147483647, [resumeSignupAttempt] returns and
    stores the same row with attemptCount one higher and updatedAt set to
    the current instant: id, email, profile fields, flags, currentStep,
    completedSteps, status, createdAt, expiresAt and completedAt are as
    before, so the deadline is not extended, and every other row, and the
    other tables, are untouched. At 2147483647 the count plus one does not
    fit the column: the update is refused, the call fails with the error of
    its catch-all handler and the tables are as they were. *)
Theorem resume_bumps_count_and_keeps_the_rest (a : SignupAttempt.t) (w : World) :
  databaseUp w →
  indexed (db w) →
  List.find (Prisma.signupAttempt.byId (SignupAttempt.id a)) (signupAttempts (db w))
    = Some a →
  Prisma.int4 (SignupAttempt.attemptCount a) = true →
  (SignupAttempt.attemptCount a < 2147483647 →
   ∃ a' w',
    resumeSignupAttempt a w = (Return a', w')
    ∧ a' = SignupAttempt.mk (SignupAttempt.id a) (SignupAttempt.email a)
             (SignupAttempt.firstName a) (SignupAttempt.lastName a)
             (SignupAttempt.passwordHash a) (SignupAttempt.emailVerified a)
             (SignupAttempt.phoneVerified a) (SignupAttempt.mfaEnabled a)
             (SignupAttempt.currentStep a) (SignupAttempt.completedSteps a)
             (SignupAttempt.status a) (SignupAttempt.attemptCount a + 1)
             (SignupAttempt.createdAt a) (now w) (SignupAttempt.expiresAt a)
             (SignupAttempt.completedAt a)
    ∧ SignupAttempt.attemptCount a' = SignupAttempt.attemptCount a + 1
    ∧ SignupAttempt.updatedAt a' = now w
    ∧ SignupAttempt.expiresAt a' = SignupAttempt.expiresAt a
    ∧ signupAttempts (db w')
      = (λ b, if Prisma.signupAttempt.byId (SignupAttempt.id a) b then a' else b)
          <$> signupAttempts (db w)
    ∧ users (db w') = users (db w)
    ∧ refreshTokens (db w') = refreshTokens (db w))
  ∧ (SignupAttempt.attemptCount a = 2147483647 →
     ∃ w',
       resumeSignupAttempt a w
       = (Throw (InternalServerErrorException "Failed to resume signup attempt"), w')
       ∧ db w' = db w).
Proof.
  intros Hup [Hids Hkeys] Hstored Hcount.
  apply bool_decide_eq_true_1 in Hcount.
  assert (a ∈ signupAttempts (db w)) as Hin
    by (apply List.find_some in Hstored as [? _]; by apply list_elem_of_In).
  unfold resumeSignupAttempt, Prisma.signupAttempt.update, Prisma.signupAttempt.fits,
    Prisma.int4.
  unfoldM. rewrite (roundTrip_up w Hup). simpl. split.
  - intros Hbelow. rewrite bool_decide_eq_true_2 by lia. simpl. rewrite Hstored.
    rewrite (proj2 (clashes_false _ _)).
    + simpl. eexists _, _. split; [reflexivity|]. destruct a. simpl in *.
      split_and!; try done.
      apply list_fmap_ext. intros i b Hb. simpl.
      destruct (Prisma.signupAttempt.byId _ b) eqn:Hid; [|done].
      by rewrite (find_byId_unique _ _ _ b Hids Hstored)
        by (done || apply list_elem_of_lookup; eauto).
    + intros b Hb Hkey. simpl.
      apply list_elem_of_lookup in Hb as [i Hi], Hin as [j Hj].
      assert (i = j) as ->; [|congruence].
      eapply (proj1 (NoDup_fmap_lookup SignupAttempt.key _) Hkeys); eauto.
  - intros Hmost. rewrite bool_decide_eq_false_2 by lia. simpl. by eexists.
Qed.

(** *** markExpiredAttempts and completeSignupAttempt *)

(** A failed bulk update is turned into the count 0. *)
Lemma markExpiredAttempts_absorbs w e :
  fst (Prisma.signupAttempt.updateMany (expiredInProgress (now w))
         (SignupAttempt.mkPatch None None (Some EXPIRED) None None None) w)
  = Throw e →
  fst (markExpiredAttempts w) = Return 0
  ∧ db (snd (markExpiredAttempts w)) = db w.
Proof.
  unfold markExpiredAttempts. unfoldM. simpl.
  destruct (Prisma.signupAttempt.updateMany _ _ w) as [[n|e'] w'] eqn:Hrun; simpl;
    [done|]. intros _.
  by apply signupAttempt_updateMany_inv in Hrun.
Qed.

(** C10. [markExpiredAttempts] never throws. When the bulk update fails,
    for whatever reason, it returns 0 and leaves the tables as they were:
    the value and the tables that a sweep which reached the database and
    found no expired attempt returns and leaves. *)
Theorem sweep_returns_zero_on_failure :
  (∀ w, ∃ n, fst (markExpiredAttempts w) = Return n)
  ∧ (∀ w e,
       fst (Prisma.signupAttempt.updateMany (expiredInProgress (now w))
              (SignupAttempt.mkPatch None None (Some EXPIRED) None None None) w)
       = Throw e →
       fst (markExpiredAttempts w) = Return 0
       ∧ db (snd (markExpiredAttempts w)) = db w)
  ∧ (∀ w,
       databaseUp w →
       List.filter (expiredInProgress (now w)) (signupAttempts (db w)) = [] →
       fst (markExpiredAttempts w) = Return 0
       ∧ db (snd (markExpiredAttempts w)) = db w).
Proof.
  split_and!.
  - intros w. unfold markExpiredAttempts. unfoldM. simpl.
    destruct (Prisma.signupAttempt.updateMany _ _ w) as [[n|e] w']; simpl; eauto.
  - apply markExpiredAttempts_absorbs.
  - intros w Hup Hnone.
    assert (∀ a, a ∈ signupAttempts (db w) → expiredInProgress (now w) a = false)
      as Hfalse.
    { intros a Ha. apply not_true_is_false. intros Hyes.
      assert (a ∈ List.filter (expiredInProgress (now w)) (signupAttempts (db w)))
        as Hin by (apply list_elem_of_In, List.filter_In; by rewrite <- list_elem_of_In).
      rewrite Hnone in Hin. by apply elem_of_nil in Hin. }
    unfold markExpiredAttempts, Prisma.signupAttempt.updateMany. unfoldM.
    rewrite (roundTrip_up w Hup). simpl. rewrite Hnone.
    replace (existsb _ _) with false.
    + simpl. split; [done|].
      erewrite list_fmap_ext; [rewrite list_fmap_id; apply setSignupAttempts_same|].
      intros i a Ha. simpl. rewrite Hfalse; [done|]. apply list_elem_of_lookup. eauto.
    + symmetry. apply not_true_is_false.
      intros (a & Ha & Hyes)%List.existsb_exists.
      rewrite Hfalse in Hyes; [done | by apply list_elem_of_In].
Qed.

(** The sweep cannot go through while an EXPIRED row waits for the email
    of a row it would expire. *)
Lemma sweep_blocked w a b :
  a ∈ signupAttempts (db w) → b ∈ signupAttempts (db w) →
  SignupAttempt.email a = SignupAttempt.email b →
  SignupAttempt.id a ≠ SignupAttempt.id b →
  SignupAttempt.status a = EXPIRED →
  expiredInProgress (now w) b = true →
  ∃ e, fst (Prisma.signupAttempt.updateMany (expiredInProgress (now w))
              (SignupAttempt.mkPatch None None (Some EXPIRED) None None None) w)
       = Throw e.
Proof.
  intros Ha Hb Hemail Hid Hstatus Hexpired.
  destruct (Prisma.signupAttempt.updateMany _ _ w) as [[n|e] w'] eqn:Hrun; simpl; [|eauto].
  apply signupAttempt_updateMany_inv in Hrun as (_ & Hclash & _).
  specialize (Hclash b Hb Hexpired). exfalso. apply Hid.
  eapply (proj1 (clashes_false _ _) Hclash).
  - apply list_elem_of_fmap. exists a. split; [|done].
    unfold expiredInProgress. rewrite Hstatus. done.
  - unfold SignupAttempt.key. simpl. congruence.
Qed.

(** Nor can an attempt be completed while a COMPLETED row holds its email. *)
Lemma complete_blocked w a b :
  a ∈ signupAttempts (db w) →
  List.find (Prisma.signupAttempt.byId (SignupAttempt.id b)) (signupAttempts (db w))
    = Some b →
  SignupAttempt.email a = SignupAttempt.email b →
  SignupAttempt.id a ≠ SignupAttempt.id b →
  SignupAttempt.status a = COMPLETED →
  ∃ w', completeSignupAttempt (SignupAttempt.id b) w
        = (Throw (InternalServerErrorException "Failed to complete signup attempt"), w')
        ∧ db w' = db w.
Proof.
  intros Ha Hb Hemail Hid Hstatus.
  unfold completeSignupAttempt. unfoldM. simpl.
  destruct (Prisma.signupAttempt.update _ _ w) as [[b'|e] w'] eqn:Hrun; simpl;
    apply signupAttempt_update_inv in Hrun as (_ & _ & Hrun).
  - destruct Hrun as (b0 & Hfind & -> & Hclash & _).
    rewrite Hb in Hfind. injection Hfind as <-. exfalso. apply Hid.
    eapply (proj1 (clashes_false _ _) Hclash); [done|].
    unfold SignupAttempt.key. simpl. congruence.
  - eauto.
Qed.

(** C9. The unique index is over (email, status) for every status: in
    every reachable state at most one row holds any given status for an
    email, EXPIRED and COMPLETED included. Hence, in a state that holds an
    EXPIRED attempt for an email and a second, expired IN_PROGRESS attempt
    for the same email, the sweep's bulk update fails ([markExpiredAttempts]
    returns 0 and expires nothing); and an attempt cannot be completed
    while another row is COMPLETED for its email. Such states exist with
    both indexes intact. *)
Theorem index_covers_every_status :
  (∀ w email status,
     reachable bcrypt_hash w →
     (length (attemptsWith email status (db w)) <= 1)%nat)
  ∧ (∀ w a b,
       a ∈ signupAttempts (db w) → b ∈ signupAttempts (db w) →
       SignupAttempt.email a = SignupAttempt.email b →
       SignupAttempt.id a ≠ SignupAttempt.id b →
       SignupAttempt.status a = EXPIRED →
       expiredInProgress (now w) b = true →
       (∃ e, fst (Prisma.signupAttempt.updateMany (expiredInProgress (now w))
                    (SignupAttempt.mkPatch None None (Some EXPIRED) None None None) w)
             = Throw e)
       ∧ fst (markExpiredAttempts w) = Return 0
       ∧ db (snd (markExpiredAttempts w)) = db w)
  ∧ (∀ w a b,
       a ∈ signupAttempts (db w) →
       List.find (Prisma.signupAttempt.byId (SignupAttempt.id b)) (signupAttempts (db w))
         = Some b →
       SignupAttempt.email a = SignupAttempt.email b →
       SignupAttempt.id a ≠ SignupAttempt.id b →
       SignupAttempt.status a = COMPLETED →
       ∃ w', completeSignupAttempt (SignupAttempt.id b) w
             = (Throw (InternalServerErrorException "Failed to complete signup attempt"),
                w')
             ∧ db w' = db w)
  ∧ (∃ w a b,
       indexed (db w) ∧ databaseUp w
       ∧ a ∈ signupAttempts (db w) ∧ b ∈ signupAttempts (db w)
       ∧ SignupAttempt.email a = SignupAttempt.email b
       ∧ SignupAttempt.id a ≠ SignupAttempt.id b
       ∧ SignupAttempt.status a = EXPIRED
       ∧ expiredInProgress (now w) b = true)
  ∧ (∃ w a b,
       indexed (db w) ∧ databaseUp w
       ∧ a ∈ signupAttempts (db w)
       ∧ List.find (Prisma.signupAttempt.byId (SignupAttempt.id b)) (signupAttempts (db w))
         = Some b
       ∧ SignupAttempt.email a = SignupAttempt.email b
       ∧ SignupAttempt.id a ≠ SignupAttempt.id b
       ∧ SignupAttempt.status a = COMPLETED
       ∧ SignupAttempt.status b = IN_PROGRESS).
Proof.
  split_and!.
  - intros w email status Hreach. apply rowsIndexed_at_most_one.
    by apply reachable_indexed in Hreach as [_ Hkeys].
  - intros w a b Ha Hb Hemail Hid Hstatus Hexpired.
    destruct (sweep_blocked w a b) as [e He]; [done..|].
    split; [eauto|]. by eapply markExpiredAttempts_absorbs.
  - apply complete_blocked.
  - exists (Sample.world Sample.sweptAndStale (6 * Sample.hour) []),
      (Sample.attemptOf "uuid-0" "cy@example.com" EXPIRED 0 (3 * Sample.hour)),
      (Sample.attemptOf "uuid-1" "cy@example.com" IN_PROGRESS (3 * Sample.hour)
         (3 * Sample.hour)).
    split_and!; try done.
    + split; compute_done.
    + by left.
    + right. by left.
  - exists (Sample.world Sample.completedAndLive (4 * Sample.hour) []),
      (Sample.attemptOf "uuid-0" "cy@example.com" COMPLETED 0 Sample.hour),
      (Sample.attemptOf "uuid-1" "cy@example.com" IN_PROGRESS (3 * Sample.hour)
         (3 * Sample.hour)).
    split_and!; try done.
    + split; compute_done.
    + by left.
Qed.

(** *** More of the token codec *)

Lemma verify_shape (secretKey kind failure : string) (token : Token) (w : World) :
  let verify : M (list (string * string)) :=
    tryCatch
      (secret ← ConfigService.getOrThrow secretKey;
       payload ← jwtVerify token secret;
       if bool_decide (JS.prop "type" payload ≠ Some kind)
       then throw (UnauthorizedException "Invalid token type")
       else mret payload)
      (λ error, throw (UnauthorizedException failure)) in
  (∀ payload, verify w = (Return payload, w) ↔ accepts secretKey kind token w payload)
  ∧ ((∀ payload, ¬ accepts secretKey kind token w payload) →
     verify w = (Throw (UnauthorizedException failure), w))
  ∧ (∀ o w', verify w = (o, w') →
       w' = w ∧ (returns o ∨ o = Throw (UnauthorizedException failure))).
Proof.
  intros verify. subst verify.
  unfold jwtVerify, ConfigService.getOrThrow, ConfigService.get, accepts, liveAt,
    tokenType, expiryOf.
  unfoldM. simpl.
  destruct (config w !! secretKey) as [secret|] eqn:Hsecret; simpl.
  2:{ split_and!.
      - intros payload. split; [done|]. by intros (j & s' & _ & _ & ? & _).
      - done.
      - intros o w' [= <- <-]. auto. }
  destruct token as [raw|j]; simpl.
  { split_and!.
    - intros payload. split; [done|]. by intros (j & s' & ? & _).
    - done.
    - intros o w' [= <- <-]. auto. }
  destruct (decide (secret = "")) as [Hempty|Hempty].
  { rewrite bool_decide_eq_true_2 by done. split_and!.
    - intros payload. split; [done|].
      intros (j' & s' & _ & _ & [= <-] & Hne & _). done.
    - done.
    - intros o w' [= <- <-]. auto. }
  rewrite (bool_decide_eq_false_2 (secret = "")) by done.
  destruct (decide (sealedWith j = secret)) as [Hseal|Hseal].
  2:{ rewrite bool_decide_eq_true_2 by done. split_and!.
      - intros payload. split; [done|].
        intros (j' & s' & [= <-] & _ & [= <-] & _ & Hs & _). done.
      - done.
      - intros o w' [= <- <-]. auto. }
  rewrite (bool_decide_eq_false_2 (sealedWith j ≠ secret)) by (by intros []).
  destruct (exp j) as [e|] eqn:He;
    [destruct (decide (e <= now w / 1000)) as [Hdead|Hlive]|].
  { rewrite bool_decide_eq_true_2 by done. split_and!.
    - intros payload. split; [done|].
      intros (j' & s' & [= <-] & _ & _ & _ & _ & _ & Hl).
      specialize (Hl e eq_refl). lia.
    - done.
    - intros o w' [= <- <-]. auto. }
  1: rewrite (bool_decide_eq_false_2 (e <= now w / 1000)) by done.
  all: assert (∀ e', exp j = Some e' → now w / 1000 < e') as Halive
    by (intros e'; rewrite He; intros ?; simplify_eq; lia).
  all: destruct (decide (JS.prop "type" (claims j) = Some kind)) as [Hkind|Hkind];
    [rewrite bool_decide_eq_false_2 by (by intros [])
    |rewrite bool_decide_eq_true_2 by done].
  all: split_and!.
  all: try done.
  all: try (intros o w' [= <- <-]; split; [done|]; (by left; eexists) || by right).
  all: try (intros payload; split; [done|];
            by intros (j' & s' & [= <-] & _ & _ & _ & _ & ? & _)).
  all: try (intros payload; split;
            [ intros [= <-]; exists j, secret; split_and!; try done;
              intros ? ?; simplify_eq; lia
            | by intros (j' & s' & [= <-] & -> & _) ]).
  all: intros Hnone; exfalso; apply (Hnone (claims j)); exists j, secret;
    split_and!; try done; intros ? ?; simplify_eq; lia.
Qed.

(** X1. Each verifier returns the payload of a token exactly when the token
    is well formed, sealed with the non-empty secret configured for its
    kind, carries that kind as its type and is not expired; in every other
    case it throws the one unauthorized error of its kind, whatever the
    cause. It never writes. *)
Theorem verifiers_accept_exactly_their_tokens (token : Token) (w : World) :
  (∀ payload,
     verifyAccessToken token w = (Return payload, w)
     ↔ accepts "JWT_ACCESS_SECRET" "access" token w payload)
  ∧ (∀ payload,
       verifyRefreshToken token w = (Return payload, w)
       ↔ accepts "JWT_REFRESH_SECRET" "refresh" token w payload)
  ∧ (∀ payload,
       verifySignupToken token w = (Return payload, w)
       ↔ accepts "JWT_SIGNUP_SECRET" "signup" token w payload)
  ∧ (∀ o w', verifyAccessToken token w = (o, w') →
       w' = w
       ∧ (returns o ∨ o = Throw (UnauthorizedException "Invalid or expired access token")))
  ∧ (∀ o w', verifyRefreshToken token w = (o, w') →
       w' = w
       ∧ (returns o ∨ o = Throw (UnauthorizedException "Invalid or expired refresh token")))
  ∧ (∀ o w', verifySignupToken token w = (o, w') →
       w' = w
       ∧ (returns o ∨ o = Throw (UnauthorizedException "Invalid or expired signup token"))).
Proof.
  split_and!.
  - apply (verify_shape "JWT_ACCESS_SECRET" "access" "Invalid or expired access token").
  - apply (verify_shape "JWT_REFRESH_SECRET" "refresh" "Invalid or expired refresh token").
  - apply (verify_shape "JWT_SIGNUP_SECRET" "signup" "Invalid or expired signup token").
  - apply (verify_shape "JWT_ACCESS_SECRET" "access" "Invalid or expired access token").
  - apply (verify_shape "JWT_REFRESH_SECRET" "refresh" "Invalid or expired refresh token").
  - apply (verify_shape "JWT_SIGNUP_SECRET" "signup" "Invalid or expired signup token").
Qed.

Lemma generateAccessToken_inv user w token w' :
  generateAccessToken ms user w = (Return token, w') →
  w' = w
  ∧ ∃ secret e,
      config w !! "JWT_ACCESS_SECRET" = Some secret ∧ secret ≠ ""
      ∧ token = Signed (mkJwt [("sub", User.id user); ("email", User.email user);
                               ("type", "access")]
                          (now w / 1000) (Some e) secret).
Proof.
  unfold generateAccessToken, jwtSign, ConfigService.getOrThrow, ConfigService.get.
  unfoldM. simpl. intros H.
  destruct (config w !! "JWT_ACCESS_SECRET") as [secret|] eqn:Hsecret; [|done].
  case_bool_decide as Hempty; [done|].
  destruct (ms _) as [span|]; [|done].
  simplify_eq. split; [done|]. by eexists _, _.
Qed.

Lemma verifyAccessToken_other_type token w :
  tokenType token ≠ Some "access" →
  verifyAccessToken token w
  = (Throw (UnauthorizedException "Invalid or expired access token"), w).
Proof.
  intros Htype.
  apply (verify_shape "JWT_ACCESS_SECRET" "access" "Invalid or expired access token").
  by intros payload (j & secret & _ & _ & _ & _ & _ & ? & _).
Qed.

(** X2. An access token issued by [generateAccessToken], verified by
    [verifyAccessToken] under the same configuration before it expires,
    yields the user's id as [sub] and the user's email. It is refused by the
    refresh and by the signup verifier whatever the secrets and the clock
    are, and the access verifier refuses every token whose type is not
    access: no token of one kind passes for another. *)
Theorem access_token_round_trip_and_type_separation :
  (∀ user w token w1 w2,
     generateAccessToken ms user w = (Return token, w1) →
     config w2 = config w →
     liveAt (now w2) token →
     ∃ payload,
       verifyAccessToken token w2 = (Return payload, w2)
       ∧ JS.prop "sub" payload = Some (User.id user)
       ∧ JS.prop "email" payload = Some (User.email user))
  ∧ (∀ user w token w1 w2,
       generateAccessToken ms user w = (Return token, w1) →
       verifyRefreshToken token w2
       = (Throw (UnauthorizedException "Invalid or expired refresh token"), w2)
       ∧ verifySignupToken token w2
         = (Throw (UnauthorizedException "Invalid or expired signup token"), w2))
  ∧ (∀ token w,
       tokenType token ≠ Some "access" →
       verifyAccessToken token w
       = (Throw (UnauthorizedException "Invalid or expired access token"), w)).
Proof.
  split_and!.
  - intros user w token w1 w2 Hissue Hcfg Hlive.
    apply generateAccessToken_inv in Hissue as (-> & secret & e & Hsecret & Hne & ->).
    eexists. split.
    { apply (verify_shape "JWT_ACCESS_SECRET" "access" "Invalid or expired access token").
      eexists _, secret. rewrite Hcfg. done. }
    done.
  - intros user w token w1 w2 Hissue.
    apply generateAccessToken_inv in Hissue as (-> & secret & e & _ & _ & ->).
    split; [by apply verifyRefreshToken_other_type | by apply verifySignupToken_other_type].
  - apply verifyAccessToken_other_type.
Qed.

(** *** More of issuance *)

Lemma find_app_fresh_session id rows row :
  id ∉ RefreshToken.id <$> rows →
  RefreshToken.id row = id →
  List.find (Prisma.refreshToken.byId id) rows = None
  ∧ List.find (Prisma.refreshToken.byId id) (rows ++ [row]) = Some row.
Proof.
  intros Hfresh Hid.
  assert (List.find (Prisma.refreshToken.byId id) rows = None) as Hnone.
  { destruct (List.find _ rows) as [r|] eqn:Hfind; [|done].
    apply List.find_some in Hfind as [Hin Hr]. exfalso. apply Hfresh.
    apply list_elem_of_fmap. exists r. split; [|by apply list_elem_of_In].
    symmetry. by apply bool_decide_eq_true_1 in Hr. }
  split; [done|]. induction rows as [|r rows IH]; simpl.
  - unfold Prisma.refreshToken.byId. by rewrite bool_decide_eq_true_2.
  - simpl in Hnone. destruct (Prisma.refreshToken.byId id r) eqn:Hr; [done|].
    apply IH; [|done]. intros Hin. apply Hfresh. rewrite fmap_cons. by right.
Qed.

(** The token that [generateRefreshToken] returns, and the error it throws. *)
Lemma generateRefreshToken_shape userId w o w' :
  generateRefreshToken ms userId w = (o, w') →
  match o with
  | Return issued =>
      ∃ secret e,
        config w !! "JWT_REFRESH_SECRET" = Some secret ∧ secret ≠ ""
        ∧ Issued.token issued
          = Signed (mkJwt [("sub", userId); ("tokenId", Issued.tokenId issued);
                           ("type", "refresh")]
                      (now w / 1000) (Some e) secret)
        ∧ userId ∈ User.id <$> users (db w)
  | Throw e => e = InternalServerErrorException "Failed to generate refresh token"
  end.
Proof.
  unfold generateRefreshToken, jwtSign, Prisma.refreshToken.create, freshId,
    ConfigService.getOrThrow, ConfigService.get, ConfigService.getOr.
  unfoldM. simpl. intros H.
  repeat first [case_bool_decide | case_match]; simplify_eq/=;
    repeat match goal with
           | Hrt : Prisma.roundTrip _ = _ |- _ =>
               apply roundTrip_inv in Hrt as (Hdb & Hnow & Hcfg & _ & _ & _);
               simpl in Hdb, Hnow, Hcfg
           end;
    try rewrite Hdb in *; try done.
  all: eexists _, _; split_and!; try done; by apply dec_stable.
Qed.

(** X3. [generateRefreshToken] returns a token only once its record is
    stored: the record under the returned tokenId did not exist before,
    belongs to an existing user, is not revoked, was created now and holds
    the returned token and expiry; and the token verifies, while live, to a
    payload that names that tokenId and the user. When it throws, it throws
    the internal-server-error and has stored nothing. *)
Theorem refresh_token_is_persisted_and_verifies (userId : string) (w : World) o w' :
  generateRefreshToken ms userId w = (o, w') →
  match o with
  | Return issued =>
      sessionOf (Issued.tokenId issued) (db w) = None
      ∧ sessionOf (Issued.tokenId issued) (db w')
        = Some (RefreshToken.mk (Issued.tokenId issued) (Issued.token issued) userId
                  false (Issued.expiresAt issued) (now w))
      ∧ is_Some (userById userId (db w))
      ∧ users (db w') = users (db w)
      ∧ signupAttempts (db w') = signupAttempts (db w)
      ∧ ∀ w2, config w2 = config w → liveAt (now w2) (Issued.token issued) →
          ∃ payload,
            verifyRefreshToken (Issued.token issued) w2 = (Return payload, w2)
            ∧ JS.prop "tokenId" payload = Some (Issued.tokenId issued)
            ∧ JS.prop "sub" payload = Some userId
  | Throw e =>
      e = InternalServerErrorException "Failed to generate refresh token"
      ∧ db w' = db w
  end.
Proof.
  intros Hrun. pose proof Hrun as Hshape. pose proof Hrun as Hinv.
  apply generateRefreshToken_shape in Hshape.
  apply generateRefreshToken_inv in Hinv as (_ & _ & Hinv).
  destruct o as [issued|e]; [|by destruct Hinv].
  destruct Hinv as (Hfresh & Hdb).
  destruct Hshape as (secret & e & Hsecret & Hne & Htoken & Huser).
  destruct (find_app_fresh_session (Issued.tokenId issued) (refreshTokens (db w))
              (RefreshToken.mk (Issued.tokenId issued) (Issued.token issued) userId false
                 (Issued.expiresAt issued) (now w)) Hfresh eq_refl) as [Hnone Hsome].
  unfold sessionOf. rewrite Hdb. simpl. split_and!; try done.
  - unfold userById. apply list_elem_of_fmap in Huser as (u & -> & Hu).
    destruct (List.find _ (users (db w))) as [u'|] eqn:Hfind; [by eexists|].
    apply list_elem_of_In in Hu.
    pose proof (List.find_none _ _ Hfind u Hu) as Hno. simpl in Hno.
    by rewrite bool_decide_eq_true_2 in Hno.
  - intros w2 Hcfg Hlive. rewrite Htoken in *. eexists. split.
    { apply (verify_shape "JWT_REFRESH_SECRET" "refresh" "Invalid or expired refresh token").
      eexists _, secret. rewrite Hcfg. done. }
    done.
Qed.

(** *** getAccessTokenExpiryInSeconds *)

Lemma slice_snoc (count : string) (unit : ascii) :
  JS.sliceInit (count +:+ String unit "") = count
  ∧ JS.sliceLast (count +:+ String unit "") = String unit "".
Proof.
  induction count as [|c count [IHinit IHlast]]; [done|].
  simpl. destruct (count +:+ String unit "") eqn:Hrest.
  - by destruct count.
  - by rewrite IHinit, IHlast.
Qed.

Lemma plusLocal_inv tz t span deadline :
  JS.plusLocal tz t span = Some deadline →
  Z.abs deadline <= JS.maxTime
  ∧ deadline = t + tz t true + span - tz (t + tz t true + span) false.
Proof.
  unfold JS.plusLocal, JS.timeClip, JS.utc, JS.localTime.
  case_bool_decide; [|done]. by intros [= <-].
Qed.

Lemma roundToDouble_exact z : Z.abs z <= 2 ^ 53 → JS.roundToDouble z = JS.Finite z.
Proof. intros Hz. unfold JS.roundToDouble. by rewrite bool_decide_eq_true_2. Qed.

Lemma times_exact z k :
  Z.abs (z * k) <= 2 ^ 53 → JS.times (Some (JS.Finite z)) k = Some (JS.Finite (z * k)).
Proof. intros Hz. simpl. by rewrite roundToDouble_exact. Qed.

(** X4. [getAccessTokenExpiryInSeconds] never throws and writes nothing.
    With the key absent, and for the empty string, it returns 900. For a
    configured span made of a count and a final unit character other than
    [s], [m], [h] and [d] it returns 900 whatever the count is. For one of
    these four units it returns the count, as [parseInt] reads it, taken as
    a double and multiplied by the factors of the unit one after the other,
    each product rounded to a double: NaN for a count that is no number, and
    exactly the count times the seconds of the unit when that product is no
    more than 2^53 in magnitude. *)
Theorem accessTokenExpiry_by_unit (w : World) :
  (config w !! "JWT_ACCESS_EXPIRY" = None →
   getAccessTokenExpiryInSeconds w = (Return (Some (JS.Finite 900)), w))
  ∧ (config w !! "JWT_ACCESS_EXPIRY" = Some "" →
     getAccessTokenExpiryInSeconds w = (Return (Some (JS.Finite 900)), w))
  ∧ (∀ count unit,
       config w !! "JWT_ACCESS_EXPIRY" = Some (count +:+ String unit "") →
       ∃ result,
         getAccessTokenExpiryInSeconds w = (Return result, w)
         ∧ match secondsPer unit with
           | None => result = Some (JS.Finite 900)
           | Some seconds =>
               result = foldl JS.times (JS.toNumber (JS.parseInt count)) (factorsOf unit)
               ∧ (JS.parseInt count = None → result = None)
               ∧ (∀ v, JS.parseInt count = Some v →
                       Z.abs (v * seconds) <= 2 ^ 53 →
                       result = Some (JS.Finite (v * seconds)))
           end).
Proof.
  unfold getAccessTokenExpiryInSeconds, ConfigService.getOr. unfoldM. simpl.
  split_and!.
  - by intros ->.
  - by intros ->.
  - intros count unit ->. simpl.
    destruct (slice_snoc count unit) as [-> ->]. unfold secondsPer, factorsOf.
    eexists. split; [reflexivity|].
    repeat case_bool_decide; simplify_eq; try done.
    all: (split_and!; [done | by intros ->|]); intros v -> Hv; unfold JS.toNumber;
      cbn [fmap option_fmap option_map].
    + rewrite roundToDouble_exact by lia. do 2 f_equal. lia.
    + rewrite roundToDouble_exact, times_exact by lia. done.
    + rewrite roundToDouble_exact, !times_exact by lia. do 2 f_equal. lia.
    + rewrite roundToDouble_exact, !times_exact by lia. do 2 f_equal. lia.
Qed.

(** *** More of refreshApplication *)

Lemma run_bind {A B} (m : M A) (k : A → M B) w :
  (m ≫= k) w
  = match m w with
    | (Return a, w1) => k a w1
    | (Throw e, w1) => (Throw e, w1)
    end.
Proof. done. Qed.

Lemma run_tryCatch {A} (body : M A) (handler : Exn → M A) w :
  tryCatch body handler w
  = match body w with
    | (Throw e, w1) => handler e w1
    | (Return a, w1) => (Return a, w1)
    end.
Proof. unfold tryCatch. by destruct (body w) as [[a|e] w1]. Qed.

Lemma rotateRefreshToken_throws oldTokenId userId w e w' :
  rotateRefreshToken ms oldTokenId userId w = (Throw e, w') →
  e = InternalServerErrorException "Failed to rotate refresh token".
Proof.
  unfold rotateRefreshToken. rewrite run_tryCatch.
  match goal with |- match ?body w with _ => _ end = _ → _ => destruct (body w) as [[r|e1] w1] end;
    by intros [= <- <-].
Qed.

Lemma generateAccessToken_pure user w : snd (generateAccessToken ms user w) = w.
Proof.
  unfold generateAccessToken, jwtSign, ConfigService.getOrThrow, ConfigService.get.
  unfoldM. simpl. cases.
Qed.

Lemma getAccessTokenExpiryInSeconds_pure w :
  ∃ n, getAccessTokenExpiryInSeconds w = (Return n, w).
Proof.
  unfold getAccessTokenExpiryInSeconds, ConfigService.getOr. unfoldM. simpl. eauto.
Qed.

(** The run of [shouldRotateRefreshToken], outages included: it throws only
    when the database is unreachable, and writes nothing. *)
Lemma shouldRotateRefreshToken_inv tokenId w o w' :
  shouldRotateRefreshToken tokenId w = (o, w') →
  db w' = db w ∧ now w' = now w ∧ config w' = config w
  ∧ match o with
    | Return b =>
        b = true ↔ ∃ r, sessionOf tokenId (db w) = Some r ∧ rotationDue w r
    | Throw e => e = Prisma.P1001
    end.
Proof.
  unfold shouldRotateRefreshToken, Prisma.refreshToken.findUnique, ConfigService.getOr,
    sessionOf, rotationDue, rotationDays.
  unfoldM.
  destruct (Prisma.roundTrip w) as [o1 w1] eqn:Hrt.
  apply roundTrip_inv in Hrt as (Hdb & Hnow & Hcfg & _ & _ & [-> | ->]); simpl;
    [|by intros [= <- <-]].
  rewrite Hdb.
  destruct (List.find _ _) as [r|] eqn:Hfind; intros [= <- <-]; split_and!; try done.
  - rewrite Hnow, Hcfg. destruct (JS.parseInt _) as [d|] eqn:Hdays.
    + pose proof (daysSinceCreation_ge d (now w - RefreshToken.createdAt r)) as Hge.
      split.
      * intros Hage. exists r. split; [done|]. exists d. split; [done|]. by apply Hge.
      * intros (r' & [= <-] & d' & [= <-] & Hage). by apply Hge.
    + split; [done|]. by intros (r' & _ & d' & ? & _).
  - split; [done|]. by intros (r' & ? & _).
Qed.

Lemma findUniqueWithUser_inv tokenId w o w' :
  Prisma.refreshToken.findUniqueWithUser tokenId w = (o, w') →
  db w' = db w ∧ now w' = now w ∧ config w' = config w
  ∧ (o = Return ((λ r, (r, userById (RefreshToken.userId r) (db w)))
                   <$> sessionOf tokenId (db w))
     ∨ o = Throw Prisma.P1001).
Proof.
  unfold Prisma.refreshToken.findUniqueWithUser, sessionOf, userById. unfoldM.
  destruct (Prisma.roundTrip w) as [o1 w1] eqn:Hrt.
  apply roundTrip_inv in Hrt as (Hdb & Hnow & Hcfg & _ & _ & [-> | ->]); simpl;
    intros [= <- <-]; rewrite ?Hdb; auto.
Qed.

(** What follows the checks of [refreshApplication]: the access token, the
    seconds, the rotation when due, the success. *)
Lemma refresh_tail_inv (user : User.t) (tokenId : string) w o w' :
  (accessToken ← generateAccessToken ms user;
   expiresIn ← getAccessTokenExpiryInSeconds;
   shouldRotate ← shouldRotateRefreshToken tokenId;
   newRefreshToken ←
     (if shouldRotate : bool
      then rotated ← rotateRefreshToken ms tokenId (User.id user);
           mret (Some (fst rotated))
      else mret None);
   let userData :=
     UserDataDto.mk (User.id user) (User.email user) (User.firstName user)
       (User.lastName user) (User.emailVerified user) (User.status user) in
   mret (RefreshSuccess accessToken userData expiresIn newRefreshToken)) w = (o, w') →
  match o with
  | Return dto =>
      ∃ accessToken expiresIn newRefreshToken,
        dto = RefreshSuccess accessToken (userDataOf user) expiresIn newRefreshToken
        ∧ fst (generateAccessToken ms user w) = Return accessToken
        ∧ match newRefreshToken with
          | None =>
              db w' = db w
              ∧ ¬ ∃ r, sessionOf tokenId (db w) = Some r ∧ rotationDue w r
          | Some token =>
              (∃ r, sessionOf tokenId (db w) = Some r ∧ rotationDue w r)
              ∧ ∃ row,
                  db w' = setRefreshTokens
                            (revokedIn tokenId (refreshTokens (db w)) ++ [row]) (db w)
                  ∧ RefreshToken.token row = token
                  ∧ tokenType token = Some "refresh"
                  ∧ RefreshToken.userId row = User.id user
                  ∧ RefreshToken.revoked row = false
                  ∧ RefreshToken.createdAt row = now w
                  ∧ RefreshToken.id row ∉ RefreshToken.id <$> refreshTokens (db w)
          end
  | Throw e =>
      db w' = db w
      ∨ e = InternalServerErrorException "Failed to rotate refresh token"
        ∧ (∃ r, sessionOf tokenId (db w) = Some r ∧ rotationDue w r)
        ∧ db w' = setRefreshTokens (revokedIn tokenId (refreshTokens (db w))) (db w)
  end.
Proof.
  rewrite run_bind.
  pose proof (generateAccessToken_pure user w) as Hpure.
  destruct (generateAccessToken ms user w) as [[accessToken|e] w1] eqn:Haccess;
    simpl in Hpure; subst w1; [|intros [= <- <-]; by left].
  rewrite run_bind.
  destruct (getAccessTokenExpiryInSeconds_pure w) as [expiresIn ->].
  rewrite run_bind.
  destruct (shouldRotateRefreshToken tokenId w) as [[b|e] w2] eqn:Hdue;
    apply shouldRotateRefreshToken_inv in Hdue as (Hdb2 & Hnow2 & Hcfg2 & Hdue);
    [|intros [= <- <-]; by left].
  rewrite run_bind. destruct b.
  - rewrite run_bind.
    destruct (rotateRefreshToken ms tokenId (User.id user) w2) as [[rotated|e] w3] eqn:Hrot.
    + apply rotateRefreshToken_inv in Hrot. destruct Hrot as (r & w21 & issued & Hrevoke & Hissue & ->).
      apply refreshToken_update_inv in Hrevoke as (Hnow21 & _ & old & _ & _ & Hdb21).
      pose proof (generateRefreshToken_type _ _ _ _ Hissue) as Htype.
      apply generateRefreshToken_inv in Hissue as (_ & _ & Hfresh & Hdb3).
      intros [= <- <-]. eexists _, _, _. split; [done|]. split; [done|]. simpl.
      split; [by apply Hdue|].
      eexists. rewrite Hdb3, Hdb21, Hdb2, Hnow21, Hnow2. simpl.
      split_and!; try done.
      rewrite Hdb21, Hdb2 in Hfresh. simpl in Hfresh.
      fold (revokedIn tokenId (refreshTokens (db w))) in Hfresh.
      by rewrite revokedIn_ids in Hfresh.
    + intros [= <- <-]. pose proof (rotateRefreshToken_throws _ _ _ _ _ Hrot) as ->.
      apply rotateRefreshToken_inv in Hrot.
      destruct Hrot as [(e1 & Hrevoke) | (r & w21 & e1 & Hrevoke & Hissue)].
      * apply refreshToken_update_inv in Hrevoke as (_ & _ & ->). by left.
      * apply refreshToken_update_inv in Hrevoke as (_ & _ & old & _ & _ & Hdb21).
        apply generateRefreshToken_inv in Hissue as (_ & _ & -> & _).
        right. split; [done|]. split; [by apply Hdue|]. by rewrite Hdb21, Hdb2.
  - intros [= <- <-]. eexists _, _, None. split; [done|]. split; [done|].
    split; [done|]. intros Hyes. by apply Hdue in Hyes.
Qed.

Lemma generateAccessToken_env user w1 w :
  now w1 = now w → config w1 = config w →
  fst (generateAccessToken ms user w1) = fst (generateAccessToken ms user w).
Proof.
  unfold generateAccessToken, jwtSign, ConfigService.getOrThrow, ConfigService.get.
  intros Hnow Hconfig. unfoldM. simpl. rewrite Hconfig.
  destruct (config w !! "JWT_ACCESS_SECRET") as [secret|]; simpl; [|done].
  rewrite Hnow, Hconfig. cases.
Qed.

Lemma verifyRefreshToken_cases token w :
  (∃ payload, verifyRefreshToken token w = (Return payload, w)
              ∧ accepts "JWT_REFRESH_SECRET" "refresh" token w payload)
  ∨ (verifyRefreshToken token w
     = (Throw (UnauthorizedException "Invalid or expired refresh token"), w)
     ∧ ∀ payload, ¬ accepts "JWT_REFRESH_SECRET" "refresh" token w payload).
Proof.
  destruct (verify_shape "JWT_REFRESH_SECRET" "refresh" "Invalid or expired refresh token"
              token w) as (Hiff & _ & Hshape).
  fold (verifyRefreshToken token) in Hiff, Hshape.
  destruct (verifyRefreshToken token w) as [o w1] eqn:Hrun.
  destruct (Hshape o w1 eq_refl) as [-> [[payload ->] | ->]].
  - left. exists payload. split; [done|]. by apply Hiff.
  - right. split; [done|]. intros payload Hacc. by apply Hiff in Hacc.
Qed.

(** Every run of [refreshApplication]: it returns; a success is the refresh
    of a live session, with the rotation made exactly when it was due; a
    failure redirects to the login page and leaves the tables as they were,
    but for the session it may have revoked on the way to a failed rotation. *)
Lemma refreshApplication_inv refreshToken w o w' :
  refreshApplication ms refreshToken w = (o, w') →
  ∃ dto, o = Return dto
  ∧ match dto with
    | RefreshSuccess accessToken user expiresIn newRefreshToken =>
        ∃ token tokenId record owner,
          refreshToken = Some token
          ∧ liveSession token w tokenId record owner
          ∧ user = userDataOf owner
          ∧ fst (generateAccessToken ms owner w) = Return accessToken
          ∧ match newRefreshToken with
            | None => db w' = db w ∧ ¬ rotationDue w record
            | Some new =>
                rotationDue w record
                ∧ ∃ row,
                    db w' = setRefreshTokens
                              (revokedIn tokenId (refreshTokens (db w)) ++ [row]) (db w)
                    ∧ RefreshToken.token row = new
                    ∧ tokenType new = Some "refresh"
                    ∧ RefreshToken.userId row = User.id owner
                    ∧ RefreshToken.revoked row = false
                    ∧ RefreshToken.createdAt row = now w
                    ∧ RefreshToken.id row ∉ RefreshToken.id <$> refreshTokens (db w)
            end
    | RefreshFailure message redirectTo =>
        redirectTo = "/login"
        ∧ (db w' = db w
           ∨ message = "An error occurred"
             ∧ ∃ token tokenId record owner,
                 refreshToken = Some token
                 ∧ liveSession token w tokenId record owner
                 ∧ rotationDue w record
                 ∧ db w' = setRefreshTokens
                             (revokedIn tokenId (refreshTokens (db w))) (db w))
    end.
Proof.
  destruct refreshToken as [[[|c raw]|j]|]; unfold refreshApplication; cbv beta iota.
  1, 4: by intros [= <- <-]; eexists; split; [done|]; simpl; auto.
  - rewrite run_tryCatch, run_bind.
    destruct (verifyRefreshToken_cases (Malformed (String c raw)) w)
      as [(payload & _ & (j & ? & ? & _)) | [-> _]]; [done|].
    intros [= <- <-]. eexists. split; [done|]. simpl. auto.
  - set (token := Signed j).
    rewrite run_tryCatch, run_bind.
    destruct (verifyRefreshToken_cases token w) as [(payload & -> & Hacc) | [-> _]].
    2:{ intros [= <- <-]. eexists. split; [done|]. simpl. auto. }
    destruct (JS.prop "tokenId" payload) as [tokenId|] eqn:Hid.
    2:{ intros [= <- <-]. eexists. split; [done|]. simpl. auto. }
    rewrite run_bind.
    destruct (Prisma.refreshToken.findUniqueWithUser tokenId w) as [o1 w1] eqn:Hfind.
    apply findUniqueWithUser_inv in Hfind as (Hdb1 & Hnow1 & Hcfg1 & [-> | ->]).
    2:{ intros [= <- <-]. eexists. split; [done|]. simpl. auto. }
    destruct (sessionOf tokenId (db w)) as [record|] eqn:Hrecord; simpl.
    2:{ intros [= <- <-]. eexists. split; [done|]. simpl. auto. }
    destruct (RefreshToken.revoked record) eqn:Hrevoked.
    { intros [= <- <-]. eexists. split; [done|]. simpl. auto. }
    rewrite run_bind. unfold gets at 1.
    case_bool_decide as Hexpired.
    { intros [= <- <-]. eexists. split; [done|]. simpl. auto. }
    destruct (userById (RefreshToken.userId record) (db w)) as [owner|] eqn:Howner.
    2:{ intros [= <- <-]. eexists. split; [done|]. simpl. auto. }
    case_bool_decide as Hactive.
    { intros [= <- <-]. eexists. split; [done|]. simpl. auto. }
    assert (liveSession token w tokenId record owner) as Hlive.
    { exists payload. split_and!; try done. lia. }
    assert (∀ r, sessionOf tokenId (db w1) = Some r ∧ rotationDue w1 r
                 ↔ r = record ∧ rotationDue w record) as Hdue.
    { intros r. unfold rotationDue, rotationDays. rewrite Hdb1, Hnow1, Hcfg1, Hrecord.
      split; [by intros [[= ->] ?]|by intros [-> ?]]. }
    match goal with
    | |- match ?tail w1 with _ => _ end = _ → _ =>
        destruct (tail w1) as [o2 w2] eqn:Htail
    end.
    apply refresh_tail_inv in Htail.
    destruct o2 as [dto|e].
    + intros [= <- <-]. eexists. split; [done|].
      destruct Htail as (accessToken & expiresIn & newRefreshToken & -> & Haccess & Hnew).
      exists token, tokenId, record, owner. split_and!; try done.
      { by rewrite <- (generateAccessToken_env owner w1 w). }
      destruct newRefreshToken as [new|].
      * destruct Hnew as ((r & Hr) & row & Hrow). apply Hdue in Hr as [-> Hr].
        split; [done|]. exists row. by rewrite <- Hdb1, <- Hnow1.
      * destruct Hnew as [Hsame Hnot]. split; [congruence|].
        intros Hyes. apply Hnot. exists record. by apply Hdue.
    + destruct Htail as [Hsame | (-> & (r & Hr) & Hrevokedonly)].
      * destruct e; intros [= <- <-]; (eexists; split; [done|]); simpl;
          (split; [done|]); left; congruence.
      * intros [= <- <-]. eexists. split; [done|]. simpl. split; [done|].
        right. apply Hdue in Hr as [-> Hr]. split; [done|].
        exists token, tokenId, record, owner. split_and!; try done. by rewrite <- Hdb1.
Qed.

Lemma liveSession_names token w tokenId record owner :
  liveSession token w tokenId record owner →
  namedSession token = Some tokenId
  ∧ sessionOf tokenId (db w) = Some record
  ∧ RefreshToken.revoked record = false
  ∧ User.id owner = RefreshToken.userId record.
Proof.
  intros (payload & (j & secret & -> & -> & _) & Hid & Hrecord & Hrevoked & _ & Howner & _).
  split_and!; try done.
  apply List.find_some in Howner as [_ Hid']. by apply bool_decide_eq_true_1 in Hid'.
Qed.

(** A token whose session is not open, no record or a revoked one, is
    refused, and nothing is written. *)
Lemma refreshApplication_refuses token w o w' :
  (∀ tokenId record,
     namedSession token = Some tokenId → sessionOf tokenId (db w) = Some record →
     RefreshToken.revoked record = true) →
  refreshApplication ms (Some token) w = (o, w') →
  refused o ∧ db w' = db w.
Proof.
  intros Hclosed Hrun.
  apply refreshApplication_inv in Hrun as (dto & -> & Hdto).
  assert (∀ t tokenId record owner,
            Some token = Some t → liveSession t w tokenId record owner → False) as Hno.
  { intros t tokenId record owner [= <-] Hlive.
    apply liveSession_names in Hlive as (Hname & Hrecord & Hrevoked & _).
    specialize (Hclosed tokenId record Hname Hrecord). congruence. }
  destruct dto as [accessToken user expiresIn newRefreshToken | message redirectTo].
  - destruct Hdto as (t & tokenId & record & owner & Ht & Hlive & _). by destruct (Hno _ _ _ _ Ht Hlive).
  - destruct Hdto as [-> [Hsame | (_ & t & tokenId & record & owner & Ht & Hlive & _)]].
    + split; [by exists message|done].
    + by destruct (Hno _ _ _ _ Ht Hlive).
Qed.

Lemma find_byId_fmap (f : RefreshToken.t → RefreshToken.t) id rows :
  (∀ r, RefreshToken.id (f r) = RefreshToken.id r) →
  List.find (Prisma.refreshToken.byId id) (f <$> rows)
  = f <$> List.find (Prisma.refreshToken.byId id) rows.
Proof.
  intros Hid. induction rows as [|r rows IH]; [done|]. simpl.
  unfold Prisma.refreshToken.byId at 1 3. rewrite Hid.
  by destruct (bool_decide (RefreshToken.id r = id)).
Qed.

(** X5. [refreshApplication] never throws: every run returns a response.
    It returns a success only for a live session (a token the refresh
    verifier accepts, naming a stored record that is neither revoked nor
    expired, of a stored ACTIVE user), and then the user it reports is that
    session's owner and the access token is the one issued for that owner.
    Every failure redirects to the login page. *)
Theorem refresh_returns_and_succeeds_only_for_a_live_session
    (refreshToken : option Token) (w : World) o w' :
  refreshApplication ms refreshToken w = (o, w') →
  ∃ dto, o = Return dto
  ∧ match dto with
    | RefreshSuccess accessToken user expiresIn newRefreshToken =>
        ∃ token tokenId record owner,
          refreshToken = Some token
          ∧ liveSession token w tokenId record owner
          ∧ user = userDataOf owner
          ∧ fst (generateAccessToken ms owner w) = Return accessToken
    | RefreshFailure message redirectTo => redirectTo = "/login"
    end.
Proof.
  intros Hrun. apply refreshApplication_inv in Hrun as (dto & -> & Hdto).
  exists dto. split; [done|].
  destruct dto as [accessToken user expiresIn newRefreshToken | message redirectTo].
  - destruct Hdto as (token & tokenId & record & owner & ? & ? & ? & ? & _).
    by exists token, tokenId, record, owner.
  - by destruct Hdto.
Qed.

(** X6. A successful refresh rotates the session exactly when the record's
    age has reached the rotation threshold. Without a new refresh token in
    the response the tables are as they were; with one, the old record is
    revoked and the table has gained one row, not revoked, created now, owned
    by the same user and holding the token the response carries. *)
Theorem refresh_rotates_exactly_when_due (token : Token) (w : World)
    accessToken user expiresIn newRefreshToken w' :
  refreshApplication ms (Some token) w
  = (Return (RefreshSuccess accessToken user expiresIn newRefreshToken), w') →
  ∃ tokenId record,
    namedSession token = Some tokenId
    ∧ sessionOf tokenId (db w) = Some record
    ∧ match newRefreshToken with
      | None => ¬ rotationDue w record ∧ db w' = db w
      | Some new =>
          rotationDue w record
          ∧ ∃ row,
              db w' = setRefreshTokens
                        (revokedIn tokenId (refreshTokens (db w)) ++ [row]) (db w)
              ∧ RefreshToken.token row = new
              ∧ tokenType new = Some "refresh"
              ∧ RefreshToken.userId row = RefreshToken.userId record
              ∧ RefreshToken.revoked row = false
              ∧ RefreshToken.createdAt row = now w
              ∧ RefreshToken.id row ∉ RefreshToken.id <$> refreshTokens (db w)
      end.
Proof.
  intros Hrun. apply refreshApplication_inv in Hrun as (dto & [= <-] & Hdto).
  destruct Hdto as (t & tokenId & record & owner & [= <-] & Hlive & _ & _ & Hnew).
  apply liveSession_names in Hlive as (Hname & Hrecord & _ & Howner).
  exists tokenId, record. split_and!; try done.
  destruct newRefreshToken as [new|].
  - destruct Hnew as (Hdue & row & Hdb & Htoken & Htype & Huser & Hrevoked & Hstamp & Hfresh).
    split; [done|]. exists row. split_and!; try done. congruence.
  - by destruct Hnew.
Qed.

(** X7. A token that a refresh has rotated out is never accepted again: in
    every later state that holds the tables the rotation left, whatever the
    clock, the configuration and the database's health, a refresh with the
    old token is refused and writes nothing. *)
Theorem rotated_out_token_is_refused (token : Token) (w : World)
    accessToken user expiresIn new w' :
  refreshApplication ms (Some token) w
  = (Return (RefreshSuccess accessToken user expiresIn (Some new)), w') →
  ∀ w2 o w3,
    db w2 = db w' →
    refreshApplication ms (Some token) w2 = (o, w3) →
    refused o ∧ db w3 = db w2.
Proof.
  intros Hrun w2 o w3 Hdb2 Hagain.
  apply refreshApplication_inv in Hrun as (dto & [= <-] & Hdto).
  destruct Hdto as (t & tokenId & record & owner & [= <-] & Hlive & _ & _ & _ & row & Hdb & _).
  apply liveSession_names in Hlive as (Hname & Hrecord & _ & _).
  apply (refreshApplication_refuses token w2 o w3); [|done].
  intros tokenId' record' Hname' Hrecord'.
  rewrite Hname in Hname'. injection Hname' as <-.
  unfold sessionOf in *. rewrite Hdb2, Hdb in Hrecord'. simpl in Hrecord'.
  rewrite (revokedIn_find _ _ _ _ Hrecord) in Hrecord'. by injection Hrecord' as <-.
Qed.

(** X8. Revocation closes the session for [refreshApplication]: once
    [revokeRefreshToken] has reached the database, a token naming that
    record is refused in every state holding the tables it left; once
    [revokeAllUserRefreshTokens] has, so is every token naming a record of
    that user. Neither refusal writes. *)
Theorem revoked_sessions_cannot_refresh :
  (∀ tokenId w token w2 o w3,
     fst (Prisma.roundTrip w) = Return () →
     namedSession token = Some tokenId →
     db w2 = db (snd (revokeRefreshToken tokenId w)) →
     refreshApplication ms (Some token) w2 = (o, w3) →
     refused o ∧ db w3 = db w2)
  ∧ (∀ userId w token tokenId record w2 o w3,
       fst (Prisma.roundTrip w) = Return () →
       namedSession token = Some tokenId →
       sessionOf tokenId (db w) = Some record →
       RefreshToken.userId record = userId →
       db w2 = db (snd (revokeAllUserRefreshTokens userId w)) →
       refreshApplication ms (Some token) w2 = (o, w3) →
       refused o ∧ db w3 = db w2).
Proof.
  split.
  - intros tokenId w token w2 o w3 Hup Hname Hdb2 Hrun.
    destruct (revokeRefreshToken_effect tokenId w) as (_ & _ & Hdb & _).
    specialize (Hdb Hup).
    apply (refreshApplication_refuses token w2 o w3); [|done].
    intros tokenId' record' Hname' Hrecord'.
    rewrite Hname in Hname'. injection Hname' as <-.
    unfold sessionOf in Hrecord'. rewrite Hdb2, Hdb in Hrecord'. simpl in Hrecord'.
    unfold revokedIn in Hrecord'. rewrite find_byId_fmap in Hrecord'.
    2:{ intros r. by destruct (Prisma.refreshToken.byId tokenId r). }
    destruct (List.find _ _) as [r|] eqn:Hfind; [|done].
    apply List.find_some in Hfind as [_ Hr]. simpl in Hrecord'. rewrite Hr in Hrecord'.
    by injection Hrecord' as <-.
  - intros userId w token tokenId record w2 o w3 Hup Hname Hrecord Huser Hdb2 Hrun.
    destruct (revokeAll_effect userId w) as (_ & _ & Hdb & _).
    specialize (Hdb Hup).
    apply (refreshApplication_refuses token w2 o w3); [|done].
    intros tokenId' record' Hname' Hrecord'.
    rewrite Hname in Hname'. injection Hname' as <-.
    unfold sessionOf in *. rewrite Hdb2, Hdb in Hrecord'. simpl in Hrecord'.
    rewrite find_byId_fmap in Hrecord'.
    2:{ intros r. by destruct (notRevokedOf userId r). }
    rewrite Hrecord in Hrecord'. simpl in Hrecord'. injection Hrecord' as <-.
    unfold notRevokedOf. rewrite (bool_decide_eq_true_2 _ Huser). simpl.
    case_bool_decide as Hopen; [done|]. by destruct (RefreshToken.revoked record).
Qed.

Lemma verifyRefreshToken_accepted token w payload :
  accepts "JWT_REFRESH_SECRET" "refresh" token w payload →
  verifyRefreshToken token w = (Return payload, w).
Proof.
  apply (verify_shape "JWT_REFRESH_SECRET" "refresh" "Invalid or expired refresh token").
Qed.

Lemma roundTrip_next w rest :
  outages w = false :: rest → Prisma.roundTrip w = (Return (), setOutages rest w).
Proof. unfold Prisma.roundTrip. by intros ->. Qed.

Lemma roundTrip_down w rest :
  outages w = true :: rest → Prisma.roundTrip w = (Throw Prisma.P1001, setOutages rest w).
Proof. unfold Prisma.roundTrip. by intros ->. Qed.

(** X9. A refused refresh names its cause, in the order the checks are
    made: no cookie (or an empty one), a token the verifier does not accept,
    no record, a revoked record (whether or not it has also expired), an
    expired record. None of these writes. When the database cannot be
    reached the answer is the generic error. *)
Theorem refresh_failure_names_its_cause (token : Token) (w : World) :
  refreshApplication ms None w = (Return (RefreshFailure "No session found" "/login"), w)
  ∧ refreshApplication ms (Some (Malformed "")) w
    = (Return (RefreshFailure "No session found" "/login"), w)
  ∧ (token ≠ Malformed "" →
     (∀ payload, ¬ accepts "JWT_REFRESH_SECRET" "refresh" token w payload) →
     refreshApplication ms (Some token) w
     = (Return (RefreshFailure "Invalid or expired refresh token" "/login"), w))
  ∧ (∀ payload tokenId,
       accepts "JWT_REFRESH_SECRET" "refresh" token w payload →
       JS.prop "tokenId" payload = Some tokenId →
       databaseUp w →
       match sessionOf tokenId (db w) with
       | None =>
           refreshApplication ms (Some token) w
           = (Return (RefreshFailure "Invalid session" "/login"), w)
       | Some record =>
           (RefreshToken.revoked record = true →
            refreshApplication ms (Some token) w
            = (Return (RefreshFailure "Session has been revoked" "/login"), w))
           ∧ (RefreshToken.revoked record = false →
              RefreshToken.expiresAt record < now w →
              refreshApplication ms (Some token) w
              = (Return (RefreshFailure "Session has expired" "/login"), w))
       end)
  ∧ (∀ payload tokenId rest,
       accepts "JWT_REFRESH_SECRET" "refresh" token w payload →
       JS.prop "tokenId" payload = Some tokenId →
       outages w = true :: rest →
       refreshApplication ms (Some token) w
       = (Return (RefreshFailure "An error occurred" "/login"), setOutages rest w)).
Proof.
  split_and!; [done|done|..].
  - intros Hnonempty Hrejected.
    destruct (verifyRefreshToken_cases token w) as [(payload & _ & Hacc) | [Hthrow _]];
      [by destruct (Hrejected payload)|].
    destruct token as [[|c raw]|j]; [done|..];
      unfold refreshApplication; cbv beta iota;
      by rewrite run_tryCatch, run_bind, Hthrow.
  - intros payload tokenId Hacc Hid Hup.
    pose proof (verifyRefreshToken_accepted _ _ _ Hacc) as Hverify.
    destruct Hacc as (j & secret & -> & _).
    unfold refreshApplication; cbv beta iota.
    rewrite run_tryCatch, run_bind, Hverify, Hid, run_bind.
    unfold Prisma.refreshToken.findUniqueWithUser, sessionOf. unfoldM.
    rewrite (roundTrip_up w Hup). simpl.
    destruct (List.find _ _) as [record|]; simpl; [|done].
    split.
    + by intros ->.
    + intros -> Hexpired. by rewrite bool_decide_eq_true_2.
  - intros payload tokenId rest Hacc Hid Hdown.
    pose proof (verifyRefreshToken_accepted _ _ _ Hacc) as Hverify.
    destruct Hacc as (j & secret & -> & _).
    unfold refreshApplication; cbv beta iota.
    rewrite run_tryCatch, run_bind, Hverify, Hid, run_bind.
    unfold Prisma.refreshToken.findUniqueWithUser. unfoldM.
    by rewrite (roundTrip_down w rest Hdown).
Qed.

Lemma generateAccessToken_run user w accessToken :
  fst (generateAccessToken ms user w) = Return accessToken →
  generateAccessToken ms user w = (Return accessToken, w).
Proof.
  intros Hrun. rewrite (run_fst _ _ _ Hrun). by rewrite generateAccessToken_pure.
Qed.

(** X10. The converse of X5 where no rotation is due: with the database
    reachable, a live session whose record is younger than the rotation
    threshold is refreshed whenever the access token can be issued. The
    response carries that access token, the owner's summary and no new
    refresh token, and the state is left exactly as it was. *)
Theorem live_session_is_refreshed_in_place (token : Token) (w : World)
    tokenId record owner accessToken :
  liveSession token w tokenId record owner →
  databaseUp w →
  ¬ rotationDue w record →
  fst (generateAccessToken ms owner w) = Return accessToken →
  ∃ expiresIn,
    refreshApplication ms (Some token) w
    = (Return (RefreshSuccess accessToken (userDataOf owner) expiresIn None), w).
Proof.
  intros (payload & Hacc & Hid & Hrecord & Hrevoked & Hlive & Howner & Hactive)
    Hup Hyoung Haccess.
  pose proof (verifyRefreshToken_accepted _ _ _ Hacc) as Hverify.
  destruct Hacc as (j & secret & -> & _).
  destruct (getAccessTokenExpiryInSeconds_pure w) as [expiresIn Hexpiry].
  destruct (shouldRotateRefreshToken_run tokenId w Hup) as (b & Hrun & Hb).
  assert (b = false) as ->.
  { destruct b; [|done]. destruct Hyoung.
    destruct Hb as [(r & d & Hr & Hd & Hage) _]; [done|].
    unfold sessionOf in Hrecord. rewrite Hrecord in Hr. injection Hr as <-. by exists d. }
  exists expiresIn.
  unfold refreshApplication; cbv beta iota.
  rewrite run_tryCatch, run_bind, Hverify, Hid, run_bind.
  unfold Prisma.refreshToken.findUniqueWithUser at 1. unfold sessionOf, userById in *.
  rewrite run_bind, (roundTrip_up w Hup). unfold gets at 1 2. rewrite !run_bind.
  unfold compose. rewrite Hrecord. unfold mret at 1, M_ret at 1. cbn [fmap option_fmap option_map].
  rewrite Howner, Hrevoked. unfold gets at 1. rewrite run_bind. cbv beta iota.
  rewrite bool_decide_eq_false_2 by lia.
  rewrite bool_decide_eq_false_2 by (by intros ?).
  rewrite run_bind, (generateAccessToken_run _ _ _ Haccess).
  rewrite run_bind, Hexpiry, run_bind, Hrun. done.
Qed.

(** *** A rotation that fails half way *)

Lemma findUniqueWithUser_next tokenId w rest :
  outages w = false :: rest →
  Prisma.refreshToken.findUniqueWithUser tokenId w
  = (Return ((λ r, (r, userById (RefreshToken.userId r) (db w)))
               <$> sessionOf tokenId (db w)),
     setOutages rest w).
Proof.
  intros Hnext. unfold Prisma.refreshToken.findUniqueWithUser.
  by rewrite run_bind, (roundTrip_next w rest Hnext).
Qed.

Lemma shouldRotateRefreshToken_next tokenId w rest record :
  outages w = false :: rest →
  sessionOf tokenId (db w) = Some record →
  rotationDue w record →
  shouldRotateRefreshToken tokenId w = (Return true, setOutages rest w).
Proof.
  intros Hnext Hrecord (d & Hdays & Hage).
  unfold shouldRotateRefreshToken, Prisma.refreshToken.findUnique.
  rewrite !run_bind, (roundTrip_next w rest Hnext).
  unfold sessionOf, rotationDays in *. unfold ConfigService.getOr. unfoldM. simpl.
  rewrite Hrecord. simpl. rewrite Hdays. do 2 f_equal.
  by apply (daysSinceCreation_ge d (now w - RefreshToken.createdAt record)).
Qed.

Lemma refreshToken_update_next tokenId w rest record :
  outages w = false :: rest →
  sessionOf tokenId (db w) = Some record →
  Prisma.refreshToken.update tokenId true w
  = (Return (RefreshToken.setRevoked true record),
     setDb (setRefreshTokens (revokedIn tokenId (refreshTokens (db w))) (db w))
       (setOutages rest w)).
Proof.
  intros Hnext Hrecord. unfold Prisma.refreshToken.update.
  rewrite run_bind, (roundTrip_next w rest Hnext).
  unfold sessionOf in Hrecord. unfoldM. simpl. by rewrite Hrecord.
Qed.

Lemma generateRefreshToken_down userId w rest :
  outages w = true :: rest → ¬ returns (fst (generateRefreshToken ms userId w)).
Proof.
  intros Hdown [issued Hissued]. revert Hissued.
  unfold generateRefreshToken, jwtSign, Prisma.refreshToken.create, freshId,
    ConfigService.getOrThrow, ConfigService.get, ConfigService.getOr, Prisma.roundTrip.
  unfoldM. simpl. cases. all: congruence.
Qed.

(** X11. A rotation that fails after its first write costs the session.
    When a live session is due for rotation and the database answers the
    three statements up to the revocation but not the insert that follows,
    [refreshApplication] answers with the generic error and leaves the old
    record revoked with no successor: the token in the caller's hands is
    refused from then on. *)
Theorem failed_rotation_revokes_without_successor (token : Token) (w : World)
    tokenId record owner rest :
  liveSession token w tokenId record owner →
  rotationDue w record →
  returns (fst (generateAccessToken ms owner w)) →
  outages w = false :: false :: false :: true :: rest →
  ∃ w',
    refreshApplication ms (Some token) w
    = (Return (RefreshFailure "An error occurred" "/login"), w')
    ∧ db w' = setRefreshTokens (revokedIn tokenId (refreshTokens (db w))) (db w)
    ∧ ∀ w2 o w3,
        db w2 = db w' →
        refreshApplication ms (Some token) w2 = (o, w3) →
        refused o.
Proof.
  intros Hlive Hdue [accessToken Haccess] Houtages.
  pose proof (liveSession_names _ _ _ _ _ Hlive) as (Hname & _).
  destruct Hlive as (payload & Hacc & Hid & Hrecord & Hrevoked & Hfresh & Howner & Hactive).
  pose proof (verifyRefreshToken_accepted _ _ _ Hacc) as Hverify.
  destruct Hacc as (j & secret & -> & _).
  destruct (getAccessTokenExpiryInSeconds_pure
              (setOutages (false :: false :: true :: rest) w)) as [expiresIn Hexpiry].
  set (w1 := setOutages (false :: false :: true :: rest) w) in *.
  set (w2 := setOutages (false :: true :: rest) w1).
  set (w3 := setDb (setRefreshTokens (revokedIn tokenId (refreshTokens (db w))) (db w))
               (setOutages (true :: rest) w2)).
  destruct (generateRefreshToken ms (User.id owner) w3) as [[issued|e] w4] eqn:Hissue.
  { destruct (generateRefreshToken_down (User.id owner) w3 rest eq_refl).
    exists issued. by rewrite Hissue. }
  pose proof Hissue as Hinv.
  apply generateRefreshToken_inv in Hinv as (_ & _ & Hdb4 & _).
  assert (refreshApplication ms (Some (Signed j)) w
          = (Return (RefreshFailure "An error occurred" "/login"), w4)) as Hrun.
  { unfold refreshApplication; cbv beta iota.
    rewrite run_tryCatch, run_bind, Hverify, Hid, run_bind.
    rewrite (findUniqueWithUser_next tokenId w _ Houtages), Hrecord.
    cbn [fmap option_fmap option_map]. rewrite Howner, Hrevoked.
    unfold gets at 1. rewrite run_bind. cbv beta iota. fold w1.
    rewrite bool_decide_eq_false_2 by (change (now w1) with (now w); lia).
    rewrite bool_decide_eq_false_2 by (by intros ?).
    rewrite run_bind, (generateAccessToken_run owner w1 accessToken).
    2:{ by rewrite (generateAccessToken_env owner w1 w). }
    rewrite run_bind, Hexpiry, run_bind.
    rewrite (shouldRotateRefreshToken_next tokenId w1 (false :: true :: rest) record);
      [|done|done|done].
    fold w2. rewrite !run_bind. unfold rotateRefreshToken.
    rewrite run_tryCatch, run_bind.
    rewrite (refreshToken_update_next tokenId w2 (true :: rest) record); [|done|done].
    change (db w2) with (db w). fold w3. rewrite run_bind, Hissue. done. }
  exists w4. split; [done|]. split; [by rewrite Hdb4|].
  intros w5 o w6 Hdb5 Hagain.
  apply (refreshApplication_refuses (Signed j) w5 o w6); [|done].
  intros tokenId' record' Hname' Hrecord'.
  rewrite Hname in Hname'. injection Hname' as <-.
  unfold sessionOf in *. rewrite Hdb5, Hdb4 in Hrecord'. simpl in Hrecord'.
  rewrite <- (app_nil_r (revokedIn _ _)) in Hrecord'.
  rewrite (revokedIn_find _ _ _ _ Hrecord) in Hrecord'. by injection Hrecord' as <-.
Qed.

(** *** findInProgressAttempt and getSignupAttempt *)

Lemma newest_from best rows :
  match foldl (λ best a,
                 match best with
                 | Some b => if bool_decide (SignupAttempt.createdAt b < SignupAttempt.createdAt a)
                             then Some a else best
                 | None => Some a
                 end) best rows with
  | Some a =>
      (best = Some a ∨ a ∈ rows)
      ∧ (∀ b, best = Some b → SignupAttempt.createdAt b <= SignupAttempt.createdAt a)
      ∧ (∀ b, b ∈ rows → SignupAttempt.createdAt b <= SignupAttempt.createdAt a)
  | None => best = None ∧ rows = []
  end.
Proof.
  revert best. induction rows as [|r rows IH]; intros best; simpl.
  - destruct best as [b|]; [|done]. split_and!; [by left| |].
    + by intros b' [= ->].
    + intros b' Hb'. by apply elem_of_nil in Hb'.
  - match goal with |- match foldl _ ?acc _ with _ => _ end => specialize (IH acc) end.
    destruct (foldl _ _ rows) as [a|].
    + destruct IH as (Hwhere & Hbest & Hrows).
      destruct best as [b|].
      * case_bool_decide as Hnewer.
        -- split_and!.
           ++ right. destruct Hwhere as [[= ->] | Ha]; [by left|by right].
           ++ intros b' [= <-]. specialize (Hbest r eq_refl). lia.
           ++ intros b' [-> | Hb']%elem_of_cons; [by apply Hbest|by apply Hrows].
        -- split_and!.
           ++ destruct Hwhere as [Ha | Ha]; [by left|right; by right].
           ++ done.
           ++ intros b' [-> | Hb']%elem_of_cons; [|by apply Hrows].
              specialize (Hbest b eq_refl). lia.
      * split_and!.
        -- right. destruct Hwhere as [[= ->] | Ha]; [by left|by right].
        -- done.
        -- intros b' [-> | Hb']%elem_of_cons; [by apply Hbest|by apply Hrows].
    + destruct IH as [Hnone _]. destruct best as [b|]; [by case_bool_decide|done].
Qed.

(** [newest] returns a row of the list that none is newer than, and nothing
    only for the empty list. *)
Lemma newest_spec rows :
  match Prisma.signupAttempt.newest rows with
  | Some a => a ∈ rows ∧ ∀ b, b ∈ rows → SignupAttempt.createdAt b <= SignupAttempt.createdAt a
  | None => rows = []
  end.
Proof.
  unfold Prisma.signupAttempt.newest. pose proof (newest_from None rows) as H.
  destruct (foldl _ _ _) as [a|].
  - destruct H as ([? | ?] & _ & ?); done.
  - by destruct H.
Qed.

Lemma findInProgressAttempt_run email w :
  ∃ r w',
    findInProgressAttempt email w = (Return r, w')
    ∧ db w' = db w ∧ now w' = now w ∧ config w' = config w
    ∧ ((fst (Prisma.roundTrip w) = Return ()
        ∧ r = Prisma.signupAttempt.newest
                (List.filter (resumableFor email (now w)) (signupAttempts (db w))))
       ∨ (fst (Prisma.roundTrip w) = Throw Prisma.P1001 ∧ r = None)).
Proof.
  unfold findInProgressAttempt, Prisma.signupAttempt.findFirst. unfoldM. simpl.
  destruct (Prisma.roundTrip w) as [o1 w1] eqn:Hrt.
  apply roundTrip_inv in Hrt as (Hdb & Hnow & Hcfg & _ & _ & [-> | ->]); simpl.
  - eexists _, _. split; [done|]. split_and!; [done..|]. left. split; [done|].
    by rewrite Hdb.
  - eexists _, _. split; [done|]. split_and!; [done..|]. by right.
Qed.

Lemma findInProgressAttempt_localTZA email w :
  localTZA (snd (findInProgressAttempt email w)) = localTZA w.
Proof.
  unfold findInProgressAttempt, Prisma.signupAttempt.findFirst. unfoldM. simpl.
  pose proof (roundTrip_localTZA w) as Htz.
  by destruct (Prisma.roundTrip w) as [[[]|e] w1].
Qed.

(** X12. [findInProgressAttempt] never throws and never writes. What it
    returns is a stored attempt that is IN_PROGRESS for the lower-cased
    email and not yet expired, and the newest such; with the database
    reachable it returns nothing only when there is none. When the database
    cannot be reached it returns nothing, as if there were none. *)
Theorem findInProgressAttempt_returns_the_newest_resumable (email : string) (w : World) :
  ∃ r w',
    findInProgressAttempt email w = (Return r, w')
    ∧ db w' = db w
    ∧ (∀ a, r = Some a →
         a ∈ signupAttempts (db w)
         ∧ SignupAttempt.email a = JS.toLowerCase email
         ∧ SignupAttempt.status a = IN_PROGRESS
         ∧ now w < SignupAttempt.expiresAt a
         ∧ ∀ b, b ∈ signupAttempts (db w) → resumableFor email (now w) b = true →
                SignupAttempt.createdAt b <= SignupAttempt.createdAt a)
    ∧ (databaseUp w → r = None →
       ∀ b, b ∈ signupAttempts (db w) → resumableFor email (now w) b = false)
    ∧ (∀ rest, outages w = true :: rest → r = None).
Proof.
  destruct (findInProgressAttempt_run email w) as (r & w' & Hrun & Hdb & _ & _ & Hr).
  exists r, w'. split_and!; [done..| | |].
  - intros a ->. destruct Hr as [[_ Ha] | [_ ?]]; [|done].
    pose proof (newest_spec (List.filter (resumableFor email (now w))
                               (signupAttempts (db w)))) as Hnewest.
    rewrite <- Ha in Hnewest. destruct Hnewest as [Hin Hmax].
    apply filter_elem_of in Hin as [Hin Hres].
    unfold resumableFor in Hres.
    apply andb_prop in Hres as [[He Hs]%andb_prop Ht].
    apply bool_decide_eq_true_1 in He, Hs, Ht.
    split_and!; [done..|].
    intros b Hb Hbres. apply Hmax. by apply filter_elem_of.
  - intros Hup -> b Hb. destruct Hr as [[_ Hnone] | [Hdown _]].
    + pose proof (newest_spec (List.filter (resumableFor email (now w))
                                 (signupAttempts (db w)))) as Hnewest.
      rewrite <- Hnone in Hnewest.
      destruct (resumableFor email (now w) b) eqn:Hres; [|done].
      assert (b ∈ List.filter (resumableFor email (now w)) (signupAttempts (db w))) as Hin
        by by apply filter_elem_of.
      rewrite Hnewest in Hin. by apply elem_of_nil in Hin.
    + by rewrite (roundTrip_up w Hup) in Hdown.
  - intros rest Hdown. destruct Hr as [[Hok _] | [_ ?]]; [|done].
    by rewrite (roundTrip_down w rest Hdown) in Hok.
Qed.

(** *** updateSignupStep *)

Lemma signupAttempt_findUnique_inv id w o w' :
  Prisma.signupAttempt.findUnique id w = (o, w') →
  db w' = db w ∧ now w' = now w ∧ config w' = config w
  ∧ (o = Return (attemptOf id (db w)) ∨ o = Throw Prisma.P1001).
Proof.
  unfold Prisma.signupAttempt.findUnique, attemptOf. unfoldM.
  destruct (Prisma.roundTrip w) as [o1 w1] eqn:Hrt.
  apply roundTrip_inv in Hrt as (Hdb & Hnow & Hcfg & _ & _ & [-> | ->]); simpl;
    intros [= <- <-]; rewrite ?Hdb; auto.
Qed.

Lemma rows_replace_by_id id (f : SignupAttempt.t → SignupAttempt.t) rows a :
  NoDup (SignupAttempt.id <$> rows) →
  List.find (Prisma.signupAttempt.byId id) rows = Some a →
  (λ b, if Prisma.signupAttempt.byId id b then f b else b) <$> rows
  = (λ b, if Prisma.signupAttempt.byId id b then f a else b) <$> rows.
Proof.
  intros Hids Hfind. apply list_fmap_ext. intros i b Hb. simpl.
  destruct (Prisma.signupAttempt.byId id b) eqn:Hid; [|done].
  by rewrite (find_byId_unique _ _ _ b Hids Hfind)
    by (done || apply list_elem_of_lookup; eauto).
Qed.

(** X13. In a table with its indexes intact, a call of [updateSignupStep]
    that returns has found the attempt and stored it with the new current
    step and updatedAt set to now; a completed step is appended once, when it
    is given, not empty and not already listed, so the list gains no
    duplicate and a repeated call leaves it alone. Status, count, deadline
    and the other rows are untouched. Every failure, a missing attempt
    included, is the one internal error and writes nothing. *)
Theorem updateSignupStep_advances_and_records_once
    (attemptId newStep : string) (completedStep : option string) (w : World) o w' :
  indexed (db w) →
  updateSignupStep attemptId newStep completedStep w = (o, w') →
  match o with
  | Return a' =>
      ∃ a, attemptOf attemptId (db w) = Some a
        ∧ a' = SignupAttempt.mk (SignupAttempt.id a) (SignupAttempt.email a)
                 (SignupAttempt.firstName a) (SignupAttempt.lastName a)
                 (SignupAttempt.passwordHash a) (SignupAttempt.emailVerified a)
                 (SignupAttempt.phoneVerified a) (SignupAttempt.mfaEnabled a)
                 newStep (stepsAfter completedStep (SignupAttempt.completedSteps a))
                 (SignupAttempt.status a) (SignupAttempt.attemptCount a)
                 (SignupAttempt.createdAt a) (now w) (SignupAttempt.expiresAt a)
                 (SignupAttempt.completedAt a)
        ∧ db w' = setSignupAttempts
                    ((λ b, if Prisma.signupAttempt.byId attemptId b then a' else b)
                       <$> signupAttempts (db w)) (db w)
        ∧ (NoDup (SignupAttempt.completedSteps a) → NoDup (SignupAttempt.completedSteps a'))
        ∧ (∀ step, completedStep = Some step → step ≠ "" →
                   step ∈ SignupAttempt.completedSteps a')
        ∧ (∀ step, completedStep = Some step → step ∈ SignupAttempt.completedSteps a →
                   SignupAttempt.completedSteps a' = SignupAttempt.completedSteps a)
  | Throw e =>
      e = InternalServerErrorException "Failed to update signup step" ∧ db w' = db w
  end.
Proof.
  intros [Hids _].
  unfold updateSignupStep. rewrite run_tryCatch, run_bind. unfold gets at 1. cbv beta iota.
  rewrite run_bind.
  match goal with
  | |- match match ?choose w with _ => _ end with _ => _ end = _ → _ =>
      assert (∃ o1 w1, choose w = (o1, w1)
                ∧ db w1 = db w ∧ now w1 = now w
                ∧ match o1 with
                  | Return data =>
                      SignupAttempt.newCurrentStep data = Some newStep
                      ∧ SignupAttempt.newStatus data = None
                      ∧ SignupAttempt.newAttemptCount data = None
                      ∧ SignupAttempt.newUpdatedAt data = Some (now w)
                      ∧ SignupAttempt.newCompletedAt data = None
                      ∧ ∀ a, attemptOf attemptId (db w) = Some a →
                             default (SignupAttempt.completedSteps a)
                               (SignupAttempt.newCompletedSteps data)
                             = stepsAfter completedStep (SignupAttempt.completedSteps a)
                  | Throw e => True
                  end) as (o1 & w1 & -> & Hdb1 & Hnow1 & Hdata)
  end.
  { unfold stepsAfter. destruct completedStep as [step|]; [|by eexists _, _].
    destruct (JS.truthy step); [|by eexists _, _].
    rewrite run_bind.
    destruct (Prisma.signupAttempt.findUnique attemptId w) as [o0 w0] eqn:Hfind.
    apply signupAttempt_findUnique_inv in Hfind as (Hdb0 & Hnow0 & _ & [-> | ->]);
      [|by eexists _, _].
    destruct (attemptOf attemptId (db w)) as [a|] eqn:Ha; [|by eexists _, _].
    case_bool_decide as Hnew.
    - eexists _, _. split; [done|]. split_and!; try done.
      intros a0 [= <-]. simpl. by rewrite bool_decide_eq_true_2.
    - eexists _, _. split; [done|]. split_and!; try done.
      intros a0 [= <-]. simpl. by rewrite bool_decide_eq_false_2 by (intros Hn; by apply Hn). }
  destruct o1 as [data|e]; [|by intros [= <- <-]].
  destruct Hdata as (Hstep & Hstatus & Hcount & Hstamp & Hat & Hsteps).
  destruct (Prisma.signupAttempt.update attemptId data w1) as [[a'|e] w2] eqn:Hupdate;
    apply signupAttempt_update_inv in Hupdate as (_ & _ & Hupdate); intros [= <- <-].
  2:{ split; [done|congruence]. }
  destruct Hupdate as (a & Hfind & -> & _ & Hdb2).
  rewrite Hdb1, Hnow1 in *. fold (attemptOf attemptId (db w)) in Hfind.
  specialize (Hsteps a Hfind).
  exists a. split; [done|].
  assert (SignupAttempt.apply (now w) data a
          = SignupAttempt.mk (SignupAttempt.id a) (SignupAttempt.email a)
              (SignupAttempt.firstName a) (SignupAttempt.lastName a)
              (SignupAttempt.passwordHash a) (SignupAttempt.emailVerified a)
              (SignupAttempt.phoneVerified a) (SignupAttempt.mfaEnabled a)
              newStep (stepsAfter completedStep (SignupAttempt.completedSteps a))
              (SignupAttempt.status a) (SignupAttempt.attemptCount a)
              (SignupAttempt.createdAt a) (now w) (SignupAttempt.expiresAt a)
              (SignupAttempt.completedAt a)) as Happly.
  { unfold SignupAttempt.apply. by rewrite Hstep, Hstatus, Hcount, Hstamp, Hat, Hsteps. }
  split; [done|]. split.
  { rewrite Hdb2. f_equal. by apply rows_replace_by_id. }
  rewrite Happly. simpl. unfold stepsAfter. split_and!.
  - intros Hnodup. destruct completedStep as [step|]; [|done].
    destruct (JS.truthy step); simpl; [|done].
    case_bool_decide as Hnew; [|done].
    apply NoDup_app. split_and!; [done| |apply NoDup_singleton].
    intros x Hx ->%list_elem_of_singleton. done.
  - intros step -> Hnonempty. unfold JS.truthy.
    rewrite bool_decide_eq_false_2 by done. simpl.
    case_bool_decide as Hnew.
    + apply elem_of_app. right. by apply list_elem_of_singleton.
    + done.
  - intros step -> Hlisted.
    rewrite (bool_decide_eq_false_2 (step ∉ _)) by (intros Hn; by apply Hn).
    by rewrite andb_false_r.
Qed.

(** *** completeSignupAttempt *)

Lemma key_holder_unique rows a b :
  NoDup (SignupAttempt.key <$> rows) →
  a ∈ rows → b ∈ rows → SignupAttempt.key b = SignupAttempt.key a → b = a.
Proof.
  intros Hkeys [i Hi]%list_elem_of_lookup [j Hj]%list_elem_of_lookup Hkey.
  assert (j = i) as ->; [|congruence].
  eapply (proj1 (NoDup_fmap_lookup SignupAttempt.key rows) Hkeys); eauto.
Qed.

(** X14. In a table with its indexes intact, a call of
    [completeSignupAttempt] that returns has stored the attempt as COMPLETED,
    completed now, and touched nothing else of it. If the attempt was the one
    IN_PROGRESS for its email, [findInProgressAttempt] finds nothing for that
    email in any state holding the tables the call left: a completed attempt
    is never resumed. Every failure is the one internal error and writes
    nothing. *)
Theorem completed_attempt_is_not_resumed (attemptId : string) (w : World) o w' :
  indexed (db w) →
  completeSignupAttempt attemptId w = (o, w') →
  match o with
  | Return _ =>
      ∃ a, attemptOf attemptId (db w) = Some a
        ∧ attemptOf attemptId (db w')
          = Some (SignupAttempt.mk (SignupAttempt.id a) (SignupAttempt.email a)
                    (SignupAttempt.firstName a) (SignupAttempt.lastName a)
                    (SignupAttempt.passwordHash a) (SignupAttempt.emailVerified a)
                    (SignupAttempt.phoneVerified a) (SignupAttempt.mfaEnabled a)
                    (SignupAttempt.currentStep a) (SignupAttempt.completedSteps a)
                    COMPLETED (SignupAttempt.attemptCount a)
                    (SignupAttempt.createdAt a) (now w) (SignupAttempt.expiresAt a)
                    (Some (now w)))
        ∧ (∀ b, Prisma.signupAttempt.byId attemptId b = false →
                b ∈ signupAttempts (db w) ↔ b ∈ signupAttempts (db w'))
        ∧ (∀ email w2,
             SignupAttempt.email a = JS.toLowerCase email →
             SignupAttempt.status a = IN_PROGRESS →
             db w2 = db w' →
             fst (findInProgressAttempt email w2) = Return None)
  | Throw e =>
      e = InternalServerErrorException "Failed to complete signup attempt" ∧ db w' = db w
  end.
Proof.
  intros [Hids Hkeys].
  unfold completeSignupAttempt. rewrite run_tryCatch, run_bind. unfold gets at 1.
  cbv beta iota. rewrite run_bind.
  destruct (Prisma.signupAttempt.update _ _ w) as [[a'|e] w1] eqn:Hupdate;
    apply signupAttempt_update_inv in Hupdate as (_ & _ & Hupdate); intros [= <- <-];
    [|done].
  destruct Hupdate as (a & Hfind & -> & _ & Hdb).
  pose proof Hfind as [Hin Hid]%List.find_some. apply list_elem_of_In in Hin.
  rewrite (rows_replace_by_id _ _ _ _ Hids Hfind) in Hdb.
  set (a' := SignupAttempt.apply (now w) _ a) in *.
  assert (∀ b, b ∈ signupAttempts (db w1)
               ↔ b = a' ∨ (b ∈ signupAttempts (db w)
                            ∧ Prisma.signupAttempt.byId attemptId b = false)) as Hrows.
  { intros b. rewrite Hdb. simpl. rewrite list_elem_of_fmap. split.
    - intros (b0 & -> & Hb0).
      destruct (Prisma.signupAttempt.byId attemptId b0) eqn:Hb0id; [by left|by right].
    - intros [-> | [Hb Hbid]].
      + exists a. by rewrite Hid.
      + exists b. by rewrite Hbid. }
  exists a. split_and!; [done| | |].
  - unfold attemptOf. rewrite Hdb. simpl.
    clear Hrows Hdb Hin Hids Hkeys.
    induction (signupAttempts (db w)) as [|r rows IH]; [done|].
    simpl in *. destruct (Prisma.signupAttempt.byId attemptId r) eqn:Hr.
    + injection Hfind as ->. simpl.
      by replace (Prisma.signupAttempt.byId attemptId a') with true.
    + rewrite Hr. by apply IH.
  - intros b Hbid. rewrite Hrows. split; [by right|].
    intros [-> | [? _]]; [|done].
    unfold Prisma.signupAttempt.byId in *. simpl in Hbid. congruence.
  - intros email w2 Hemail Hstatus Hdb2.
    destruct (findInProgressAttempt_run email w2) as (r & w3 & -> & _ & _ & _ & Hr).
    simpl. f_equal. destruct Hr as [[_ ->] | [_ ->]]; [|done].
    rewrite filter_none; [done|].
    intros b Hb. rewrite Hdb2 in Hb. apply Hrows in Hb as [-> | [Hb Hbid]].
    + unfold resumableFor. simpl. by rewrite andb_false_r.
    + destruct (resumableFor email (now w2) b) eqn:Hres; [|done].
      unfold resumableFor in Hres.
      apply andb_prop in Hres as [[He Hs]%andb_prop _].
      apply bool_decide_eq_true_1 in He, Hs.
      assert (b = a) as ->.
      { apply (key_holder_unique (signupAttempts (db w))); try done.
        unfold SignupAttempt.key. congruence. }
      congruence.
Qed.

(** *** markExpiredAttempts *)

(** X15. What a sweep does to the table. It returns a count between 0 and
    the number of rows and keeps the number of rows; every attempt that is
    not both IN_PROGRESS and past its deadline, the resumable ones among
    them, is left exactly as it was. When the count is positive it is the
    number of overdue attempts, each of them is now EXPIRED with nothing else
    changed but updatedAt, and none is left overdue. *)
Theorem sweep_expires_the_overdue_and_only_them (w : World) :
  ∃ n w',
    markExpiredAttempts w = (Return n, w')
    ∧ 0 <= n <= Z.of_nat (length (signupAttempts (db w)))
    ∧ length (signupAttempts (db w')) = length (signupAttempts (db w))
    ∧ users (db w') = users (db w)
    ∧ refreshTokens (db w') = refreshTokens (db w)
    ∧ (∀ a, a ∈ signupAttempts (db w) → expiredInProgress (now w) a = false →
            a ∈ signupAttempts (db w'))
    ∧ (∀ a email, a ∈ signupAttempts (db w) → resumableFor email (now w) a = true →
                  a ∈ signupAttempts (db w'))
    ∧ (0 < n →
       n = Z.of_nat (length (List.filter (expiredInProgress (now w))
                               (signupAttempts (db w))))
       ∧ signupAttempts (db w')
         = (λ a, if expiredInProgress (now w) a
                 then SignupAttempt.mk (SignupAttempt.id a) (SignupAttempt.email a)
                        (SignupAttempt.firstName a) (SignupAttempt.lastName a)
                        (SignupAttempt.passwordHash a) (SignupAttempt.emailVerified a)
                        (SignupAttempt.phoneVerified a) (SignupAttempt.mfaEnabled a)
                        (SignupAttempt.currentStep a) (SignupAttempt.completedSteps a)
                        EXPIRED (SignupAttempt.attemptCount a)
                        (SignupAttempt.createdAt a) (now w) (SignupAttempt.expiresAt a)
                        (SignupAttempt.completedAt a)
                 else a) <$> signupAttempts (db w)
       ∧ ∀ b, b ∈ signupAttempts (db w') → expiredInProgress (now w) b = false).
Proof.
  assert (∀ a email, resumableFor email (now w) a = true →
                     expiredInProgress (now w) a = false) as Hresumable.
  { intros a email [[_ _]%andb_prop Ht%bool_decide_eq_true_1]%andb_prop.
    unfold expiredInProgress. rewrite (bool_decide_eq_false_2 (_ < _)) by lia.
    by rewrite andb_false_r. }
  unfold markExpiredAttempts. rewrite run_tryCatch, run_bind. unfold gets at 1.
  cbv beta iota.
  destruct (Prisma.signupAttempt.updateMany _ _ w) as [[n|e] w1] eqn:Hsweep;
    apply signupAttempt_updateMany_inv in Hsweep; simpl in Hsweep.
  - destruct Hsweep as (Hn & _ & Hdb).
    exists n, w1. split; [done|]. rewrite Hdb. simpl.
    assert (∀ a, a ∈ signupAttempts (db w) → expiredInProgress (now w) a = false →
                 a ∈ (λ a, if expiredInProgress (now w) a
                           then SignupAttempt.apply (now w)
                                  (SignupAttempt.mkPatch None None (Some EXPIRED) None None None) a
                           else a) <$> signupAttempts (db w)) as Hkept.
    { intros a Ha Hnot. apply list_elem_of_fmap. exists a. by rewrite Hnot. }
    split_and!; [lia| |by rewrite length_fmap|done|done|done|by eauto|].
    { rewrite Hn. apply inj_le. apply List.filter_length_le. }
    intros _. split_and!; [done|done|].
    intros b (a & -> & Ha)%list_elem_of_fmap.
    destruct (expiredInProgress (now w) a) eqn:Hover; [|done].
    unfold expiredInProgress. simpl. done.
  - exists 0, w1. split; [done|]. rewrite Hsweep.
    split_and!; [lia|lia|done|done|done|done|done|lia].
Qed.

(** *** The signup flow *)

Lemma checkUserExists_inv email w o w' :
  checkUserExists email w = (o, w') →
  db w' = db w ∧ now w' = now w ∧ config w' = config w
  ∧ ((fst (Prisma.roundTrip w) = Return ()
      ∧ o = Return (bool_decide (is_Some (userOf email (db w)))))
     ∨ (fst (Prisma.roundTrip w) = Throw Prisma.P1001 ∧ o = Throw Prisma.P1001)).
Proof.
  unfold checkUserExists, Prisma.user.findUnique, userOf. unfoldM.
  destruct (Prisma.roundTrip w) as [o1 w1] eqn:Hrt.
  apply roundTrip_inv in Hrt as (Hdb & Hnow & Hcfg & _ & _ & [-> | ->]); simpl;
    intros [= <- <-]; rewrite ?Hdb; (split_and!; [done..|]); [by left|by right].
Qed.

Lemma checkUserExists_localTZA email w :
  localTZA (snd (checkUserExists email w)) = localTZA w.
Proof.
  unfold checkUserExists, Prisma.user.findUnique. unfoldM.
  pose proof (roundTrip_localTZA w) as Htz.
  by destruct (Prisma.roundTrip w) as [[[]|e] w1].
Qed.

Lemma resumeSignupAttempt_inv existingAttempt w o w' :
  resumeSignupAttempt existingAttempt w = (o, w') →
  now w' = now w ∧ config w' = config w
  ∧ match o with
    | Return a' =>
        ∃ a, attemptOf (SignupAttempt.id existingAttempt) (db w) = Some a
          ∧ a' = SignupAttempt.apply (now w)
                   (SignupAttempt.mkPatch None None None
                      (Some (SignupAttempt.attemptCount existingAttempt + 1))
                      (Some (now w)) None) a
          ∧ db w' = setSignupAttempts
                      ((λ b, if Prisma.signupAttempt.byId (SignupAttempt.id existingAttempt) b
                             then SignupAttempt.apply (now w)
                                    (SignupAttempt.mkPatch None None None
                                       (Some (SignupAttempt.attemptCount existingAttempt + 1))
                                       (Some (now w)) None) b
                             else b) <$> signupAttempts (db w)) (db w)
    | Throw e =>
        e = InternalServerErrorException "Failed to resume signup attempt" ∧ db w' = db w
    end.
Proof.
  unfold resumeSignupAttempt. rewrite run_tryCatch, run_bind. unfold gets at 1.
  cbv beta iota.
  destruct (Prisma.signupAttempt.update _ _ w) as [[a'|e] w1] eqn:Hupdate;
    apply signupAttempt_update_inv in Hupdate as (Hnow & Hcfg & Hupdate);
    intros [= <- <-]; [|done].
  destruct Hupdate as (a & Hfind & -> & _ & Hdb). split_and!; [done..|]. by exists a.
Qed.

Lemma generateSignupToken_run attemptId email currentStep w :
  ∃ o, generateSignupToken ms attemptId email currentStep w = (o, w)
       ∧ ∀ message, o ≠ Throw (ConflictException message).
Proof.
  unfold generateSignupToken, jwtSign, ConfigService.getOrThrow, ConfigService.get.
  unfoldM. simpl.
  destruct (config w !! "JWT_SIGNUP_SECRET") as [secret|]; simpl;
    [|by eexists; split].
  case_bool_decide; [by eexists; split|].
  destruct (ms _); by eexists; split.
Qed.

Lemma generateSignupToken_env attemptId email currentStep w1 w :
  now w1 = now w → config w1 = config w →
  fst (generateSignupToken ms attemptId email currentStep w1)
  = fst (generateSignupToken ms attemptId email currentStep w).
Proof.
  unfold generateSignupToken, jwtSign, ConfigService.getOrThrow, ConfigService.get.
  intros Hnow Hconfig. unfoldM. simpl. rewrite Hconfig.
  destruct (config w !! "JWT_SIGNUP_SECRET") as [secret|]; simpl; [|done].
  rewrite Hnow, Hconfig. cases.
Qed.

Lemma createSignupAttempt_env email firstName lastName password w o w' :
  createSignupAttempt bcrypt_hash email firstName lastName password w = (o, w') →
  now w' = now w ∧ config w' = config w.
Proof.
  unfold createSignupAttempt. rewrite run_tryCatch, run_bind.
  destruct (checkUserExists email w) as [o1 w1] eqn:Hcheck.
  apply checkUserExists_inv in Hcheck as (_ & Hnow1 & Hcfg1 & [[_ ->] | [_ ->]]);
    [|by intros [= <- <-]].
  destruct (bool_decide _); [by intros [= <- <-]|].
  rewrite run_bind. unfold ConfigService.getOr at 1, gets at 1. cbv beta iota.
  rewrite run_bind. unfold bcryptHash.
  destruct (bcrypt_hash _ _) as [h|]; [|by intros [= <- <-]].
  unfold mret at 1, M_ret at 1. cbv beta iota. rewrite run_bind. unfold gets at 1.
  cbv beta iota. rewrite run_bind. unfold gets at 1. cbv beta iota.
  destruct (JS.plusLocal _ _ _) as [deadline|]; [|by intros [= <- <-]].
  destruct (Prisma.signupAttempt.create _ _ _ _ _ _ _ w1) as [[a|e] w2] eqn:Hcreate;
    apply signupAttempt_create_inv in Hcreate as (Hnow2 & Hcfg2 & _).
  - intros [= <- <-]. split; congruence.
  - destruct e; intros [= <- <-]; split; congruence.
Qed.

(** Every run of [signup] over a table with its indexes intact. *)
Lemma signup_inv email firstName lastName password w o w' :
  indexed (db w) →
  signup ms bcrypt_hash email firstName lastName password w = (o, w') →
  ∃ dto, o = Return dto
  ∧ match dto with
    | SignupSuccess token nextStep attemptId resumed steps =>
        userOf email (db w) = None
        ∧ fst (generateSignupToken ms attemptId (JS.toLowerCase email) nextStep w)
          = Return token
        ∧ ∃ a',
            a' ∈ signupAttempts (db w')
            ∧ SignupAttempt.id a' = attemptId
            ∧ SignupAttempt.email a' = JS.toLowerCase email
            ∧ SignupAttempt.status a' = IN_PROGRESS
            ∧ SignupAttempt.currentStep a' = nextStep
            ∧ match resumed with
              | Some flag =>
                  flag = true
                  ∧ steps = Some (SignupAttempt.completedSteps a')
                  ∧ ∃ a, a ∈ signupAttempts (db w)
                      ∧ resumableFor email (now w) a = true
                      ∧ a' = SignupAttempt.apply (now w)
                               (SignupAttempt.mkPatch None None None
                                  (Some (SignupAttempt.attemptCount a + 1))
                                  (Some (now w)) None) a
                      ∧ signupAttempts (db w')
                        = (λ b, if Prisma.signupAttempt.byId attemptId b then a' else b)
                            <$> signupAttempts (db w)
              | None =>
                  steps = None
                  ∧ nextStep = "email_verification"
                  ∧ SignupAttempt.attemptCount a' = 1
                  ∧ JS.plusLocal (localTZA w) (now w) (2 * JS.msPerHour)
                    = Some (SignupAttempt.expiresAt a')
                  ∧ (attemptId ∉ SignupAttempt.id <$> signupAttempts (db w))
                  ∧ signupAttempts (db w') = signupAttempts (db w) ++ [a']
              end
    | SignupFailure message statusCode =>
        (statusCode = 409
         ∧ message = "An account with this email already exists"
         ∧ is_Some (userOf email (db w))
         ∧ db w' = db w)
        ∨ (statusCode = 500 ∧ message = "An error occurred during signup")
    end.
Proof.
  intros [Hids Hkeys].
  unfold signup. rewrite run_tryCatch, run_bind.
  pose proof (checkUserExists_localTZA email w) as Htz1.
  destruct (checkUserExists email w) as [o1 w1] eqn:Hcheck. simpl in Htz1.
  apply checkUserExists_inv in Hcheck as (Hdb1 & Hnow1 & Hcfg1 & [[_ ->] | [_ ->]]).
  2:{ intros [= <- <-]. eexists. split; [done|]. by right. }
  destruct (userOf email (db w)) as [u|] eqn:Huser.
  { rewrite bool_decide_eq_true_2 by eauto. intros [= <- <-].
    eexists. split; [done|]. left. split_and!; try done; by eexists. }
  rewrite bool_decide_eq_false_2 by (by intros [? ?]).
  rewrite run_bind.
  pose proof (findInProgressAttempt_localTZA email w1) as Htz2.
  destruct (findInProgressAttempt_run email w1)
    as (r & w2 & Hfound & Hdb2 & Hnow2 & Hcfg2 & Hr).
  rewrite Hfound in Htz2 |- *. simpl in Htz2.
  destruct r as [a|].
  - destruct Hr as [[_ Ha] | [_ ?]]; [|done].
    pose proof (newest_spec (List.filter (resumableFor email (now w1))
                               (signupAttempts (db w1)))) as Hnewest.
    rewrite <- Ha in Hnewest. destruct Hnewest as [[Hin Hres]%filter_elem_of _].
    rewrite Hdb1 in Hin. rewrite Hnow1 in Hres.
    rewrite run_bind.
    destruct (resumeSignupAttempt a w2) as [[a'|e] w3] eqn:Hresume;
      apply resumeSignupAttempt_inv in Hresume as (Hnow3 & Hcfg3 & Hresume).
    2:{ destruct Hresume as [-> _]. intros [= <- <-]. eexists. split; [done|]. by right. }
    destruct Hresume as (a0 & Hfind & Ha' & Hdb3).
    rewrite Hdb2, Hdb1, Hnow2, Hnow1 in *.
    assert (a0 = a) as ->.
    { symmetry. apply (find_byId_unique (signupAttempts (db w)) (SignupAttempt.id a));
        try done. by apply bool_decide_eq_true_2. }
    rewrite (rows_replace_by_id _ _ _ _ Hids Hfind), <- Ha' in Hdb3.
    pose proof Hres as [[He Hs]%andb_prop _]%andb_prop.
    apply bool_decide_eq_true_1 in He, Hs.
    rewrite run_bind.
    destruct (generateSignupToken_run (SignupAttempt.id a') (SignupAttempt.email a')
                (SignupAttempt.currentStep a') w3) as (o4 & Htoken & Hnoconflict).
    rewrite Htoken. destruct o4 as [token|e].
    2:{ destruct e; intros [= <- <-]; (eexists; split; [done|]); try by right.
        all: by destruct (Hnoconflict message). }
    intros [= <- <-]. eexists. split; [done|]. simpl.
    assert (SignupAttempt.id a' = SignupAttempt.id a
            ∧ SignupAttempt.email a' = SignupAttempt.email a
            ∧ SignupAttempt.status a' = SignupAttempt.status a
            ∧ SignupAttempt.currentStep a' = SignupAttempt.currentStep a)
      as (Hid' & Hemail' & Hstatus' & Hstep') by by rewrite Ha'.
    split; [done|]. split.
    { rewrite <- He, <- Hemail'.
      rewrite <- (generateSignupToken_env _ _ _ w3 w) by congruence. by rewrite Htoken. }
    exists a'. split_and!; try congruence.
    { rewrite Hdb3. simpl. apply list_elem_of_fmap. exists a. split; [|done].
      unfold Prisma.signupAttempt.byId. by rewrite bool_decide_eq_true_2. }
    exists a. split_and!; try done. by rewrite Hid', Hdb3.
  - rewrite run_bind.
    destruct (createSignupAttempt bcrypt_hash email firstName lastName password w2)
      as [[a'|e] w3] eqn:Hcreate;
      pose proof (createSignupAttempt_env _ _ _ _ _ _ _ Hcreate) as [Hnow3 Hcfg3];
      apply createSignupAttempt_inv in Hcreate.
    2:{ destruct Hcreate as (_ & [(_ & [u Hu] & _) | (-> & _)]).
        - rewrite Hdb2, Hdb1 in Hu. congruence.
        - intros [= <- <-]. eexists. split; [done|]. by right. }
    destruct Hcreate as (_ & Hemail & Hstatus & Hstep & Hcount & Hexpires & Hfresh & _ & Hdb3).
    rewrite Hdb2, Hdb1 in *. rewrite Hnow2, Hnow1 in *. rewrite Htz2, Htz1 in Hexpires.
    rewrite run_bind.
    destruct (generateSignupToken_run (SignupAttempt.id a') (SignupAttempt.email a')
                (SignupAttempt.currentStep a') w3) as (o4 & Htoken & Hnoconflict).
    rewrite Htoken. destruct o4 as [token|e].
    2:{ destruct e; intros [= <- <-]; (eexists; split; [done|]); try by right.
        all: by destruct (Hnoconflict message). }
    intros [= <- <-]. eexists. split; [done|]. simpl.
    split; [done|]. split.
    { rewrite <- Hemail.
      rewrite <- (generateSignupToken_env _ _ _ w3 w) by congruence. by rewrite Htoken. }
    exists a'. split_and!; try done.
    + rewrite Hdb3. simpl. apply elem_of_app. right. by apply list_elem_of_singleton.
    + by rewrite Hdb3.
Qed.

Lemma checkUserExists_up email w :
  databaseUp w →
  checkUserExists email w = (Return (bool_decide (is_Some (userOf email (db w)))), w).
Proof.
  intros Hup. unfold checkUserExists, Prisma.user.findUnique, userOf. unfoldM.
  by rewrite (roundTrip_up w Hup).
Qed.

(** X16. [signup] never throws, and over a table with its indexes intact
    a success is one of two things. Either it resumed: a stored attempt that
    was IN_PROGRESS for the lower-cased email and not yet expired is stored
    again with its count one higher and updatedAt now, and the response
    names it, its current step and its completed steps, flagged as resumed.
    Or it created: no user held the email, the table gained one IN_PROGRESS
    attempt for the lower-cased email under a fresh id, at step
    email_verification, count 1, whose deadline is the instant the host's
    local clock reads two hours more than it reads now: the current
    instant moved to local time, plus two hours, moved back from local time
    at the offset in force there; that is two hours from now when the offset
    is the same at both ends. Either way the token is the signup token
    issued for that attempt, email and step. *)
Theorem signup_success_resumes_or_creates
    (email firstName lastName password : string) (w : World) o w' :
  indexed (db w) →
  signup ms bcrypt_hash email firstName lastName password w = (o, w') →
  returns o
  ∧ ∀ token nextStep attemptId resumed steps,
      o = Return (SignupSuccess token nextStep attemptId resumed steps) →
      userOf email (db w) = None
      ∧ fst (generateSignupToken ms attemptId (JS.toLowerCase email) nextStep w)
        = Return token
      ∧ ∃ a',
          a' ∈ signupAttempts (db w')
          ∧ SignupAttempt.id a' = attemptId
          ∧ SignupAttempt.email a' = JS.toLowerCase email
          ∧ SignupAttempt.status a' = IN_PROGRESS
          ∧ SignupAttempt.currentStep a' = nextStep
          ∧ match resumed with
            | Some flag =>
                flag = true
                ∧ steps = Some (SignupAttempt.completedSteps a')
                ∧ ∃ a, a ∈ signupAttempts (db w)
                    ∧ resumableFor email (now w) a = true
                    ∧ a' = SignupAttempt.apply (now w)
                             (SignupAttempt.mkPatch None None None
                                (Some (SignupAttempt.attemptCount a + 1))
                                (Some (now w)) None) a
                    ∧ signupAttempts (db w')
                      = (λ b, if Prisma.signupAttempt.byId attemptId b then a' else b)
                          <$> signupAttempts (db w)
            | None =>
                steps = None
                ∧ nextStep = "email_verification"
                ∧ SignupAttempt.attemptCount a' = 1
                ∧ JS.plusLocal (localTZA w) (now w) (2 * JS.msPerHour)
                  = Some (SignupAttempt.expiresAt a')
                ∧ SignupAttempt.expiresAt a'
                  = now w + localTZA w (now w) true + 2 * JS.msPerHour
                    - localTZA w (now w + localTZA w (now w) true + 2 * JS.msPerHour)
                        false
                ∧ (localTZA w (now w + localTZA w (now w) true + 2 * JS.msPerHour) false
                   = localTZA w (now w) true
                   → SignupAttempt.expiresAt a' = now w + 2 * JS.msPerHour)
                ∧ (attemptId ∉ SignupAttempt.id <$> signupAttempts (db w))
                ∧ signupAttempts (db w') = signupAttempts (db w) ++ [a']
            end.
Proof.
  intros Hindexed Hrun. apply signup_inv in Hrun as (dto & -> & Hdto); [|done].
  split; [by exists dto|].
  intros token nextStep attemptId resumed steps [= ->].
  destruct Hdto as (Huser & Htoken & a' & Hin & Hid & Hemail & Hstatus & Hstep & Hkind).
  split_and!; [done..|]. exists a'. split_and!; [done..|].
  destruct resumed as [flag|]; [done|].
  destruct Hkind as (Hsteps & Hnext & Hcount & Hdeadline & Hfresh & Hrows).
  pose proof (plusLocal_inv _ _ _ _ Hdeadline) as [_ Hformula].
  split_and!; [done..| |done|done]. lia.
Qed.

(** X17. The failures of [signup]. It answers 409 only for an email that a
    user already holds, with the message of the conflict and nothing
    written; every other failure is a 500 with the generic message. With the
    database reachable, an email that a user holds, in any letter case, is
    always answered 409. *)
Theorem signup_conflict_only_for_an_existing_account
    (email firstName lastName password : string) (w : World) :
  (∀ o w',
     indexed (db w) →
     signup ms bcrypt_hash email firstName lastName password w = (o, w') →
     ∀ message statusCode,
       o = Return (SignupFailure message statusCode) →
       (statusCode = 409
        ∧ message = "An account with this email already exists"
        ∧ is_Some (userOf email (db w))
        ∧ db w' = db w)
       ∨ (statusCode = 500 ∧ message = "An error occurred during signup"))
  ∧ (databaseUp w →
     is_Some (userOf email (db w)) →
     signup ms bcrypt_hash email firstName lastName password w
     = (Return (SignupFailure "An account with this email already exists" 409), w))
  ∧ (∀ rest,
       outages w = true :: rest →
       signup ms bcrypt_hash email firstName lastName password w
       = (Return (SignupFailure "An error occurred during signup" 500),
          setOutages rest w)).
Proof.
  split_and!.
  - intros o w' Hindexed Hrun message statusCode ->.
    by apply signup_inv in Hrun as (dto & [= <-] & Hdto).
  - intros Hup Huser. unfold signup.
    rewrite run_tryCatch, run_bind, (checkUserExists_up email w Hup).
    by rewrite bool_decide_eq_true_2.
  - intros rest Hdown. unfold signup. rewrite run_tryCatch, run_bind.
    unfold checkUserExists, Prisma.user.findUnique. rewrite !run_bind.
    by rewrite (roundTrip_down w rest Hdown).
Qed.

(** X18. An attempt that has passed its deadline but has not been swept
    blocks its email. With the database reachable and the indexes intact,
    when the table holds an IN_PROGRESS attempt for the lower-cased email
    whose deadline is not in the future and no user holds the email,
    [signup] neither resumes nor creates: it answers 500 and writes
    nothing. *)
Theorem overdue_unswept_attempt_blocks_signup
    (email firstName lastName password : string) (w : World) (a : SignupAttempt.t) :
  databaseUp w →
  indexed (db w) →
  userOf email (db w) = None →
  a ∈ signupAttempts (db w) →
  SignupAttempt.email a = JS.toLowerCase email →
  SignupAttempt.status a = IN_PROGRESS →
  SignupAttempt.expiresAt a <= now w →
  ∃ w',
    signup ms bcrypt_hash email firstName lastName password w
    = (Return (SignupFailure "An error occurred during signup" 500), w')
    ∧ db w' = db w.
Proof.
  intros Hup [Hids Hkeys] Huser Ha Hemail Hstatus Hoverdue.
  unfold signup.
  rewrite run_tryCatch, run_bind, (checkUserExists_up email w Hup), Huser.
  rewrite bool_decide_eq_false_2 by (by intros [? ?]).
  rewrite run_bind.
  destruct (findInProgressAttempt_run email w) as (r & w2 & Hfind & _ & _ & _ & Hr).
  assert (w2 = w) as ->.
  { revert Hfind. unfold findInProgressAttempt, Prisma.signupAttempt.findFirst. unfoldM.
    rewrite (roundTrip_up w Hup). simpl. by intros [= _ <-]. }
  assert (r = None) as ->.
  { destruct Hr as [[_ ->] | [_ ->]]; [|done].
    rewrite filter_none; [done|]. intros b Hb.
    destruct (resumableFor email (now w) b) eqn:Hres; [|done].
    pose proof Hres as [[He Hs]%andb_prop Ht]%andb_prop.
    apply bool_decide_eq_true_1 in He, Hs, Ht.
    assert (b = a) as ->; [|lia].
    apply (key_holder_unique (signupAttempts (db w))); try done.
    unfold SignupAttempt.key. congruence. }
  destruct (createSignupAttempt_rejected email firstName lastName password w a
              Ha Hemail Hstatus) as (e & w3 & Hcreate & Hdb3 & He).
  exists w3. split; [|done].
  by rewrite Hfind, run_bind, Hcreate, (He Huser).
Qed.

(** *** The guards *)

Lemma verifyAccessToken_cases token w :
  (∃ payload, verifyAccessToken token w = (Return payload, w)
              ∧ accepts "JWT_ACCESS_SECRET" "access" token w payload)
  ∨ (verifyAccessToken token w
     = (Throw (UnauthorizedException "Invalid or expired access token"), w)
     ∧ ∀ payload, ¬ accepts "JWT_ACCESS_SECRET" "access" token w payload).
Proof.
  destruct (verify_shape "JWT_ACCESS_SECRET" "access" "Invalid or expired access token"
              token w) as (Hiff & _ & Hshape).
  fold (verifyAccessToken token) in Hiff, Hshape.
  destruct (verifyAccessToken token w) as [o w1] eqn:Hrun.
  destruct (Hshape o w1 eq_refl) as [-> [[payload ->] | ->]].
  - left. exists payload. split; [done|]. by apply Hiff.
  - right. split; [done|]. intros payload Hacc. by apply Hiff in Hacc.
Qed.

Lemma verifySignupToken_cases token w :
  (∃ payload, verifySignupToken token w = (Return payload, w)
              ∧ accepts "JWT_SIGNUP_SECRET" "signup" token w payload)
  ∨ (verifySignupToken token w
     = (Throw (UnauthorizedException "Invalid or expired signup token"), w)
     ∧ ∀ payload, ¬ accepts "JWT_SIGNUP_SECRET" "signup" token w payload).
Proof.
  destruct (verify_shape "JWT_SIGNUP_SECRET" "signup" "Invalid or expired signup token"
              token w) as (Hiff & _ & Hshape).
  fold (verifySignupToken token) in Hiff, Hshape.
  destruct (verifySignupToken token w) as [o w1] eqn:Hrun.
  destruct (Hshape o w1 eq_refl) as [-> [[payload ->] | ->]].
  - left. exists payload. split; [done|]. by apply Hiff.
  - right. split; [done|]. intros payload Hacc. by apply Hiff in Hacc.
Qed.

Lemma getSignupAttempt_run attemptId w :
  ∃ r w',
    getSignupAttempt attemptId w = (Return r, w')
    ∧ db w' = db w ∧ now w' = now w ∧ config w' = config w
    ∧ ((fst (Prisma.roundTrip w) = Return () ∧ r = attemptOf attemptId (db w))
       ∨ (fst (Prisma.roundTrip w) = Throw Prisma.P1001 ∧ r = None)).
Proof.
  unfold getSignupAttempt, Prisma.signupAttempt.findUnique, attemptOf.
  rewrite run_tryCatch, run_bind.
  destruct (Prisma.roundTrip w) as [o1 w1] eqn:Hrt.
  apply roundTrip_inv in Hrt as (Hdb & Hnow & Hcfg & _ & _ & [-> | ->]); simpl.
  - unfoldM. simpl. eexists _, _. split; [done|]. split_and!; [done..|].
    left. by rewrite Hdb.
  - eexists _, _. split; [done|]. split_and!; [done..|]. by right.
Qed.

(** X19. [JwtAuthGuard] admits a request only when its Authorization
    header starts with [Bearer ], the rest of it is a token the access
    verifier accepts, and the user that the token's [sub] names is stored and
    ACTIVE; it then attaches that user to the request and changes nothing
    else. Every refusal is an [UnauthorizedException], also when the database
    cannot be reached; the guard never writes. *)
Theorem jwt_guard_admits_only_active_users (tokenOfString : string → Token)
    (request : Request.t) (w : World) o w' :
  JwtAuthGuard.canActivate tokenOfString request w = (o, w') →
  db w' = db w
  ∧ match o with
    | Return (admitted, request') =>
        admitted = true
        ∧ ∃ header payload id user,
            Request.authorization request = Some header
            ∧ JSString.startsWith "Bearer " header = true
            ∧ accepts "JWT_ACCESS_SECRET" "access"
                (tokenOfString (JSString.substringFrom 7 header)) w payload
            ∧ JS.prop "sub" payload = Some id
            ∧ userById id (db w) = Some user
            ∧ User.status user = ACTIVE
            ∧ request' = Request.setUser user request
    | Throw e => ∃ message, e = UnauthorizedException message
    end.
Proof.
  unfold JwtAuthGuard.canActivate.
  destruct (Request.authorization request) as [header|] eqn:Hheader;
    [|intros [= <- <-]; split; [done|]; by eexists].
  destruct (negb (JS.truthy header)) eqn:Hempty; cbn [orb negb];
    [intros [= <- <-]; split; [done|]; by eexists|].
  destruct (JSString.startsWith "Bearer " header) eqn:Hbearer; cbn [orb negb];
    [|intros [= <- <-]; split; [done|]; by eexists].
  rewrite run_tryCatch, run_bind.
  destruct (verifyAccessToken_cases (tokenOfString (JSString.substringFrom 7 header)) w)
    as [(payload & -> & Hacc) | [-> _]];
    [|intros [= <- <-]; split; [done|]; by eexists].
  rewrite run_bind. unfold JwtAuthGuard.findUser.
  destruct (JS.prop "sub" payload) as [id|] eqn:Hsub;
    [|intros [= <- <-]; split; [done|]; by eexists].
  rewrite run_bind.
  destruct (Prisma.roundTrip w) as [o1 w1] eqn:Hrt.
  apply roundTrip_inv in Hrt as (Hdb & Hnow & Hcfg & _ & _ & [-> | ->]);
    [|intros [= <- <-]; split; [done|]; by eexists].
  unfoldM. simpl. rewrite Hdb. fold (userById id (db w)).
  destruct (userById id (db w)) as [user|] eqn:Huser;
    [|intros [= <- <-]; split; [done|]; by eexists].
  case_bool_decide as Hactive; intros [= <- <-]; (split; [done|]); [by eexists|].
  split; [done|]. by exists header, payload, id, user.
Qed.

(** X20. [SignupJwtGuard] admits a request only when its Authorization
    header starts with [Bearer ], the rest of it is a token the signup
    verifier accepts, and the attempt that the token names is stored,
    IN_PROGRESS and not past its deadline (the deadline itself still
    passes); it then attaches the attempt and the payload to the request.
    Every refusal is an [UnauthorizedException]; when the database cannot be
    reached the attempt reads as not found. The guard never writes. *)
Theorem signup_guard_admits_only_live_attempts (tokenOfString : string → Token)
    (request : Request.t) (w : World) o w' :
  SignupJwtGuard.canActivate tokenOfString request w = (o, w') →
  db w' = db w
  ∧ match o with
    | Return (admitted, request') =>
        admitted = true
        ∧ ∃ header payload id attempt,
            Request.authorization request = Some header
            ∧ JSString.startsWith "Bearer " header = true
            ∧ accepts "JWT_SIGNUP_SECRET" "signup"
                (tokenOfString (JSString.substringFrom 7 header)) w payload
            ∧ JS.prop "attemptId" payload = Some id
            ∧ attemptOf id (db w) = Some attempt
            ∧ SignupAttempt.status attempt = IN_PROGRESS
            ∧ now w <= SignupAttempt.expiresAt attempt
            ∧ request' = Request.setSignup attempt payload request
    | Throw e =>
        (∃ message, e = UnauthorizedException message)
        ∧ (∀ header payload rest,
             Request.authorization request = Some header →
             JSString.startsWith "Bearer " header = true →
             accepts "JWT_SIGNUP_SECRET" "signup"
               (tokenOfString (JSString.substringFrom 7 header)) w payload →
             outages w = true :: rest →
             e = UnauthorizedException "Signup attempt not found")
    end.
Proof.
  unfold SignupJwtGuard.canActivate.
  destruct (Request.authorization request) as [header|] eqn:Hheader;
    [|intros [= <- <-]; split; [done|]; split; [by eexists|done]].
  destruct (negb (JS.truthy header)) eqn:Hempty; cbn [orb negb].
  { intros [= <- <-]. split; [done|]. split; [by eexists|].
    intros header' payload rest [= <-] Hbearer.
    destruct header; [done|]. done. }
  destruct (JSString.startsWith "Bearer " header) eqn:Hbearer; cbn [orb negb].
  2:{ intros [= <- <-]. split; [done|]. split; [by eexists|].
      intros header' payload rest [= <-]. congruence. }
  rewrite run_tryCatch, run_bind.
  destruct (verifySignupToken_cases (tokenOfString (JSString.substringFrom 7 header)) w)
    as [(payload & Hverify & Hacc) | [-> Hrej]].
  2:{ intros [= <- <-]. split; [done|]. split; [by eexists|].
      intros header' payload rest [= <-] _ Hacc. by destruct (Hrej payload). }
  rewrite Hverify, run_bind. unfold SignupJwtGuard.fetchAttempt.
  assert (∀ payload', accepts "JWT_SIGNUP_SECRET" "signup"
                        (tokenOfString (JSString.substringFrom 7 header)) w payload' →
                      payload' = payload) as Hsame.
  { intros payload' (j' & s' & Hj' & -> & _). destruct Hacc as (j & s0 & Hj & -> & _).
    congruence. }
  destruct (JS.prop "attemptId" payload) as [id|] eqn:Hid.
  2:{ intros [= <- <-]. split; [done|]. split; [by eexists|done]. }
  destruct (getSignupAttempt_run id w) as (r & w1 & -> & Hdb1 & Hnow1 & _ & Hr).
  destruct Hr as [[Hup ->] | [_ ->]].
  2:{ intros [= <- <-]. split; [done|]. split; [by eexists|done]. }
  destruct (attemptOf id (db w)) as [attempt|] eqn:Hattempt.
  2:{ intros [= <- <-]. split; [done|]. split; [by eexists|done]. }
  assert (∀ rest, outages w = true :: rest → False) as Hreach.
  { intros rest Hdown. by rewrite (roundTrip_down w rest Hdown) in Hup. }
  case_bool_decide as Hstatus.
  { intros [= <- <-]. split; [done|]. split; [by eexists|].
    intros ? ? rest _ _ _ Hdown. by destruct (Hreach rest). }
  unfoldM. simpl. rewrite Hnow1.
  case_bool_decide as Hexpired; intros [= <- <-]; (split; [done|]).
  { split; [by eexists|]. intros ? ? rest _ _ _ Hdown. by destruct (Hreach rest). }
  split; [done|]. exists header, payload, id, attempt. split_and!; try done. lia.
Qed.

(** *** The controller *)

Lemma keepsEnv_ret {A} (a : A) : keepsEnv (mret a).
Proof. by intros w o w' [= <- <-]. Qed.

Lemma keepsEnv_throw {A} e : keepsEnv (throw e : M A).
Proof. by intros w o w' [= <- <-]. Qed.

Lemma keepsEnv_gets {A} (f : World → A) : keepsEnv (gets f).
Proof. by intros w o w' [= <- <-]. Qed.

Lemma keepsEnv_modifyDb f : keepsEnv (modifyDb f).
Proof. by intros w o w' [= <- <-]. Qed.

Lemma keepsEnv_freshId : keepsEnv freshId.
Proof. by intros w o w' [= <- <-]. Qed.

Lemma keepsEnv_roundTrip : keepsEnv Prisma.roundTrip.
Proof. intros w o w' Hrun. by apply roundTrip_inv in Hrun as (_ & ? & ? & _). Qed.

Lemma keepsEnv_bind {A B} (m : M A) (k : A → M B) :
  keepsEnv m → (∀ a, keepsEnv (k a)) → keepsEnv (m ≫= k).
Proof.
  intros Hm Hk w o w' Hrun. rewrite run_bind in Hrun.
  destruct (m w) as [[a|e] w1] eqn:Hmw.
  - destruct (Hm _ _ _ Hmw) as [<- <-]. by eapply Hk.
  - injection Hrun as <- <-. by eapply Hm.
Qed.

Lemma keepsEnv_tryCatch {A} (body : M A) (handler : Exn → M A) :
  keepsEnv body → (∀ e, keepsEnv (handler e)) → keepsEnv (tryCatch body handler).
Proof.
  intros Hbody Hhandler w o w' Hrun. rewrite run_tryCatch in Hrun.
  destruct (body w) as [[a|e] w1] eqn:Hbw.
  - injection Hrun as <- <-. by eapply Hbody.
  - destruct (Hbody _ _ _ Hbw) as [<- <-]. by eapply Hhandler.
Qed.

Ltac keeping :=
  repeat lazymatch goal with
    | |- keepsEnv (mret _) => apply keepsEnv_ret
    | |- keepsEnv (throw _) => apply keepsEnv_throw
    | |- keepsEnv (gets _) => apply keepsEnv_gets
    | |- keepsEnv (modifyDb _) => apply keepsEnv_modifyDb
    | |- keepsEnv Prisma.roundTrip => apply keepsEnv_roundTrip
    | |- keepsEnv freshId => apply keepsEnv_freshId
    | |- keepsEnv (mbind _ _) => apply keepsEnv_bind; [|intros ?]
    | |- keepsEnv (tryCatch _ _) => apply keepsEnv_tryCatch; [|intros ?]
    | |- keepsEnv (match ?x with _ => _ end) => destruct x
    end.

Lemma keepsEnv_refreshApplication refreshToken :
  keepsEnv (refreshApplication ms refreshToken).
Proof.
  unfold refreshApplication, verifyRefreshToken, generateAccessToken,
    getAccessTokenExpiryInSeconds, shouldRotateRefreshToken, rotateRefreshToken,
    generateRefreshToken, jwtVerify, jwtSign, Prisma.refreshToken.findUniqueWithUser,
    Prisma.refreshToken.findUnique, Prisma.refreshToken.update,
    Prisma.refreshToken.create, ConfigService.getOrThrow, ConfigService.get,
    ConfigService.getOr.
  keeping.
Qed.

(** X21. [GET /auth/refresh-application] always replies. A failure of
    the service is a 401 carrying the failure, with no cookie. A success is
    a 200 whose body never carries a refresh token: when the session was
    rotated the new token travels only in the [session] cookie, which is
    http-only, same-site lax, on path [/], secure exactly in production, and
    whose value is a refresh token now stored. Its [maxAge] is the
    2592000000 the handler passes, the milliseconds of thirty days; the
    header counts it in seconds, so it asks the browser to keep the cookie
    for thirty thousand days, a thousand times the thirty days of the
    refresh token.
    When the session was not rotated, no cookie is set and nothing was
    written. *)
Theorem refresh_endpoint_replies (req : Request.t) (w : World) o w' :
  AuthController.refreshApplication ms req w = (o, w') →
  ∃ reply, o = Return reply
  ∧ ((Reply.status reply = 401
      ∧ Reply.setCookie reply = None
      ∧ ∃ message, Reply.body reply = RefreshFailure message "/login")
     ∨ (Reply.status reply = 200
        ∧ (∃ accessToken user expiresIn,
             Reply.body reply = RefreshSuccess accessToken user expiresIn None)
        ∧ match Reply.setCookie reply with
          | None => db w' = db w
          | Some cookie =>
              cookie = Cookie.mk "session" (Cookie.value cookie) true
                         (bool_decide (config w !! "NODE_ENV" = Some "production"))
                         "lax" 2592000000 "/"
              ∧ Cookie.maxAge cookie = 30 * JS.msPerDay
              ∧ Cookie.lifetime cookie = 30000 * JS.msPerDay
              ∧ tokenType (Cookie.value cookie) = Some "refresh"
              ∧ Cookie.value cookie ∈ RefreshToken.token <$> refreshTokens (db w')
          end)).
Proof.
  unfold AuthController.refreshApplication. cbv zeta. rewrite run_bind.
  destruct (refreshApplication ms (Request.session req) w) as [o1 w1] eqn:Hrun.
  destruct (keepsEnv_refreshApplication _ _ _ _ Hrun) as [_ Hconfig].
  apply refreshApplication_inv in Hrun as (dto & -> & Hdto).
  destruct dto as [accessToken user expiresIn newRefreshToken | message redirectTo].
  - destruct Hdto as (token & tokenId & record & owner & _ & _ & _ & _ & Hnew).
    destruct newRefreshToken as [new|].
    + destruct Hnew as (_ & row & Hdb & Htoken & Htype & _).
      destruct new as [raw|j]; [done|].
      unfoldM. simpl. intros [= <- <-]. eexists. split; [done|]. right. simpl.
      split; [done|]. split; [by eexists _, _, _|].
      rewrite Hconfig. split_and!; [done..|].
      rewrite Hdb. simpl. rewrite fmap_app. apply elem_of_app. right.
      rewrite <- Htoken. by apply list_elem_of_singleton.
    + destruct Hnew as [Hdb _]. intros [= <- <-]. eexists. split; [done|]. right.
      simpl. split; [done|]. split; [by eexists _, _, _|done].
  - destruct Hdto as [-> _]. intros [= <- <-]. eexists. split; [done|]. left.
    simpl. split_and!; [done|done|by eexists].
Qed.

(** The answers of [signup], whatever the table holds. *)
Lemma signup_codes email firstName lastName password w :
  ∃ dto w',
    signup ms bcrypt_hash email firstName lastName password w = (Return dto, w')
    ∧ match dto with
      | SignupSuccess _ _ _ _ _ => True
      | SignupFailure message statusCode =>
          (statusCode = 409 ∧ message = "An account with this email already exists")
          ∨ (statusCode = 500 ∧ message = "An error occurred during signup")
      end.
Proof.
  unfold signup. rewrite run_tryCatch, run_bind.
  destruct (checkUserExists email w) as [o1 w1] eqn:Hcheck.
  apply checkUserExists_inv in Hcheck as (_ & _ & _ & [[_ ->] | [_ ->]]).
  2:{ eexists _, _. split; [done|]. by right. }
  destruct (bool_decide _).
  { eexists _, _. split; [done|]. by left. }
  rewrite run_bind.
  destruct (findInProgressAttempt_run email w1) as (r & w2 & -> & _).
  destruct r as [a|]; rewrite run_bind.
  - destruct (resumeSignupAttempt a w2) as [[a'|e] w3] eqn:Hresume;
      apply resumeSignupAttempt_inv in Hresume as (_ & _ & Hresume).
    2:{ destruct Hresume as [-> _]. eexists _, _. split; [done|]. by right. }
    rewrite run_bind.
    destruct (generateSignupToken_run (SignupAttempt.id a') (SignupAttempt.email a')
                (SignupAttempt.currentStep a') w3) as (o4 & -> & Hnoconflict).
    destruct o4 as [token|e]; [by eexists _, _|].
    destruct e; (eexists _, _; split; [done|]); try by right.
    all: by destruct (Hnoconflict message).
  - destruct (createSignupAttempt bcrypt_hash email firstName lastName password w2)
      as [[a'|e] w3] eqn:Hcreate; apply createSignupAttempt_inv in Hcreate.
    2:{ destruct Hcreate as (_ & [(-> & _) | (-> & _)]); eexists _, _; (split; [done|]);
          [by left|by right]. }
    rewrite run_bind.
    destruct (generateSignupToken_run (SignupAttempt.id a') (SignupAttempt.email a')
                (SignupAttempt.currentStep a') w3) as (o4 & -> & Hnoconflict).
    destruct o4 as [token|e]; [by eexists _, _|].
    destruct e; (eexists _, _; split; [done|]); try by right.
    all: by destruct (Hnoconflict message).
Qed.

(** X22. [POST /auth/signup] always replies, never sets a cookie, and
    answers with one of three statuses: 200 with the success, 409 with the
    conflict, 500 with the generic failure. The fallback to 400 for a
    failure without a status code is never taken. *)
Theorem signup_endpoint_replies (email firstName lastName password : string) (w : World) :
  ∃ reply w',
    AuthController.signup ms bcrypt_hash email firstName lastName password w
    = (Return reply, w')
    ∧ fst (signup ms bcrypt_hash email firstName lastName password w)
      = Return (Reply.body reply)
    ∧ Reply.setCookie reply = None
    ∧ match Reply.body reply with
      | SignupSuccess _ _ _ _ _ => Reply.status reply = 200
      | SignupFailure message statusCode =>
          Reply.status reply = statusCode
          ∧ ((statusCode = 409 ∧ message = "An account with this email already exists")
             ∨ (statusCode = 500 ∧ message = "An error occurred during signup"))
      end.
Proof.
  destruct (signup_codes email firstName lastName password w) as (dto & w' & Hrun & Hdto).
  unfold AuthController.signup. rewrite run_bind, Hrun.
  destruct dto as [token nextStep attemptId resumed steps | message statusCode].
  - by eexists _, _.
  - eexists _, _. split; [done|]. simpl. split_and!; [done|done| |done].
    by destruct Hdto as [[-> _] | [-> _]].
Qed.

(** *** What the guards let through *)

Lemma verifyAccessToken_accepted token w payload :
  accepts "JWT_ACCESS_SECRET" "access" token w payload →
  verifyAccessToken token w = (Return payload, w).
Proof.
  apply (verify_shape "JWT_ACCESS_SECRET" "access" "Invalid or expired access token").
Qed.

Lemma verifySignupToken_accepted token w payload :
  accepts "JWT_SIGNUP_SECRET" "signup" token w payload →
  verifySignupToken token w = (Return payload, w).
Proof.
  apply (verify_shape "JWT_SIGNUP_SECRET" "signup" "Invalid or expired signup token").
Qed.

(** X23. The converse of X19 and X20: with the database reachable, a
    request whose header is [Bearer ] followed by an accepted token is
    admitted by [JwtAuthGuard] when the token's [sub] names a stored ACTIVE
    user, and by [SignupJwtGuard] when the token names a stored IN_PROGRESS
    attempt whose deadline has not passed. The guard returns [true], attaches
    the entity and leaves the state as it was. *)
Theorem guards_admit_valid_requests (tokenOfString : string → Token)
    (request : Request.t) (w : World) (header : string) :
  Request.authorization request = Some header →
  JSString.startsWith "Bearer " header = true →
  databaseUp w →
  (∀ payload id user,
     accepts "JWT_ACCESS_SECRET" "access"
       (tokenOfString (JSString.substringFrom 7 header)) w payload →
     JS.prop "sub" payload = Some id →
     userById id (db w) = Some user →
     User.status user = ACTIVE →
     JwtAuthGuard.canActivate tokenOfString request w
     = (Return (true, Request.setUser user request), w))
  ∧ (∀ payload id attempt,
       accepts "JWT_SIGNUP_SECRET" "signup"
         (tokenOfString (JSString.substringFrom 7 header)) w payload →
       JS.prop "attemptId" payload = Some id →
       attemptOf id (db w) = Some attempt →
       SignupAttempt.status attempt = IN_PROGRESS →
       now w <= SignupAttempt.expiresAt attempt →
       SignupJwtGuard.canActivate tokenOfString request w
       = (Return (true, Request.setSignup attempt payload request), w)).
Proof.
  intros Hheader Hbearer Hup.
  assert (negb (JS.truthy header) = false) as Htruthy.
  { destruct header; [done|]. done. }
  split.
  - intros payload id user Hacc Hsub Huser Hactive.
    unfold JwtAuthGuard.canActivate. rewrite Hheader, Htruthy, Hbearer. cbn [orb negb].
    rewrite run_tryCatch, run_bind, (verifyAccessToken_accepted _ _ _ Hacc), run_bind.
    unfold JwtAuthGuard.findUser. rewrite Hsub, run_bind, (roundTrip_up w Hup).
    unfold userById in Huser. unfoldM. simpl. rewrite Huser.
    by rewrite bool_decide_eq_false_2 by (by intros ?).
  - intros payload id attempt Hacc Hid Hattempt Hstatus Hlive.
    unfold SignupJwtGuard.canActivate. rewrite Hheader, Htruthy, Hbearer. cbn [orb negb].
    rewrite run_tryCatch, run_bind, (verifySignupToken_accepted _ _ _ Hacc), run_bind.
    unfold SignupJwtGuard.fetchAttempt, getSignupAttempt, Prisma.signupAttempt.findUnique.
    rewrite Hid, run_tryCatch, run_bind, (roundTrip_up w Hup).
    unfold attemptOf in Hattempt. unfoldM. simpl. rewrite Hattempt.
    rewrite bool_decide_eq_false_2 by (by intros ?).
    by rewrite bool_decide_eq_false_2 by lia.
Qed.

(** *** Rotation is not atomic *)

(** X24. The two writes of [rotateRefreshToken] are separate statements.
    With the database reachable, rotating an id that names no record throws
    the rotation error and writes nothing; rotating a stored record on
    behalf of a user id that is not stored revokes the record and then
    throws, leaving it revoked with no successor. Whatever the cause, the
    caller sees the one rotation error. *)
Theorem rotation_failure_edges (oldTokenId userId : string) (w : World) :
  databaseUp w →
  (∀ e w', rotateRefreshToken ms oldTokenId userId w = (Throw e, w') →
           e = InternalServerErrorException "Failed to rotate refresh token")
  ∧ (sessionOf oldTokenId (db w) = None →
     ∃ w', rotateRefreshToken ms oldTokenId userId w
           = (Throw (InternalServerErrorException "Failed to rotate refresh token"), w')
           ∧ db w' = db w)
  ∧ (∀ record,
       sessionOf oldTokenId (db w) = Some record →
       userId ∉ User.id <$> users (db w) →
       ∃ w', rotateRefreshToken ms oldTokenId userId w
             = (Throw (InternalServerErrorException "Failed to rotate refresh token"), w')
             ∧ db w' = setRefreshTokens
                         (revokedIn oldTokenId (refreshTokens (db w))) (db w)).
Proof.
  intros Hup. split_and!.
  - intros e w'. apply rotateRefreshToken_throws.
  - intros Hnone.
    destruct (rotateRefreshToken ms oldTokenId userId w) as [[result|e] w'] eqn:Hrun.
    + apply rotateRefreshToken_inv in Hrun as (r & w1 & issued & Hrevoke & _).
      apply refreshToken_update_inv in Hrevoke as (_ & _ & old & Hfind & _).
      unfold sessionOf in Hnone. congruence.
    + pose proof (rotateRefreshToken_throws _ _ _ _ _ Hrun) as ->.
      exists w'. split; [done|].
      apply rotateRefreshToken_inv in Hrun as [(e1 & Hrevoke) | (r & w1 & e1 & Hrevoke & _)].
      * by apply refreshToken_update_inv in Hrevoke as (_ & _ & ?).
      * apply refreshToken_update_inv in Hrevoke as (_ & _ & old & Hfind & _).
        unfold sessionOf in Hnone. congruence.
  - intros record Hrecord Hunknown.
    destruct (rotateRefreshToken ms oldTokenId userId w) as [[result|e] w'] eqn:Hrun.
    + apply rotateRefreshToken_inv in Hrun as (r & w1 & issued & Hrevoke & Hissue & _).
      apply refreshToken_update_inv in Hrevoke as (_ & _ & old & _ & _ & Hdb1).
      apply generateRefreshToken_shape in Hissue as (secret & e & _ & _ & _ & Hknown).
      rewrite Hdb1 in Hknown. done.
    + pose proof (rotateRefreshToken_throws _ _ _ _ _ Hrun) as ->.
      exists w'. split; [done|].
      apply rotateRefreshToken_inv in Hrun as [(e1 & Hrevoke) | (r & w1 & e1 & Hrevoke & Hissue)].
      * exfalso. revert Hrevoke. unfold Prisma.refreshToken.update.
        rewrite run_bind, (roundTrip_up w Hup). unfold sessionOf in Hrecord.
        unfoldM. simpl. by rewrite Hrecord.
      * apply refreshToken_update_inv in Hrevoke as (_ & _ & old & _ & _ & Hdb1).
        apply generateRefreshToken_inv in Hissue as (_ & _ & -> & _). by rewrite Hdb1.
Qed.

(** *** Create, then find *)

(** X25. An attempt that [createSignupAttempt] has stored is the one
    [findInProgressAttempt] returns, for the email in any letter case, in
    every state that holds the tables the create left, with the database
    reachable and the clock before the deadline the attempt was stored
    with. *)
Theorem created_attempt_is_found (email firstName lastName password : string)
    (w : World) (a : SignupAttempt.t) (w' : World) :
  indexed (db w) →
  createSignupAttempt bcrypt_hash email firstName lastName password w = (Return a, w') →
  ∀ email2 w2,
    JS.toLowerCase email2 = JS.toLowerCase email →
    db w2 = db w' →
    databaseUp w2 →
    now w2 < SignupAttempt.expiresAt a →
    fst (findInProgressAttempt email2 w2) = Return (Some a).
Proof.
  intros Hindexed Hcreate email2 w2 Hcase Hdb2 Hup Hbefore.
  assert (indexed (db w')) as [_ Hkeys'].
  { by apply (preserves_createSignupAttempt email firstName lastName password w
                (Return a) w'). }
  apply createSignupAttempt_inv in Hcreate
    as (_ & Hemail & Hstatus & _ & _ & Hexpires & _ & _ & Hdb').
  assert (a ∈ signupAttempts (db w')) as Ha.
  { rewrite Hdb'. simpl. apply elem_of_app. right. by apply list_elem_of_singleton. }
  assert (resumableFor email2 (now w2) a = true) as Hres.
  { unfold resumableFor. rewrite Hcase.
    rewrite !bool_decide_eq_true_2 by (done || lia). done. }
  destruct (findInProgressAttempt_run email2 w2) as (r & w3 & -> & _ & _ & _ & Hr).
  simpl. f_equal.
  destruct Hr as [[_ ->] | [Hdown _]]; [|by rewrite (roundTrip_up w2 Hup) in Hdown].
  pose proof (newest_spec (List.filter (resumableFor email2 (now w2))
                             (signupAttempts (db w2)))) as Hnewest.
  destruct (Prisma.signupAttempt.newest _) as [b|].
  - destruct Hnewest as [[Hb Hbres]%filter_elem_of _]. f_equal.
    rewrite Hdb2 in Hb.
    apply (key_holder_unique (signupAttempts (db w'))); try done.
    pose proof Hbres as [[He Hs]%andb_prop _]%andb_prop.
    apply bool_decide_eq_true_1 in He, Hs.
    unfold SignupAttempt.key. congruence.
  - assert (a ∈ List.filter (resumableFor email2 (now w2)) (signupAttempts (db w2))) as Hin.
    { apply filter_elem_of. by rewrite Hdb2. }
    rewrite Hnewest in Hin. by apply elem_of_nil in Hin.
Qed.

(** *** Revocation is permanent *)

Lemma closed_create id tokenId token userId expiresAt :
  preserves (closed id) (Prisma.refreshToken.create tokenId token userId expiresAt).
Proof.
  intros w o w' Hrun (r & Hr & Hrevoked). revert Hrun.
  unfold Prisma.refreshToken.create. rewrite run_bind.
  destruct (Prisma.roundTrip w) as [o1 w1] eqn:Hrt.
  apply roundTrip_inv in Hrt as (Hdb & _ & _ & _ & _ & [-> | ->]);
    [|intros [= <- <-]; exists r; by rewrite Hdb].
  unfoldM. simpl. rewrite Hdb.
  repeat case_bool_decide; intros [= <- <-]; exists r; simpl; rewrite ?Hdb;
    (split; [|done]); try done.
  unfold sessionOf in *. simpl. rewrite <- (app_nil_r (refreshTokens (db w))) in Hr.
  clear -Hr. induction (refreshTokens (db w)) as [|x rows IH]; [done|].
  simpl in *. destruct (Prisma.refreshToken.byId id x); [done|]. by apply IH.
Qed.

Lemma closed_rewrite id (where_ : RefreshToken.t → bool) d :
  closed id d →
  closed id (setRefreshTokens
               ((λ r, if where_ r then RefreshToken.setRevoked true r else r)
                  <$> refreshTokens d) d).
Proof.
  intros (r & Hr & Hrevoked). unfold closed, sessionOf in *. simpl.
  rewrite find_byId_fmap by (intros x; by destruct (where_ x)).
  rewrite Hr. simpl. eexists. split; [done|]. by destruct (where_ r).
Qed.

Lemma closed_update id tokenId :
  preserves (closed id) (Prisma.refreshToken.update tokenId true).
Proof.
  intros w o w' Hrun Hclosed.
  apply refreshToken_update_inv in Hrun as (_ & _ & Hrun).
  destruct o as [r|e]; [|by rewrite Hrun].
  destruct Hrun as (old & _ & _ & ->). by apply closed_rewrite.
Qed.

Lemma closed_updateMany id where_ :
  preserves (closed id) (Prisma.refreshToken.updateMany where_ true).
Proof.
  intros w o w' Hrun Hclosed. revert Hrun.
  unfold Prisma.refreshToken.updateMany. rewrite run_bind.
  destruct (Prisma.roundTrip w) as [o1 w1] eqn:Hrt.
  apply roundTrip_inv in Hrt as (Hdb & _ & _ & _ & _ & [-> | ->]);
    [|intros [= <- <-]; by rewrite Hdb].
  unfoldM. simpl. intros [= <- <-]. simpl. rewrite Hdb. by apply closed_rewrite.
Qed.

Lemma closed_attempts id rows d : closed id d → closed id (setSignupAttempts rows d).
Proof. done. Qed.

Lemma closed_attempt_create id email firstName lastName passwordHash currentStep
    status expiresAt :
  preserves (closed id)
    (Prisma.signupAttempt.create email firstName lastName passwordHash currentStep
       status expiresAt).
Proof.
  intros w o w' Hrun Hclosed. apply signupAttempt_create_inv in Hrun as (_ & _ & Hrun).
  destruct o as [a|e]; [|by destruct Hrun as [-> _]].
  destruct Hrun as (_ & _ & _ & ->). by apply closed_attempts.
Qed.

Lemma closed_attempt_update id attemptId data :
  preserves (closed id) (Prisma.signupAttempt.update attemptId data).
Proof.
  intros w o w' Hrun Hclosed. apply signupAttempt_update_inv in Hrun as (_ & _ & Hrun).
  destruct o as [a|e]; [|by rewrite Hrun].
  destruct Hrun as (a0 & _ & _ & _ & ->). by apply closed_attempts.
Qed.

Lemma closed_attempt_updateMany id where_ data :
  preserves (closed id) (Prisma.signupAttempt.updateMany where_ data).
Proof.
  intros w o w' Hrun Hclosed. apply signupAttempt_updateMany_inv in Hrun.
  destruct o as [n|e]; [|by rewrite Hrun].
  destruct Hrun as (_ & _ & ->). by apply closed_attempts.
Qed.

Ltac closing :=
  repeat lazymatch goal with
    | |- preserves _ (mret _) => apply preserves_ret
    | |- preserves _ (throw _) => apply preserves_throw
    | |- preserves _ (gets _) => apply preserves_gets
    | |- preserves _ Prisma.roundTrip => apply preserves_roundTrip
    | |- preserves _ freshId => apply preserves_freshId
    | |- preserves _ (Prisma.refreshToken.create _ _ _ _) => apply closed_create
    | |- preserves _ (Prisma.refreshToken.update _ true) => apply closed_update
    | |- preserves _ (Prisma.refreshToken.updateMany _ true) => apply closed_updateMany
    | |- preserves _ (Prisma.signupAttempt.create _ _ _ _ _ _ _) =>
        apply closed_attempt_create
    | |- preserves _ (Prisma.signupAttempt.update _ _) => apply closed_attempt_update
    | |- preserves _ (Prisma.signupAttempt.updateMany _ _) =>
        apply closed_attempt_updateMany
    | |- preserves _ (mbind _ _) => apply preserves_bind; [|intros ?]
    | |- preserves _ (tryCatch _ _) => apply preserves_tryCatch; [|intros ?]
    | |- preserves _ (match ?x with _ => _ end) => destruct x
    end.

Lemma closed_moves id w w' :
  moves ms bcrypt_hash w w' → closed id (db w) → closed id (db w').
Proof.
  intros Hmove. destruct Hmove; try (apply preserves_snd).
  - unfold generateRefreshToken, jwtSign, ConfigService.getOrThrow, ConfigService.get,
      ConfigService.getOr. closing.
  - unfold rotateRefreshToken, generateRefreshToken, jwtSign, ConfigService.getOrThrow,
      ConfigService.get, ConfigService.getOr. closing.
  - unfold revokeRefreshToken. closing.
  - unfold revokeAllUserRefreshTokens. closing.
  - unfold refreshApplication, verifyRefreshToken, generateAccessToken,
      getAccessTokenExpiryInSeconds, shouldRotateRefreshToken, rotateRefreshToken,
      generateRefreshToken, jwtVerify, jwtSign, Prisma.refreshToken.findUniqueWithUser,
      Prisma.refreshToken.findUnique, ConfigService.getOrThrow, ConfigService.get,
      ConfigService.getOr.
    closing.
  - unfold signup, checkUserExists, findInProgressAttempt, resumeSignupAttempt,
      createSignupAttempt, generateSignupToken, checkUserExists, bcryptHash, jwtSign,
      Prisma.user.findUnique, Prisma.signupAttempt.findFirst, ConfigService.getOrThrow,
      ConfigService.get, ConfigService.getOr.
    closing.
  - unfold createSignupAttempt, checkUserExists, bcryptHash, Prisma.user.findUnique,
      ConfigService.getOr. closing.
  - unfold resumeSignupAttempt. closing.
  - unfold updateSignupStep, Prisma.signupAttempt.findUnique. closing.
  - unfold completeSignupAttempt. closing.
  - unfold markExpiredAttempts. closing.
  - rename select (db _ = db _) into Hdb. by rewrite Hdb.
Qed.

(** X26. Revocation is permanent. No operation of the services un-revokes
    or removes a refresh-token record: once the record of a session is
    stored and revoked, it is so after any sequence of calls of the token,
    signup and refresh operations and of moves of the environment, and a
    refresh with a token that names the session is refused in every such
    state, without writing. *)
Theorem revocation_is_permanent (id : string) (w w' : World) :
  closed id (db w) →
  rtc (moves ms bcrypt_hash) w w' →
  closed id (db w')
  ∧ ∀ token o w'',
      namedSession token = Some id →
      refreshApplication ms (Some token) w' = (o, w'') →
      refused o ∧ db w'' = db w'.
Proof.
  intros Hclosed Hmoves.
  assert (closed id (db w')) as Hclosed'.
  { induction Hmoves as [w|w w1 w2 Hmove _ IH]; [done|].
    apply IH. by apply (closed_moves id w w1). }
  split; [done|]. intros token o w'' Hname Hrun.
  apply (refreshApplication_refuses token w' o w''); [|done].
  intros tokenId record Hname' Hrecord.
  rewrite Hname in Hname'. injection Hname' as <-.
  destruct Hclosed' as (r & Hr & Hrevoked). congruence.
Qed.

End Properties.

(** ** The properties at the sample deployment *)

Example toLowerCase_sample : JS.toLowerCase "Ada@Example.COM" = "ada@example.com".
Proof. reflexivity. Qed.

Example parseInt_samples :
  JS.parseInt "7" = Some 7 ∧ JS.parseInt " -12px" = Some (-12)
  ∧ JS.parseInt (JS.removeFirst "d" "30d") = Some 30
  ∧ JS.parseInt "d" = None ∧ JS.parseInt "" = None.
Proof. repeat split; reflexivity. Qed.

(** The state with a swept attempt and a stale one is observed: sign up at
    instant 0, sweep three hours later, sign up again, wait three hours. *)
Example sweptAndStale_reachable :
  reachable Sample.bcrypt_hash (Sample.world Sample.sweptAndStale (6 * Sample.hour) []).
Proof.
  pose (w0 := Sample.worldAfter 0 (mkDb [] [] []) 0 []).
  pose (w1 := snd (createSignupAttempt Sample.bcrypt_hash "Cy@Example.com" "Cy" "Young" "cy" w0)).
  pose (w2 := Sample.worldAfter 1 (db w1) (3 * Sample.hour) []).
  pose (w3 := snd (markExpiredAttempts w2)).
  pose (w4 := snd (createSignupAttempt Sample.bcrypt_hash "cy@example.com" "Cy" "Young" "cy" w3)).
  apply (reachable_step _ w4); [|apply step_environment; by vm_compute].
  apply (reachable_step _ w3); [|apply step_create].
  apply (reachable_step _ w2); [|apply step_sweepExpired].
  apply (reachable_step _ w1); [|apply step_environment; by vm_compute].
  apply (reachable_step _ w0); [|apply step_create].
  by apply reachable_initial.
Qed.

(** So is the state with a completed attempt and a later one in progress. *)
Example completedAndLive_reachable :
  reachable Sample.bcrypt_hash (Sample.world Sample.completedAndLive (4 * Sample.hour) []).
Proof.
  pose (w0 := Sample.worldAfter 0 (mkDb [] [] []) 0 []).
  pose (w1 := snd (createSignupAttempt Sample.bcrypt_hash "Cy@Example.com" "Cy" "Young" "cy" w0)).
  pose (w2 := Sample.worldAfter 1 (db w1) Sample.hour []).
  pose (w3 := snd (completeSignupAttempt "uuid-0" w2)).
  pose (w4 := Sample.worldAfter 1 (db w3) (3 * Sample.hour) []).
  pose (w5 := snd (createSignupAttempt Sample.bcrypt_hash "cy@example.com" "Cy" "Young" "cy" w4)).
  apply (reachable_step _ w5); [|apply step_environment; by vm_compute].
  apply (reachable_step _ w4); [|apply step_create].
  apply (reachable_step _ w3); [|apply step_environment; by vm_compute].
  apply (reachable_step _ w2); [|apply step_complete].
  apply (reachable_step _ w1); [|apply step_environment; by vm_compute].
  apply (reachable_step _ w0); [|apply step_create].
  by apply reachable_initial.
Qed.

(** Signing up twice in sequence: the second call resumes the attempt of the
    first. *)
Example signup_twice_resumes :
  let w := Sample.world (mkDb [Sample.ada] [] []) 0 [] in
  let first := signup Sample.ms Sample.bcrypt_hash "Cy@Example.com" "Cy" "Young" "cy" w in
  let second :=
    signup Sample.ms Sample.bcrypt_hash "cy@example.com" "Cy" "Young" "cy" (snd first) in
  let token :=
    Signed (mkJwt [("attemptId", "uuid-2"); ("email", "cy@example.com");
                   ("type", "signup"); ("currentStep", "email_verification")]
              0 (Some 7200) "signup-secret") in
  fst first = Return (SignupSuccess token "email_verification" "uuid-2" None None)
  ∧ fst second
    = Return (SignupSuccess token "email_verification" "uuid-2" (Some true) (Some []))
  ∧ SignupAttempt.attemptCount <$> signupAttempts (db (snd second)) = [2].
Proof. by vm_compute. Qed.

(** A refresh token issued and at once revoked by [revokeAllUserRefreshTokens]
    is answered with the revoked session. *)
Example refresh_after_revokeAll_is_revoked :
  let w := Sample.world (mkDb [Sample.ada] [] []) 0 [] in
  let issue := generateRefreshToken Sample.ms "u-ada" w in
  let revoked := snd (revokeAllUserRefreshTokens "u-ada" (snd issue)) in
  let token := Sample.tokenOf "uuid-2" "u-ada" in
  fst issue = Return (Issued.mk token (30 * Sample.day) "uuid-2")
  ∧ fst (refreshApplication Sample.ms (Some token) revoked)
    = Return (RefreshFailure "Session has been revoked" "/login").
Proof. by vm_compute. Qed.

(** An attempt created at instant 0 is swept at 2 h + 1 s; no attempt is
    resumable then and a new one can be created. *)
Example sweep_then_create_again :
  let w := Sample.world (mkDb [] [] []) 0 [] in
  let created := createSignupAttempt Sample.bcrypt_hash "Cy@Example.com" "Cy" "Young" "cy" w in
  let later := Sample.worldAfter 3 (db (snd created)) (2 * Sample.hour + 1000) [] in
  let swept := markExpiredAttempts later in
  returns (fst created)
  ∧ fst swept = Return 1
  ∧ SignupAttempt.status <$> signupAttempts (db (snd swept)) = [EXPIRED]
  ∧ fst (findInProgressAttempt "cy@example.com" (snd swept)) = Return None
  ∧ returns (fst (createSignupAttempt Sample.bcrypt_hash "Cy@Example.com" "Cy" "Young" "cy"
                    (snd swept))).
Proof. vm_compute. split_and!; try done; by eexists. Qed.

(** The threshold of seven days is inclusive. *)
Example shouldRotate_at_the_boundary :
  fst (shouldRotateRefreshToken "t-ada" (Sample.world Sample.sessions (7 * Sample.day) []))
  = Return true
  ∧ fst (shouldRotateRefreshToken "t-ada"
           (Sample.world Sample.sessions (7 * Sample.day - 1) []))
    = Return false
  ∧ fst (shouldRotateRefreshToken "t-gone" (Sample.world Sample.sessions (7 * Sample.day) []))
    = Return false.
Proof. by vm_compute. Qed.

(** C1, as stated, at the sample: Ada's session is issued and rotated in the
    same millisecond. The rotation returns, the old record is revoked and
    one new record is stored, but its createdAt is the old record's, not a
    later one. *)
Lemma rotation_in_the_millisecond_of_issue :
  let w := Sample.world (mkDb [Sample.ada] [] []) 0 [] in
  let issue := generateRefreshToken Sample.ms "u-ada" w in
  let run := rotateRefreshToken Sample.ms "uuid-2" "u-ada" (snd issue) in
  let old := RefreshToken.mk "uuid-2" (Sample.tokenOf "uuid-2" "u-ada") "u-ada" false
               (30 * Sample.day) 0 in
  let new := RefreshToken.mk "uuid-3" (Sample.tokenOf "uuid-3" "u-ada") "u-ada" false
               (30 * Sample.day) 0 in
  refreshTokens (db (snd issue)) = [old]
  ∧ returns (fst run)
  ∧ refreshTokens (db (snd run)) = [RefreshToken.setRevoked true old; new]
  ∧ newRows (refreshTokens (db (snd issue))) (refreshTokens (db (snd run))) = [new]
  ∧ RefreshToken.revoked new = false
  ∧ ¬ (RefreshToken.createdAt old < RefreshToken.createdAt new).
Proof.
  intros w issue run old new. split_and!; try (by vm_compute).
  by eexists; vm_compute.
Qed.

(** C1, as the code has it, at the sample: eight days after issue, Ada's
    session is rotated. *)
Lemma rotate_revokes_then_issues_witness :
  let w := Sample.world Sample.sessions (8 * Sample.day) [] in
  let old := Sample.sessionOf "t-ada" "u-ada" in
  let run := rotateRefreshToken Sample.ms "t-ada" "u-ada" w in
  returns (fst run)
  ∧ List.find (Prisma.refreshToken.byId "t-ada") (refreshTokens (db w)) = Some old
  ∧ ∃ new,
      List.find (Prisma.refreshToken.byId "t-ada") (refreshTokens (db (snd run)))
      = Some (RefreshToken.setRevoked true old)
      ∧ newRows (refreshTokens (db w)) (refreshTokens (db (snd run))) = [new]
      ∧ RefreshToken.userId new = "u-ada"
      ∧ RefreshToken.revoked new = false
      ∧ RefreshToken.createdAt new = 8 * Sample.day
      ∧ RefreshToken.createdAt old < RefreshToken.createdAt new.
Proof.
  intros w old run.
  assert (∃ result, fst run = Return result) as [result Hrun] by (by eexists; vm_compute).
  split; [by exists result|]. split; [by vm_compute|].
  destruct (proj1 (rotate_revokes_then_issues Sample.ms "t-ada" "u-ada" w)
              result (snd run) old)
    as (w1 & issued & new & _ & _ & _ & _ & _ & Hold & _ & Hnew & Huser & Hlive & _
        & Hstamp & Hlater & _).
  - by apply run_fst.
  - by vm_compute.
  - exists new. split_and!; [done..|]. apply Hlater. by vm_compute.
Defined.

(** Against a state that already holds a live attempt for cy@example.com,
    every create call for that email is rejected. *)
Example creates_against_a_live_attempt_fail :
  let w := Sample.world Sample.oneLive Sample.hour [] in
  let first := createSignupAttempt Sample.bcrypt_hash "cy@example.com" "Cy" "Young" "cy" w in
  let second :=
    createSignupAttempt Sample.bcrypt_hash "cy@example.com" "Cy" "Young" "cy" (snd first) in
  fst first = Throw (InternalServerErrorException "Failed to create signup attempt")
  ∧ fst second = Throw (InternalServerErrorException "Failed to create signup attempt").
Proof. by vm_compute. Qed.

(** C2 at the sample: the state after two sign-ups and a sweep is reachable
    and holds at most one IN_PROGRESS row for the email; the create call
    against the live attempt is rejected; and of two create calls for Cy's
    email, free at first, the first returns and the second, an hour later
    and in another letter case, is rejected. *)
Lemma at_most_one_attempt_in_progress_per_email_witness :
  let w := Sample.world Sample.sweptAndStale (6 * Sample.hour) [] in
  let live := Sample.world Sample.oneLive Sample.hour [] in
  let free := Sample.world (mkDb [Sample.ada] [] []) 0 [] in
  let first :=
    createSignupAttempt Sample.bcrypt_hash "Cy@Example.com" "Cy" "Young" "cy" free in
  let later := Sample.worldAfter 3 (db (snd first)) Sample.hour [] in
  let second :=
    createSignupAttempt Sample.bcrypt_hash "cy@example.com" "Cyrus" "Young" "pw" later in
  reachable Sample.bcrypt_hash w
  ∧ (length (attemptsWith "cy@example.com" IN_PROGRESS (db w)) <= 1)%nat
  ∧ ¬ returns (fst (createSignupAttempt Sample.bcrypt_hash "Cy@Example.com" "Cy" "Young" "cy"
                      live))
  ∧ exactlyOneReturns (fst first) (fst second)
  ∧ returns (fst first)
  ∧ fst second = Throw (InternalServerErrorException "Failed to create signup attempt")
  ∧ db (snd second) = db later.
Proof.
  intros w live free first second_world second.
  destruct (at_most_one_attempt_in_progress_per_email Sample.bcrypt_hash)
    as (Hinvariant & Hrejected & _ & Hone).
  split; [apply sweptAndStale_reachable|]. split; [|split].
  - apply Hinvariant, sweptAndStale_reachable.
  - eapply (Hrejected "Cy@Example.com" "Cy" "Young" "cy" live); [by left | by vm_compute..].
  - destruct (Hone "Cy@Example.com" "Cy" "Young" "cy" "cy@example.com" "Cyrus" "Young" "pw"
                free)
      as (a & w1 & Hfirst & _ & Hsecond);
      [done | by vm_compute | by vm_compute | apply not_elem_of_nil
      | by eexists; vm_compute | by eexists; vm_compute | by vm_compute |].
    destruct (Hsecond second_world) as (Hexactly & e & w3 & Hrun & Hdb & He).
    { unfold second_world, first. by rewrite Hfirst. }
    split; [done|].
    unfold second. unfold first. rewrite Hfirst, Hrun. simpl.
    split_and!; [by exists a | | done].
    f_equal. apply He. by vm_compute.
Defined.

(** C3, as stated, at the sample: no user has the email, an unexpired
    IN_PROGRESS attempt exists for it, and create fails with an error that is
    not of the conflict class. *)
Lemma create_against_a_live_attempt_is_no_conflict :
  let w := Sample.world Sample.oneLive Sample.hour [] in
  userOf "cy@example.com" (db w) = None
  ∧ (∃ a, a ∈ signupAttempts (db w)
          ∧ SignupAttempt.email a = "cy@example.com"
          ∧ SignupAttempt.status a = IN_PROGRESS
          ∧ now w < SignupAttempt.expiresAt a)
  ∧ ∃ e, fst (createSignupAttempt Sample.bcrypt_hash "cy@example.com" "Cy" "Young" "cy" w)
         = Throw e
         ∧ serviceUnavailableClass e ∧ ¬ conflictClass e.
Proof.
  intros w. split; [by vm_compute|]. split.
  - eexists. split; [by left|]. by vm_compute.
  - eexists. split; [by vm_compute|]. split; [by eexists | by intros [? ?]].
Qed.

(** C3, as the code has it, at the sample: Ada has an account, Cy has an
    attempt in progress. *)
Lemma create_conflicts_on_user_and_fails_on_attempt_witness :
  let w := Sample.world Sample.oneLive Sample.hour [] in
  fst (Prisma.roundTrip w) = Return ()
  ∧ is_Some (userOf "Ada@Example.com" (db w))
  ∧ userOf "cy@example.com" (db w) = None
  ∧ fst (createSignupAttempt Sample.bcrypt_hash "Ada@Example.com" "Ada" "L" "pw" w)
    = Throw (ConflictException "An account with this email already exists")
  ∧ fst (createSignupAttempt Sample.bcrypt_hash "cy@example.com" "Cy" "Young" "cy" w)
    = Throw (InternalServerErrorException "Failed to create signup attempt").
Proof.
  intros w.
  destruct (create_conflicts_on_user_and_fails_on_attempt Sample.bcrypt_hash)
    as (Hconflict & Hfails).
  assert (is_Some (userOf "Ada@Example.com" (db w))) as Hada by (by eexists; vm_compute).
  destruct (Hconflict "Ada@Example.com" "Ada" "L" "pw" w) as (w1 & Hrun1 & _);
    [by vm_compute | done |].
  destruct (Hfails "cy@example.com" "Cy" "Young" "cy" w
              (Sample.attemptOf "uuid-0" "cy@example.com" IN_PROGRESS 0 0))
    as (w2 & Hrun2 & _); [by vm_compute | by left | by vm_compute | by vm_compute |].
  split_and!; [by vm_compute | done | by vm_compute | by rewrite Hrun1 | by rewrite Hrun2].
Defined.

(** C4 at the sample: Bob is suspended; his session is live. *)
Lemma refresh_of_inactive_user_is_refused_witness :
  let w := Sample.world Sample.sessions Sample.day [] in
  let token := Sample.tokenOf "t-bob" "u-bob" in
  databaseUp w
  ∧ fst (verifyRefreshToken token w)
    = Return [("sub", "u-bob"); ("tokenId", "t-bob"); ("type", "refresh")]
  ∧ User.status Sample.bob ≠ ACTIVE
  ∧ refreshApplication Sample.ms (Some token) w
    = (Return (RefreshFailure "User account is not active" "/login"), w).
Proof.
  intros w token. split_and!; [done | by vm_compute | done |].
  apply (refresh_of_inactive_user_is_refused Sample.ms token w
           [("sub", "u-bob"); ("tokenId", "t-bob"); ("type", "refresh")] "t-bob"
           (Sample.sessionOf "t-bob" "u-bob") Sample.bob);
    [done | by vm_compute | by vm_compute | by vm_compute | by vm_compute
    | by vm_compute | by vm_compute | done].
Defined.

(** C5 at the sample: exactly seven days after issue. *)
Lemma shouldRotate_iff_age_reaches_threshold_witness :
  let w := Sample.world Sample.sessions (7 * Sample.day) [] in
  databaseUp w
  ∧ ∃ b, shouldRotateRefreshToken "t-ada" w = (Return b, w)
         ∧ (b = true ↔
              ∃ r d, List.find (Prisma.refreshToken.byId "t-ada") (refreshTokens (db w))
                     = Some r
                     ∧ rotationDays w = Some d
                     ∧ d * JS.msPerDay <= now w - RefreshToken.createdAt r)
         ∧ (List.find (Prisma.refreshToken.byId "t-ada") (refreshTokens (db w)) = None
            → b = false).
Proof.
  intros w. split; [done|].
  by apply (shouldRotate_iff_age_reaches_threshold "t-ada" w).
Defined.

(** C6 at the sample: a signup token issued at instant 0 is verified one
    hour later. *)
Lemma signup_token_round_trip_and_type_separation_witness :
  let w := Sample.world Sample.oneLive 0 [] in
  let w2 := Sample.world Sample.oneLive Sample.hour [] in
  let token :=
    Signed (mkJwt [("attemptId", "uuid-0"); ("email", "cy@example.com");
                   ("type", "signup"); ("currentStep", "email_verification")]
              0 (Some 7200) "signup-secret") in
  generateSignupToken Sample.ms "uuid-0" "cy@example.com" "email_verification" w
  = (Return token, w)
  ∧ config w2 = config w
  ∧ liveAt (now w2) token
  ∧ (∃ payload,
       verifySignupToken token w2 = (Return payload, w2)
       ∧ JS.prop "attemptId" payload = Some "uuid-0"
       ∧ JS.prop "email" payload = Some "cy@example.com"
       ∧ JS.prop "currentStep" payload = Some "email_verification")
  ∧ tokenType (Sample.tokenOf "t-ada" "u-ada") = Some "refresh"
  ∧ verifySignupToken (Sample.tokenOf "t-ada" "u-ada") w2
    = (Throw (UnauthorizedException "Invalid or expired signup token"), w2)
  ∧ verifyRefreshToken token w2
    = (Throw (UnauthorizedException "Invalid or expired refresh token"), w2).
Proof.
  intros w w2 token.
  destruct (signup_token_round_trip_and_type_separation Sample.ms)
    as (Hround & Hsignup & Hrefresh & _).
  assert (generateSignupToken Sample.ms "uuid-0" "cy@example.com" "email_verification" w
          = (Return token, w)) as Hissue by reflexivity.
  assert (liveAt (now w2) token) as Hlive by (intros e [= <-]; by vm_compute).
  split_and!; [done | done | done | | done | |].
  - by apply (Hround "uuid-0" "cy@example.com" "email_verification" w token w w2).
  - by apply Hsignup.
  - by apply Hrefresh.
Defined.

(** C7, as stated, at the sample: the write of a revocation fails (no such
    record; the database unreachable) and the call returns normally; no
    error of the service-unavailable class reaches the caller, and the
    session stays live. *)
Lemma revoke_swallows_a_failed_write :
  let w := Sample.world Sample.sessions Sample.day [] in
  let down := Sample.world Sample.sessions Sample.day [true] in
  fst (Prisma.refreshToken.update "t-gone" true w) = Throw Prisma.P2025
  ∧ fst (revokeRefreshToken "t-gone" w) = Return ()
  ∧ fst (Prisma.refreshToken.update "t-ada" true down) = Throw Prisma.P1001
  ∧ fst (revokeRefreshToken "t-ada" down) = Return ()
  ∧ fst (Prisma.refreshToken.updateMany (notRevokedOf "u-ada") true down)
    = Throw Prisma.P1001
  ∧ fst (revokeAllUserRefreshTokens "u-ada" down) = Return ()
  ∧ refreshTokens (db (snd (revokeAllUserRefreshTokens "u-ada" down)))
    = refreshTokens Sample.sessions
  ∧ ¬ (∃ e, fst (revokeAllUserRefreshTokens "u-ada" down) = Throw e
            ∧ serviceUnavailableClass e).
Proof.
  intros w down. split_and!; try (by vm_compute).
  intros (e & Hthrow & _). by vm_compute in Hthrow.
Qed.

(** C7, as the code has it, at the sample: revoking Ada's session twice. *)
Lemma revocation_is_idempotent_and_absorbs_failures_witness :
  let w := Sample.world Sample.sessions Sample.day [] in
  let once := snd (revokeRefreshToken "t-ada" w) in
  let all := snd (revokeAllUserRefreshTokens "u-ada" w) in
  fst (Prisma.roundTrip w) = Return ()
  ∧ db (snd (revokeRefreshToken "t-ada" once)) = db once
  ∧ db (snd (revokeAllUserRefreshTokens "u-ada" all)) = db all
  ∧ db once ≠ db w.
Proof.
  intros w once all.
  destruct revocation_is_idempotent_and_absorbs_failures as (Hone & Hall & _).
  split_and!; [done | | |].
  - by apply (Hone "t-ada" w once).
  - by apply (Hall "u-ada" w all).
  - by vm_compute.
Defined.

(** C8, as stated, at the sample: an IN_PROGRESS attempt whose count is the
    largest the column holds is stored, and resuming it fails: the count is
    not incremented and updatedAt is not refreshed. *)
Lemma resume_at_the_largest_count_fails :
  let a := SignupAttempt.mk "uuid-0" "cy@example.com" (Some "Cy") (Some "Young")
             (Some "$2b$cy") false false false "email_verification" [] IN_PROGRESS
             2147483647 0 0 (2 * Sample.hour) None in
  let w := Sample.world (mkDb [] [] [a]) Sample.hour [] in
  List.find (Prisma.signupAttempt.byId "uuid-0") (signupAttempts (db w)) = Some a
  ∧ SignupAttempt.status a = IN_PROGRESS
  ∧ now w < SignupAttempt.expiresAt a
  ∧ fst (resumeSignupAttempt a w)
    = Throw (InternalServerErrorException "Failed to resume signup attempt")
  ∧ signupAttempts (db (snd (resumeSignupAttempt a w))) = [a].
Proof. by vm_compute. Qed.

(** C8, as the code has it, at the sample: Cy signs up again one hour into
    the attempt. *)
Lemma resume_bumps_count_and_keeps_the_rest_witness :
  let w := Sample.world Sample.oneLive Sample.hour [] in
  let a := Sample.attemptOf "uuid-0" "cy@example.com" IN_PROGRESS 0 0 in
  databaseUp w
  ∧ indexed (db w)
  ∧ List.find (Prisma.signupAttempt.byId "uuid-0") (signupAttempts (db w)) = Some a
  ∧ Prisma.int4 (SignupAttempt.attemptCount a) = true
  ∧ SignupAttempt.attemptCount a < 2147483647
  ∧ ∃ a', fst (resumeSignupAttempt a w) = Return a'
          ∧ SignupAttempt.attemptCount a' = 2
          ∧ SignupAttempt.updatedAt a' = Sample.hour
          ∧ SignupAttempt.expiresAt a' = 2 * Sample.hour.
Proof.
  intros w a.
  assert (indexed (db w)) as Hindexed by (split; compute_done).
  split_and!; [done | done | by vm_compute | by vm_compute | by vm_compute |].
  destruct (resume_bumps_count_and_keeps_the_rest a w) as [Hbelow _];
    [done | done | by vm_compute | by vm_compute |].
  destruct Hbelow as (a' & w' & Hrun & _ & Hcount & Hupdated & Hexpires & _);
    [by vm_compute|].
  exists a'. rewrite Hrun, Hcount, Hupdated, Hexpires. by vm_compute.
Defined.

(** C9 at the sample: the swept-and-stale state is reachable, holds one row
    per (email, status), and its sweep fails; the completed-and-live state
    refuses the completion. *)
Lemma index_covers_every_status_witness :
  let w := Sample.world Sample.sweptAndStale (6 * Sample.hour) [] in
  let w' := Sample.world Sample.completedAndLive (4 * Sample.hour) [] in
  reachable Sample.bcrypt_hash w
  ∧ (length (attemptsWith "cy@example.com" EXPIRED (db w)) <= 1)%nat
  ∧ fst (markExpiredAttempts w) = Return 0
  ∧ db (snd (markExpiredAttempts w)) = db w
  ∧ fst (completeSignupAttempt "uuid-1" w')
    = Throw (InternalServerErrorException "Failed to complete signup attempt").
Proof.
  intros w w'.
  destruct (index_covers_every_status Sample.bcrypt_hash)
    as (Hinvariant & Hsweep & Hcomplete & _).
  destruct (Hsweep w (Sample.attemptOf "uuid-0" "cy@example.com" EXPIRED 0 (3 * Sample.hour))
              (Sample.attemptOf "uuid-1" "cy@example.com" IN_PROGRESS (3 * Sample.hour)
                 (3 * Sample.hour)))
    as (_ & Hzero & Hsame); [by left | by right; left | done..|].
  destruct (Hcomplete w'
              (Sample.attemptOf "uuid-0" "cy@example.com" COMPLETED 0 Sample.hour)
              (Sample.attemptOf "uuid-1" "cy@example.com" IN_PROGRESS (3 * Sample.hour)
                 (3 * Sample.hour)))
    as (w'' & Hrefused & _); [by left | done..|].
  split_and!; [apply sweptAndStale_reachable | | done | done |].
  - apply Hinvariant, sweptAndStale_reachable.
  - change "uuid-1" with
      (SignupAttempt.id (Sample.attemptOf "uuid-1" "cy@example.com" IN_PROGRESS
                           (3 * Sample.hour) (3 * Sample.hour))).
    by rewrite Hrefused.
Defined.

(** C10 at the sample: the sweep that the index refuses, the sweep cut off
    by an outage, and the sweep with nothing to expire all return 0. *)
Lemma sweep_returns_zero_on_failure_witness :
  let refused := Sample.world Sample.sweptAndStale (6 * Sample.hour) [] in
  let down := Sample.world Sample.oneLive (6 * Sample.hour) [true] in
  let idle := Sample.world Sample.oneLive Sample.hour [] in
  fst (Prisma.signupAttempt.updateMany (expiredInProgress (now refused))
         (SignupAttempt.mkPatch None None (Some EXPIRED) None None None) refused)
  = Throw Prisma.P2002
  ∧ fst (markExpiredAttempts refused) = Return 0
  ∧ fst (Prisma.signupAttempt.updateMany (expiredInProgress (now down))
           (SignupAttempt.mkPatch None None (Some EXPIRED) None None None) down)
    = Throw Prisma.P1001
  ∧ fst (markExpiredAttempts down) = Return 0
  ∧ db (snd (markExpiredAttempts down)) = db down
  ∧ databaseUp idle
  ∧ fst (markExpiredAttempts idle) = Return 0.
Proof.
  intros refused down idle.
  destruct sweep_returns_zero_on_failure as (_ & Hfailure & Hidle).
  assert (fst (Prisma.signupAttempt.updateMany (expiredInProgress (now refused))
                 (SignupAttempt.mkPatch None None (Some EXPIRED) None None None) refused)
          = Throw Prisma.P2002) as Hrefused by (by vm_compute).
  assert (fst (Prisma.signupAttempt.updateMany (expiredInProgress (now down))
                 (SignupAttempt.mkPatch None None (Some EXPIRED) None None None) down)
          = Throw Prisma.P1001) as Hdown by (by vm_compute).
  split_and!; [done | | done | | | done |].
  - by apply (Hfailure refused Prisma.P2002).
  - by apply (Hfailure down Prisma.P1001).
  - by apply (Hfailure down Prisma.P1001).
  - by apply (Hidle idle).
Defined.

(** ** The further properties at the sample deployment *)

(** Ada's session is live for the thirty days of its record, with the database up. *)
Lemma liveSession_at_the_sample t :
  0 <= t < 30 * Sample.day →
  liveSession Scenario.token (Sample.world Sample.sessions t []) "t-ada"
    Scenario.record Sample.ada.
Proof.
  intros Ht.
  exists [("sub", "u-ada"); ("tokenId", "t-ada"); ("type", "refresh")].
  split_and!; try done.
  - eexists _, "refresh-secret". split_and!; try done.
    intros e [= <-]. simpl. unfold Sample.day in Ht.
    apply Z.div_lt_upper_bound; lia.
  - simpl. unfold Sample.day in *. lia.
Defined.

(** X3 at the sample: a refresh token issued for Ada at instant 0 is stored under uuid-2. *)
Lemma refresh_token_is_persisted_and_verifies_witness :
  let w := Sample.world (mkDb [Sample.ada] [] []) 0 [] in
  let run := generateRefreshToken Sample.ms "u-ada" w in
  fst run = Return (Issued.mk (Sample.tokenOf "uuid-2" "u-ada") (30 * Sample.day) "uuid-2")
  ∧ sessionOf "uuid-2" (db w) = None
  ∧ sessionOf "uuid-2" (db (snd run))
    = Some (RefreshToken.mk "uuid-2" (Sample.tokenOf "uuid-2" "u-ada") "u-ada" false
              (30 * Sample.day) 0).
Proof.
  intros w run.
  assert (fst run = Return (Issued.mk (Sample.tokenOf "uuid-2" "u-ada")
                              (30 * Sample.day) "uuid-2")) as Hrun by (by vm_compute).
  split; [done|].
  pose proof (refresh_token_is_persisted_and_verifies Sample.ms "u-ada" w _ _
                (run_fst _ _ _ Hrun)) as (Hbefore & Hafter & _).
  by split.
Defined.

(** X5 at the sample: after one day Ada's refresh succeeds, for a live session of hers. *)
Lemma refresh_returns_and_succeeds_only_for_a_live_session_witness :
  let run := refreshApplication Sample.ms (Some Scenario.token) Scenario.young in
  fst run = Return (RefreshSuccess (Scenario.accessAt Sample.day) (userDataOf Sample.ada)
                      (Some (JS.Finite 900)) None)
  ∧ ∃ tokenId record owner,
      liveSession Scenario.token Scenario.young tokenId record owner
      ∧ userDataOf Sample.ada = userDataOf owner.
Proof.
  intros run.
  assert (fst run = Return (RefreshSuccess (Scenario.accessAt Sample.day)
                              (userDataOf Sample.ada) (Some (JS.Finite 900)) None)) as Hrun
    by (by vm_compute).
  split; [done|].
  destruct (refresh_returns_and_succeeds_only_for_a_live_session Sample.ms
              (Some Scenario.token) Scenario.young _ _ (run_fst _ _ _ Hrun))
    as (dto & [= <-] & token & tokenId & record & owner & [= <-] & Hlive & Huser & _).
  by exists tokenId, record, owner.
Defined.

(** X6 at the sample: on the eighth day the refresh rotates Ada's session. *)
Lemma refresh_rotates_exactly_when_due_witness :
  let run := refreshApplication Sample.ms (Some Scenario.token) Scenario.due in
  fst run = Return (RefreshSuccess (Scenario.accessAt (8 * Sample.day))
                      (userDataOf Sample.ada) (Some (JS.Finite 900)) (Some Scenario.successor))
  ∧ ∃ tokenId record row,
      namedSession Scenario.token = Some tokenId
      ∧ rotationDue Scenario.due record
      ∧ db (snd run)
        = setRefreshTokens
            (revokedIn tokenId (refreshTokens (db Scenario.due)) ++ [row])
            (db Scenario.due)
      ∧ RefreshToken.token row = Scenario.successor.
Proof.
  intros run.
  assert (fst run = Return (RefreshSuccess (Scenario.accessAt (8 * Sample.day))
                              (userDataOf Sample.ada) (Some (JS.Finite 900))
                              (Some Scenario.successor))) as Hrun by (by vm_compute).
  split; [done|].
  destruct (refresh_rotates_exactly_when_due Sample.ms Scenario.token Scenario.due
              _ _ _ _ _ (run_fst _ _ _ Hrun))
    as (tokenId & record & Hname & _ & Hdue & row & Hdb & Htoken & _).
  by exists tokenId, record, row.
Defined.

(** X7 at the sample: the token rotated out on the eighth day is refused at once. *)
Lemma rotated_out_token_is_refused_witness :
  let first := refreshApplication Sample.ms (Some Scenario.token) Scenario.due in
  let second := refreshApplication Sample.ms (Some Scenario.token) (snd first) in
  fst first = Return (RefreshSuccess (Scenario.accessAt (8 * Sample.day))
                        (userDataOf Sample.ada) (Some (JS.Finite 900)) (Some Scenario.successor))
  ∧ refused (fst second)
  ∧ db (snd second) = db (snd first).
Proof.
  intros first second.
  assert (fst first = Return (RefreshSuccess (Scenario.accessAt (8 * Sample.day))
                                (userDataOf Sample.ada) (Some (JS.Finite 900))
                                (Some Scenario.successor))) as Hrun by (by vm_compute).
  split; [done|].
  apply (rotated_out_token_is_refused Sample.ms Scenario.token Scenario.due
           _ _ _ _ _ (run_fst _ _ _ Hrun) (snd first) (fst second) (snd second) eq_refl).
  apply surjective_pairing.
Defined.

(** X10 at the sample: after one day Ada's session is refreshed and nothing is written. *)
Lemma live_session_is_refreshed_in_place_witness :
  liveSession Scenario.token Scenario.young "t-ada" Scenario.record Sample.ada
  ∧ databaseUp Scenario.young
  ∧ ¬ rotationDue Scenario.young Scenario.record
  ∧ fst (generateAccessToken Sample.ms Sample.ada Scenario.young)
    = Return (Scenario.accessAt Sample.day)
  ∧ ∃ expiresIn,
      refreshApplication Sample.ms (Some Scenario.token) Scenario.young
      = (Return (RefreshSuccess (Scenario.accessAt Sample.day) (userDataOf Sample.ada)
                   expiresIn None), Scenario.young).
Proof.
  assert (liveSession Scenario.token Scenario.young "t-ada" Scenario.record Sample.ada)
    as Hlive by (apply liveSession_at_the_sample; by vm_compute).
  assert (¬ rotationDue Scenario.young Scenario.record) as Hyoung.
  { intros (d & [= <-] & Hage). by vm_compute in Hage. }
  split_and!; [done | done | done | by vm_compute |].
  by apply (live_session_is_refreshed_in_place Sample.ms Scenario.token Scenario.young
              "t-ada" Scenario.record Sample.ada).
Defined.

(** X11 at the sample: the database drops at the fourth statement of a refresh on the
    eighth day. *)
Lemma failed_rotation_revokes_without_successor_witness :
  let w := Sample.world Sample.sessions (8 * Sample.day) [false; false; false; true] in
  liveSession Scenario.token w "t-ada" Scenario.record Sample.ada
  ∧ rotationDue w Scenario.record
  ∧ returns (fst (generateAccessToken Sample.ms Sample.ada w))
  ∧ ∃ w',
      refreshApplication Sample.ms (Some Scenario.token) w
      = (Return (RefreshFailure "An error occurred" "/login"), w')
      ∧ db w' = setRefreshTokens (revokedIn "t-ada" (refreshTokens (db w))) (db w)
      ∧ refused (fst (refreshApplication Sample.ms (Some Scenario.token) w')).
Proof.
  intros w.
  assert (liveSession Scenario.token w "t-ada" Scenario.record Sample.ada) as Hlive.
  { destruct (liveSession_at_the_sample (8 * Sample.day)) as (payload & Hacc & Hrest);
      [by vm_compute|]. by exists payload. }
  assert (rotationDue w Scenario.record) as Hdue.
  { exists 7. split; [done|]. by vm_compute. }
  assert (returns (fst (generateAccessToken Sample.ms Sample.ada w))) as Haccess
    by (by eexists; vm_compute).
  split_and!; [done..|].
  destruct (failed_rotation_revokes_without_successor Sample.ms Scenario.token w "t-ada"
              Scenario.record Sample.ada [] Hlive Hdue Haccess eq_refl)
    as (w' & Hrun & Hdb & Hlater).
  exists w'. split_and!; [done..|].
  apply (Hlater w' _ (snd (refreshApplication Sample.ms (Some Scenario.token) w')) eq_refl).
  apply surjective_pairing.
Defined.

(** X13 at the sample: Cy's attempt moves on to phone verification, twice over. *)
Lemma updateSignupStep_advances_and_records_once_witness :
  let w := Sample.world Sample.oneLive Sample.hour [] in
  let run := updateSignupStep "uuid-0" "phone_verification" (Some "email_verification") w in
  let again :=
    updateSignupStep "uuid-0" "phone_verification" (Some "email_verification") (snd run) in
  indexed (db w)
  ∧ (∃ a', fst run = Return a'
           ∧ SignupAttempt.currentStep a' = "phone_verification"
           ∧ SignupAttempt.completedSteps a' = ["email_verification"]
           ∧ SignupAttempt.updatedAt a' = Sample.hour
           ∧ SignupAttempt.expiresAt a' = 2 * Sample.hour)
  ∧ (∃ a'', fst again = Return a''
            ∧ SignupAttempt.completedSteps a'' = ["email_verification"]).
Proof.
  intros w run again.
  assert (indexed (db w)) as Hindexed by (split; compute_done).
  assert (indexed (db (snd run))) as Hindexed' by (split; compute_done).
  assert (∃ a', fst run = Return a') as [a' Hrun] by (by eexists; vm_compute).
  assert (∃ a'', fst again = Return a'') as [a'' Hagain] by (by eexists; vm_compute).
  split; [done|]. split.
  - destruct (updateSignupStep_advances_and_records_once "uuid-0" "phone_verification"
                (Some "email_verification") w _ _ Hindexed (run_fst _ _ _ Hrun))
      as (a & Ha & Ha' & _).
    exists a'. split; [done|]. rewrite Ha'. vm_compute in Ha. injection Ha as <-.
    by vm_compute.
  - destruct (updateSignupStep_advances_and_records_once "uuid-0" "phone_verification"
                (Some "email_verification") (snd run) _ _ Hindexed'
                (run_fst _ _ _ Hagain))
      as (a & Ha & _ & _ & _ & _ & Hsame).
    vm_compute in Ha. injection Ha as <-.
    exists a''. split; [done|]. by rewrite (Hsame "email_verification" eq_refl) by by left.
Defined.

(** X14 at the sample: Cy's attempt is completed and no longer found. *)
Lemma completed_attempt_is_not_resumed_witness :
  let w := Sample.world Sample.oneLive Sample.hour [] in
  let run := completeSignupAttempt "uuid-0" w in
  indexed (db w)
  ∧ fst run = Return ()
  ∧ SignupAttempt.status <$> attemptOf "uuid-0" (db (snd run)) = Some COMPLETED
  ∧ fst (findInProgressAttempt "Cy@Example.com" (snd run)) = Return None.
Proof.
  intros w run.
  assert (indexed (db w)) as Hindexed by (split; compute_done).
  assert (fst run = Return ()) as Hrun by (by vm_compute).
  split; [done|]. split; [done|].
  destruct (completed_attempt_is_not_resumed "uuid-0" w _ _ Hindexed (run_fst _ _ _ Hrun))
    as (a & Ha & Hafter & _ & Hgone).
  split; [unfold run; by rewrite Hafter|].
  vm_compute in Ha. injection Ha as <-.
  by apply (Hgone "Cy@Example.com" (snd run)).
Defined.

(** X16 at the sample: a signup for Cy, an hour into the attempt, resumes it.
    And on a host whose clocks go forward in an hour's time, a first signup
    stores an attempt that expires in one hour: the local clock reads two
    hours more by then. When the clocks go back, it is three hours. *)
Lemma signup_success_resumes_or_creates_witness :
  let w := Sample.world Sample.oneLive Sample.hour [] in
  let run := signup Sample.ms Sample.bcrypt_hash "Cy@Example.com" "Cy" "Young" "cy" w in
  let spring :=
    Sample.worldIn Sample.clocksChange (mkDb [Sample.ada] [] [])
      (Sample.transition - Sample.hour) in
  let created :=
    signup Sample.ms Sample.bcrypt_hash "Cy@Example.com" "Cy" "Young" "cy" spring in
  let autumn :=
    Sample.worldIn Sample.clocksChange (mkDb [Sample.ada] [] [])
      (Sample.transition + 200 * Sample.day - Sample.hour) in
  indexed (db w)
  ∧ (∃ token, fst run = Return (SignupSuccess token "email_verification" "uuid-0"
                                  (Some true) (Some [])))
  ∧ (∃ a', a' ∈ signupAttempts (db (snd run))
           ∧ SignupAttempt.id a' = "uuid-0"
           ∧ SignupAttempt.email a' = "cy@example.com"
           ∧ SignupAttempt.status a' = IN_PROGRESS)
  ∧ indexed (db spring)
  ∧ (∃ token, fst created = Return (SignupSuccess token "email_verification" "uuid-2"
                                      None None))
  ∧ (∃ a', signupAttempts (db (snd created)) = [a']
           ∧ SignupAttempt.expiresAt a' = now spring + Sample.hour)
  ∧ SignupAttempt.expiresAt
      <$> signupAttempts
            (db (snd (signup Sample.ms Sample.bcrypt_hash "Cy@Example.com" "Cy" "Young"
                        "cy" autumn)))
    = [now autumn + 3 * Sample.hour].
Proof.
  intros w run spring created autumn.
  assert (indexed (db w)) as Hindexed by (split; compute_done).
  assert (indexed (db spring)) as Hindexed' by (split; compute_done).
  assert (∃ token, fst run = Return (SignupSuccess token "email_verification" "uuid-0"
                                       (Some true) (Some []))) as [token Hrun]
    by (by eexists; vm_compute).
  assert (∃ token, fst created = Return (SignupSuccess token "email_verification" "uuid-2"
                                           None None)) as [token' Hcreated]
    by (by eexists; vm_compute).
  split; [done|]. split; [by exists token|]. split; [|split; [done|]].
  - destruct (signup_success_resumes_or_creates Sample.ms Sample.bcrypt_hash
                "Cy@Example.com" "Cy" "Young" "cy" w _ _ Hindexed (run_fst _ _ _ Hrun))
      as [_ Hsuccess].
    destruct (Hsuccess _ _ _ _ _ eq_refl) as (_ & _ & a' & Hin & Hid & Hemail & Hstatus & _).
    by exists a'.
  - split; [by exists token'|]. split; [|by vm_compute].
    destruct (signup_success_resumes_or_creates Sample.ms Sample.bcrypt_hash
                "Cy@Example.com" "Cy" "Young" "cy" spring _ _ Hindexed'
                (run_fst _ _ _ Hcreated))
      as [_ Hsuccess].
    destruct (Hsuccess _ _ _ _ _ eq_refl)
      as (_ & _ & a' & _ & _ & _ & _ & _ & _ & _ & _ & _ & Hdeadline & _ & _ & Hrows).
    exists a'. split; [done|]. rewrite Hdeadline. by vm_compute.
Defined.

(** X18 at the sample: at its deadline Cy's attempt, not yet swept, blocks the email. *)
Lemma overdue_unswept_attempt_blocks_signup_witness :
  let w := Sample.world Sample.oneLive (2 * Sample.hour) [] in
  databaseUp w
  ∧ indexed (db w)
  ∧ userOf "cy@example.com" (db w) = None
  ∧ Scenario.attempt ∈ signupAttempts (db w)
  ∧ SignupAttempt.expiresAt Scenario.attempt <= now w
  ∧ ∃ w',
      signup Sample.ms Sample.bcrypt_hash "cy@example.com" "Cy" "Young" "cy" w
      = (Return (SignupFailure "An error occurred during signup" 500), w')
      ∧ db w' = db w.
Proof.
  intros w.
  assert (indexed (db w)) as Hindexed by (split; compute_done).
  assert (Scenario.attempt ∈ signupAttempts (db w)) as Hin by (by left).
  split_and!; [done | done | done | done | by vm_compute |].
  by apply (overdue_unswept_attempt_blocks_signup Sample.ms Sample.bcrypt_hash
              "cy@example.com" "Cy" "Young" "cy" w Scenario.attempt).
Defined.

(** X19 at the sample: Ada's access token opens the guard; with the database down the
    refusal is still a 401. *)
Lemma jwt_guard_admits_only_active_users_witness :
  let w := Sample.world Sample.sessions 0 [] in
  let run := JwtAuthGuard.canActivate Scenario.tokenOfString (Scenario.bearer "ada.access") w in
  let down :=
    JwtAuthGuard.canActivate Scenario.tokenOfString (Scenario.bearer "ada.access")
      (Sample.world Sample.sessions 0 [true]) in
  fst run = Return (true, Request.setUser Sample.ada (Scenario.bearer "ada.access"))
  ∧ db (snd run) = db w
  ∧ fst down = Throw (UnauthorizedException "Invalid access token")
  ∧ ∃ message, fst down = Throw (UnauthorizedException message).
Proof.
  intros w run down.
  assert (fst down = Throw (UnauthorizedException "Invalid access token")) as Hdown
    by (by vm_compute).
  split; [by vm_compute|].
  split.
  { by apply (jwt_guard_admits_only_active_users Scenario.tokenOfString
                (Scenario.bearer "ada.access") w (fst run) (snd run)
                (surjective_pairing _)). }
  split; [done|].
  destruct (jwt_guard_admits_only_active_users Scenario.tokenOfString
              (Scenario.bearer "ada.access") _ _ _ (run_fst _ _ _ Hdown))
    as (_ & message & [= <-]).
  by eexists.
Defined.

(** X20 at the sample: Cy's signup token opens the guard; with the database down the
    attempt reads as not found. *)
Lemma signup_guard_admits_only_live_attempts_witness :
  let w := Sample.world Sample.oneLive Sample.hour [] in
  let run := SignupJwtGuard.canActivate Scenario.tokenOfString (Scenario.bearer "cy.signup") w in
  let down :=
    SignupJwtGuard.canActivate Scenario.tokenOfString (Scenario.bearer "cy.signup")
      (Sample.world Sample.oneLive Sample.hour [true]) in
  (∃ request', fst run = Return (true, request')
               ∧ Request.signupAttempt request' = Some Scenario.attempt)
  ∧ db (snd run) = db w
  ∧ fst down = Throw (UnauthorizedException "Signup attempt not found").
Proof.
  intros w run down.
  assert (∃ e, fst down = Throw e) as [e Hdown] by (by eexists; vm_compute).
  split; [eexists; split; by vm_compute|].
  split.
  { by apply (signup_guard_admits_only_live_attempts Scenario.tokenOfString
                (Scenario.bearer "cy.signup") w (fst run) (snd run)
                (surjective_pairing _)). }
  destruct (signup_guard_admits_only_live_attempts Scenario.tokenOfString
              (Scenario.bearer "cy.signup") _ _ _ (run_fst _ _ _ Hdown))
    as (_ & _ & Hwhy).
  rewrite Hdown. f_equal.
  apply (Hwhy "Bearer cy.signup" [("attemptId", "uuid-0"); ("email", "cy@example.com");
                 ("type", "signup"); ("currentStep", "email_verification")] []);
    [done | done | | done].
  eexists _, "signup-secret". split_and!; try done.
  intros e' [= <-]. by vm_compute.
Defined.

(** X21 at the sample: on the eighth day the endpoint answers 200 and sets the cookie,
    which the browser is asked to keep for thirty thousand days. *)
Lemma refresh_endpoint_replies_witness :
  let req := Request.mk None (Some Scenario.token) None None None in
  let run := AuthController.refreshApplication Sample.ms req Scenario.due in
  ∃ reply,
    fst run = Return reply
    ∧ Reply.status reply = 200
    ∧ Reply.body reply
      = RefreshSuccess (Scenario.accessAt (8 * Sample.day)) (userDataOf Sample.ada)
          (Some (JS.Finite 900)) None
    ∧ Reply.setCookie reply
      = Some (Cookie.mk "session" Scenario.successor true false "lax" 2592000000 "/")
    ∧ Cookie.lifetime <$> Reply.setCookie reply = Some (30000 * Sample.day)
    ∧ Scenario.successor ∈ RefreshToken.token <$> refreshTokens (db (snd run)).
Proof.
  intros req run.
  assert (fst run
          = Return (Reply.mk 200
                      (RefreshSuccess (Scenario.accessAt (8 * Sample.day))
                         (userDataOf Sample.ada) (Some (JS.Finite 900)) None)
                      (Some (Cookie.mk "session" Scenario.successor true false "lax"
                               2592000000 "/")))) as Hrun by (by vm_compute).
  eexists. split; [done|]. split_and!; [done..|].
  destruct (refresh_endpoint_replies Sample.ms req Scenario.due _ _ (run_fst _ _ _ Hrun))
    as (reply & [= <-] & [(? & _) | (_ & _ & _ & _ & _ & _ & Hstored)]); [done|].
  exact Hstored.
Defined.

(** X23 at the sample: Ada's request is admitted and she is attached to it. *)
Lemma guards_admit_valid_requests_witness :
  let w := Sample.world Sample.sessions 0 [] in
  let request := Scenario.bearer "ada.access" in
  Request.authorization request = Some "Bearer ada.access"
  ∧ JSString.startsWith "Bearer " "Bearer ada.access" = true
  ∧ databaseUp w
  ∧ accepts "JWT_ACCESS_SECRET" "access" (Scenario.accessAt 0) w
      [("sub", "u-ada"); ("email", "ada@example.com"); ("type", "access")]
  ∧ JwtAuthGuard.canActivate Scenario.tokenOfString request w
    = (Return (true, Request.setUser Sample.ada request), w).
Proof.
  intros w request.
  assert (accepts "JWT_ACCESS_SECRET" "access" (Scenario.accessAt 0) w
            [("sub", "u-ada"); ("email", "ada@example.com"); ("type", "access")]) as Hacc.
  { eexists _, "access-secret". split_and!; try done. intros e [= <-]. by vm_compute. }
  split_and!; [done..|].
  by apply (proj1 (guards_admit_valid_requests Scenario.tokenOfString request w
                     "Bearer ada.access" eq_refl eq_refl eq_refl)
              [("sub", "u-ada"); ("email", "ada@example.com"); ("type", "access")]
              "u-ada" Sample.ada).
Defined.

(** X24 at the sample: rotating an unknown record, and rotating Ada's for an unknown
    user. *)
Lemma rotation_failure_edges_witness :
  let w := Sample.world Sample.sessions (8 * Sample.day) [] in
  databaseUp w
  ∧ sessionOf "t-gone" (db w) = None
  ∧ (∃ w', rotateRefreshToken Sample.ms "t-gone" "u-ada" w
           = (Throw (InternalServerErrorException "Failed to rotate refresh token"), w')
           ∧ db w' = db w)
  ∧ sessionOf "t-ada" (db w) = Some Scenario.record
  ∧ ("u-eve" ∉ User.id <$> users (db w))
  ∧ (∃ w', rotateRefreshToken Sample.ms "t-ada" "u-eve" w
           = (Throw (InternalServerErrorException "Failed to rotate refresh token"), w')
           ∧ db w' = setRefreshTokens (revokedIn "t-ada" (refreshTokens (db w))) (db w)).
Proof.
  intros w.
  assert ("u-eve" ∉ User.id <$> users (db w)) as Hunknown by compute_done.
  split_and!; [done | done | | done | done |].
  - by apply (proj1 (proj2 (rotation_failure_edges Sample.ms "t-gone" "u-ada" w eq_refl))).
  - by apply (proj2 (proj2 (rotation_failure_edges Sample.ms "t-ada" "u-eve" w eq_refl))
                Scenario.record).
Defined.

(** X25 at the sample: the attempt created for Cy@Example.com is found for
    CY@EXAMPLE.COM an hour later. *)
Lemma created_attempt_is_found_witness :
  let w := Sample.world (mkDb [Sample.ada] [] []) 0 [] in
  let run := createSignupAttempt Sample.bcrypt_hash "Cy@Example.com" "Cy" "Young" "cy" w in
  let later := Sample.worldAfter 3 (db (snd run)) Sample.hour [] in
  indexed (db w)
  ∧ ∃ a, fst run = Return a
         ∧ SignupAttempt.email a = "cy@example.com"
         ∧ fst (findInProgressAttempt "CY@EXAMPLE.COM" later) = Return (Some a).
Proof.
  intros w run later.
  assert (indexed (db w)) as Hindexed by (split; compute_done).
  assert (∃ a, fst run = Return a ∧ SignupAttempt.email a = "cy@example.com"
               ∧ now later < SignupAttempt.expiresAt a)
    as (a & Hrun & Hemail & Hbefore) by (by eexists; vm_compute).
  split; [done|]. exists a. split_and!; [done..|].
  by apply (created_attempt_is_found Sample.bcrypt_hash "Cy@Example.com" "Cy" "Young" "cy"
              w a (snd run) Hindexed (run_fst _ _ _ Hrun) "CY@EXAMPLE.COM" later).
Defined.

(** X26 at the sample: Ada's session, revoked, stays closed through an issue, a week
    and a sweep of Bob's sessions. *)
Lemma revocation_is_permanent_witness :
  let revoked := snd (revokeRefreshToken "t-ada" Scenario.young) in
  let issued := snd (generateRefreshToken Sample.ms "u-ada" revoked) in
  let later := Sample.worldAfter 3 (db issued) (8 * Sample.day) [] in
  let swept := snd (revokeAllUserRefreshTokens "u-bob" later) in
  closed "t-ada" (db revoked)
  ∧ rtc (moves Sample.ms Sample.bcrypt_hash) revoked swept
  ∧ closed "t-ada" (db swept)
  ∧ refused (fst (refreshApplication Sample.ms (Some Scenario.token) swept)).
Proof.
  intros revoked issued later swept.
  assert (closed "t-ada" (db revoked)) as Hclosed.
  { exists (RefreshToken.setRevoked true Scenario.record). by vm_compute. }
  assert (rtc (moves Sample.ms Sample.bcrypt_hash) revoked swept) as Hmoves.
  { eapply rtc_l; [apply (moves_issue _ _ "u-ada")|].
    eapply rtc_l; [apply (moves_env _ _ _ later); reflexivity|].
    apply rtc_once. apply moves_revokeAll. }
  destruct (revocation_is_permanent Sample.ms Sample.bcrypt_hash "t-ada" revoked swept
              Hclosed Hmoves) as [Hstill Hrefused].
  split_and!; [done..|].
  apply (Hrefused Scenario.token _
           (snd (refreshApplication Sample.ms (Some Scenario.token) swept)) eq_refl).
  apply surjective_pairing.
Defined.

(** X2 at the sample: the access token issued for Ada at instant 0 verifies
    ten minutes later, and only as an access token. *)
Lemma access_token_round_trip_and_type_separation_witness :
  let w := Sample.world Sample.sessions 0 [] in
  let w2 := Sample.world Sample.sessions (10 * 60 * 1000) [] in
  generateAccessToken Sample.ms Sample.ada w = (Return (Scenario.accessAt 0), w)
  ∧ liveAt (now w2) (Scenario.accessAt 0)
  ∧ (∃ payload,
       verifyAccessToken (Scenario.accessAt 0) w2 = (Return payload, w2)
       ∧ JS.prop "sub" payload = Some "u-ada"
       ∧ JS.prop "email" payload = Some "ada@example.com")
  ∧ verifyRefreshToken (Scenario.accessAt 0) w2
    = (Throw (UnauthorizedException "Invalid or expired refresh token"), w2)
  ∧ verifyAccessToken Scenario.token w2
    = (Throw (UnauthorizedException "Invalid or expired access token"), w2).
Proof.
  intros w w2.
  destruct (access_token_round_trip_and_type_separation Sample.ms)
    as (Hround & Hother & Hforeign).
  assert (generateAccessToken Sample.ms Sample.ada w = (Return (Scenario.accessAt 0), w))
    as Hissue by reflexivity.
  assert (liveAt (now w2) (Scenario.accessAt 0)) as Hlive
    by (intros e [= <-]; by vm_compute).
  split_and!; [done | done | | |].
  - by apply (Hround Sample.ada w (Scenario.accessAt 0) w w2).
  - by apply (Hother Sample.ada w (Scenario.accessAt 0) w w2).
  - by apply Hforeign.
Defined.

(** X4 at the sample: fifteen minutes by default, two hours when configured;
    a count of 2^53 + 1 seconds is read as the double next to it, and a count
    with no digit as NaN. *)
Lemma accessTokenExpiry_by_unit_witness :
  let w := Sample.world Sample.sessions 0 [] in
  let configured (span : string) :=
    mkWorld Sample.sessions 0 (<["JWT_ACCESS_EXPIRY" := span]> Sample.env)
      Sample.uuid 2 [] (λ _ _, 0) in
  config w !! "JWT_ACCESS_EXPIRY" = None
  ∧ getAccessTokenExpiryInSeconds w = (Return (Some (JS.Finite 900)), w)
  ∧ fst (getAccessTokenExpiryInSeconds (configured "2h")) = Return (Some (JS.Finite 7200))
  ∧ fst (getAccessTokenExpiryInSeconds (configured "9007199254740993s"))
    = Return (Some (JS.Finite 9007199254740992))
  ∧ fst (getAccessTokenExpiryInSeconds (configured "xd")) = Return None
  ∧ fst (getAccessTokenExpiryInSeconds (configured "15x")) = Return (Some (JS.Finite 900)).
Proof.
  intros w configured.
  assert (config w !! "JWT_ACCESS_EXPIRY" = None) as Hdefault by (by vm_compute).
  split_and!; [done | | | | |].
  - by apply (proj1 (accessTokenExpiry_by_unit w)).
  - destruct (proj2 (proj2 (accessTokenExpiry_by_unit (configured "2h"))) "2" "h"%char)
      as (result & -> & _ & _ & Hexact); [by vm_compute|].
    simpl. by rewrite (Hexact 2) by (reflexivity || by vm_compute).
  - destruct (proj2 (proj2 (accessTokenExpiry_by_unit (configured "9007199254740993s")))
                "9007199254740993" "s"%char)
      as (result & -> & -> & _); [by vm_compute|]. by vm_compute.
  - destruct (proj2 (proj2 (accessTokenExpiry_by_unit (configured "xd"))) "x" "d"%char)
      as (result & -> & _ & Hnan & _); [by vm_compute|].
    simpl. by rewrite Hnan by reflexivity.
  - by destruct (proj2 (proj2 (accessTokenExpiry_by_unit (configured "15x"))) "15" "x"%char)
      as (result & -> & ->); [by vm_compute|].
Defined.

(** X8 at the sample: Ada's token after her session is revoked, and after
    all her sessions are. *)
Lemma revoked_sessions_cannot_refresh_witness :
  let one := snd (revokeRefreshToken "t-ada" Scenario.young) in
  let all := snd (revokeAllUserRefreshTokens "u-ada" Scenario.young) in
  fst (Prisma.roundTrip Scenario.young) = Return ()
  ∧ namedSession Scenario.token = Some "t-ada"
  ∧ sessionOf "t-ada" (db Scenario.young) = Some Scenario.record
  ∧ refused (fst (refreshApplication Sample.ms (Some Scenario.token) one))
  ∧ refused (fst (refreshApplication Sample.ms (Some Scenario.token) all)).
Proof.
  intros one all.
  destruct (revoked_sessions_cannot_refresh Sample.ms) as [Hone Hall].
  split_and!; [done | done | done | |].
  - apply (Hone "t-ada" Scenario.young Scenario.token one _
             (snd (refreshApplication Sample.ms (Some Scenario.token) one))
             eq_refl eq_refl eq_refl).
    apply surjective_pairing.
  - apply (Hall "u-ada" Scenario.young Scenario.token "t-ada" Scenario.record all _
             (snd (refreshApplication Sample.ms (Some Scenario.token) all))
             eq_refl eq_refl eq_refl eq_refl eq_refl).
    apply surjective_pairing.
Defined.

(** X9 at the sample: a token for a record that is not stored, Ada's token
    once her record has expired, and her token with the database down. *)
Lemma refresh_failure_names_its_cause_witness :
  let gone := Sample.tokenOf "t-gone" "u-ada" in
  let late := Sample.world Sample.sessions (30 * Sample.day + 1) [] in
  let longLived :=
    Signed (mkJwt [("sub", "u-ada"); ("tokenId", "t-ada"); ("type", "refresh")] 0
              (Some 5184000) "refresh-secret") in
  let down := Sample.world Sample.sessions Sample.day [true] in
  refreshApplication Sample.ms (Some (Malformed "garbage")) Scenario.young
  = (Return (RefreshFailure "Invalid or expired refresh token" "/login"), Scenario.young)
  ∧ refreshApplication Sample.ms (Some gone) Scenario.young
    = (Return (RefreshFailure "Invalid session" "/login"), Scenario.young)
  ∧ refreshApplication Sample.ms (Some longLived) late
    = (Return (RefreshFailure "Session has expired" "/login"), late)
  ∧ refreshApplication Sample.ms (Some Scenario.token) down
    = (Return (RefreshFailure "An error occurred" "/login"),
       setOutages [] down).
Proof.
  intros gone late longLived down.
  assert (∀ id t e (w : World),
            config w = Sample.env → now w / 1000 < e →
            accepts "JWT_REFRESH_SECRET" "refresh"
              (Signed (mkJwt [("sub", "u-ada"); ("tokenId", id); ("type", "refresh")] t
                         (Some e) "refresh-secret")) w
              [("sub", "u-ada"); ("tokenId", id); ("type", "refresh")]) as Hacc.
  { intros id t e w Hconfig Hlive. eexists _, "refresh-secret".
    split_and!; try done; [by rewrite Hconfig|]. by intros e' [= <-]. }
  split_and!.
  - apply (proj1 (proj2 (proj2 (refresh_failure_names_its_cause Sample.ms
                                  (Malformed "garbage") Scenario.young)))); [done|].
    by intros payload (j & secret & ? & _).
  - pose proof (proj1 (proj2 (proj2 (proj2 (refresh_failure_names_its_cause Sample.ms gone
                                             Scenario.young))))
                  [("sub", "u-ada"); ("tokenId", "t-gone"); ("type", "refresh")] "t-gone")
      as Hcause.
    assert (sessionOf "t-gone" (db Scenario.young) = None) as Hgone by (by vm_compute).
    rewrite Hgone in Hcause. apply Hcause; [|done|done]. apply Hacc; [reflexivity|by vm_compute].
  - pose proof (proj1 (proj2 (proj2 (proj2 (refresh_failure_names_its_cause Sample.ms
                                             longLived late))))
                  [("sub", "u-ada"); ("tokenId", "t-ada"); ("type", "refresh")] "t-ada")
      as Hcause.
    assert (sessionOf "t-ada" (db late) = Some Scenario.record) as Hrecord
      by (by vm_compute).
    rewrite Hrecord in Hcause.
    apply Hcause; [apply Hacc; [reflexivity|by vm_compute]|done|done|done|by vm_compute].
  - apply (proj2 (proj2 (proj2 (proj2 (refresh_failure_names_its_cause Sample.ms
                                        Scenario.token down))))
             [("sub", "u-ada"); ("tokenId", "t-ada"); ("type", "refresh")] "t-ada" []);
      [apply Hacc; [reflexivity|by vm_compute]|done|done].
Defined.

(** X12 at the sample: Cy's attempt is found an hour in, not at its
    deadline, and not with the database down. *)
Lemma findInProgressAttempt_returns_the_newest_resumable_witness :
  let w := Sample.world Sample.oneLive Sample.hour [] in
  fst (findInProgressAttempt "Cy@Example.com" w) = Return (Some Scenario.attempt)
  ∧ now w < SignupAttempt.expiresAt Scenario.attempt
  ∧ fst (findInProgressAttempt "Cy@Example.com"
           (Sample.world Sample.oneLive (2 * Sample.hour) []))
    = Return None
  ∧ fst (findInProgressAttempt "Cy@Example.com"
           (Sample.world Sample.oneLive Sample.hour [true]))
    = Return None.
Proof.
  intros w.
  destruct (findInProgressAttempt_returns_the_newest_resumable "Cy@Example.com" w)
    as (r & w' & Hrun & _ & Hsound & _).
  assert (r = Some Scenario.attempt) as -> by (by vm_compute in Hrun; injection Hrun).
  destruct (Hsound _ eq_refl) as (_ & _ & _ & Hlive & _).
  split_and!; [by rewrite Hrun | done | by vm_compute |].
  destruct (findInProgressAttempt_returns_the_newest_resumable "Cy@Example.com"
              (Sample.world Sample.oneLive Sample.hour [true]))
    as (r & w'' & Hrun' & _ & _ & _ & Hdown).
  rewrite Hrun'. simpl. f_equal. by apply (Hdown []).
Defined.

(** X15 at the sample: three hours in, the sweep expires Cy's attempt. *)
Lemma sweep_expires_the_overdue_and_only_them_witness :
  let w := Sample.world Sample.oneLive (3 * Sample.hour) [] in
  fst (markExpiredAttempts w) = Return 1
  ∧ SignupAttempt.status <$> signupAttempts (db (snd (markExpiredAttempts w))) = [EXPIRED]
  ∧ ∀ b, b ∈ signupAttempts (db (snd (markExpiredAttempts w))) →
         expiredInProgress (now w) b = false.
Proof.
  intros w.
  destruct (sweep_expires_the_overdue_and_only_them w)
    as (n & w' & Hrun & _ & _ & _ & _ & _ & _ & Hswept).
  assert (n = 1) as -> by (by vm_compute in Hrun; injection Hrun).
  destruct (Hswept eq_refl) as (_ & Hrows & Hnone).
  rewrite Hrun. simpl. split_and!; [done | by rewrite Hrows | done].
Defined.

(** X17 at the sample: a signup for Ada's email, in capitals, is a 409;
    with the database down it is a 500. *)
Lemma signup_conflict_only_for_an_existing_account_witness :
  let w := Sample.world Sample.sessions 0 [] in
  let down := Sample.world Sample.sessions 0 [true] in
  databaseUp w
  ∧ is_Some (userOf "ADA@example.com" (db w))
  ∧ signup Sample.ms Sample.bcrypt_hash "ADA@example.com" "Ada" "Lovelace" "ada" w
    = (Return (SignupFailure "An account with this email already exists" 409), w)
  ∧ signup Sample.ms Sample.bcrypt_hash "ADA@example.com" "Ada" "Lovelace" "ada" down
    = (Return (SignupFailure "An error occurred during signup" 500), setOutages [] down).
Proof.
  intros w down.
  assert (is_Some (userOf "ADA@example.com" (db w))) as Huser by (by eexists; vm_compute).
  split_and!; [done | done | |].
  - by apply (proj1 (proj2 (signup_conflict_only_for_an_existing_account Sample.ms
                              Sample.bcrypt_hash "ADA@example.com" "Ada" "Lovelace" "ada"
                              w))).
  - by apply (proj2 (proj2 (signup_conflict_only_for_an_existing_account Sample.ms
                              Sample.bcrypt_hash "ADA@example.com" "Ada" "Lovelace" "ada"
                              down)) []).
Defined.
